(** * Storage layer of the node ([lib/db_utils.go]): a shallow embedding

    The Go file maps the entities of the chain onto one ordered byte-string
    key-value store (badger).  This development embeds the functions that
    the specification talks about and proves (or refutes) its statements.

    Layout: byte strings and their order; the store, transactions and
    iterators as the Go code uses them; the functions of [db_utils.go] in
    the order of the source; then the lemmas and the theorems. *)

From Stdlib Require Import Strings.Byte NArith ZArith.
From stdpp Require Import gmap list sorting strings.

Local Open Scope N_scope.

(** ** Bytes and byte strings *)

#[global] Instance byte_eq_dec : EqDecision byte.
Proof.
  intros x y. destruct (Byte.eqb x y) eqn:E.
  - left. apply Byte.byte_dec_bl. exact E.
  - right. intros ->. rewrite (Byte.byte_dec_lb eq_refl) in E. discriminate.
Defined.

#[global] Program Instance byte_countable : Countable byte :=
  inj_countable Byte.to_N Byte.of_N _.
Next Obligation. intros x. apply Byte.of_to_N. Qed.

(** [byte(n)] for an unsigned [n]: the low eight bits. *)
Definition byte_of_N (n : N) : byte :=
  match Byte.of_N (n mod 256) with
  | Some b => b
  | None => x00
  end.

(** [bytes.Compare]: byte-wise lexicographic comparison, a proper prefix
    being smaller.  This is the order in which badger keeps its keys. *)
Fixpoint bytes_compare (a b : list byte) : comparison :=
  match a, b with
  | [], [] => Eq
  | [], _ :: _ => Lt
  | _ :: _, [] => Gt
  | x :: a', y :: b' =>
      match N.compare (Byte.to_N x) (Byte.to_N y) with
      | Eq => bytes_compare a' b'
      | c => c
      end
  end.

Definition bytes_ltb (a b : list byte) : bool :=
  match bytes_compare a b with Lt => true | _ => false end.
Definition bytes_leb (a b : list byte) : bool :=
  match bytes_compare a b with Gt => false | _ => true end.
Definition bytes_lt (a b : list byte) : Prop := bytes_compare a b = Lt.
Definition bytes_le (a b : list byte) : Prop := bytes_compare a b ≠ Gt.

#[global] Instance bytes_le_dec a b : Decision (bytes_le a b).
Proof. unfold bytes_le. apply _. Defined.
#[global] Instance bytes_lt_dec a b : Decision (bytes_lt a b).
Proof. unfold bytes_lt. apply _. Defined.

(** [bytes.HasPrefix(s, prefix)]. *)
Fixpoint HasPrefix (s prefix : list byte) {struct prefix} : bool :=
  match prefix, s with
  | [], _ => true
  | _ :: _, [] => false
  | p :: prefix', x :: s' => bool_decide (x = p) && HasPrefix s' prefix'
  end.

(** ** Fixed-size byte arrays: [type PKID [33]byte], [type BlockHash [32]byte] *)

Record bytesN (n : nat) : Type := BytesN {
  bytes_of : list byte;
  bytes_len : length bytes_of = n
}.
Arguments BytesN {n} _ _.
Arguments bytes_of {n} _.
Arguments bytes_len {n} _.

Lemma bytesN_eq {n} (a b : bytesN n) : bytes_of a = bytes_of b → a = b.
Proof.
  destruct a as [a Ha], b as [b Hb]; simpl. intros ->.
  f_equal. apply (proof_irrel _).
Qed.

#[global] Instance bytesN_eq_dec n : EqDecision (bytesN n).
Proof.
  intros a b. destruct (decide (bytes_of a = bytes_of b)) as [E|E].
  - left. by apply bytesN_eq.
  - right. by intros ->.
Defined.

Lemma fit_length (n : nat) (bs : list byte) :
  length (take n bs ++ replicate (n - length bs) x00) = n.
Proof. rewrite length_app, length_take, length_replicate. lia. Qed.

(** [var a [n]byte; copy(a[:], bs)]: the first [n] bytes of [bs], the rest
    of the array staying zero. *)
Definition fit (n : nat) (bs : list byte) : bytesN n :=
  BytesN (take n bs ++ replicate (n - length bs) x00) (fit_length n bs).

#[global] Program Instance bytesN_countable n : Countable (bytesN n) :=
  inj_countable bytes_of (λ bs, Some (fit n bs)) _.
Next Obligation.
  intros n [bs Hbs]. simpl. f_equal. apply bytesN_eq. simpl.
  rewrite take_ge by lia. replace (n - length bs)%nat with 0%nat by lia.
  apply app_nil_r.
Qed.

Definition HashSizeBytes : nat := 32.
(** [btcec.PubKeyBytesLenCompressed] *)
Definition PubKeyBytesLenCompressed : nat := 33.

Abbreviation PKID := (bytesN 33).
Abbreviation BlockHash := (bytesN 32).

(** The zero value [BlockHash{}]. *)
Definition BlockHash_zero : BlockHash := fit 32 [].

(** ** Fixed-width big-endian integers *)

(** [binary.BigEndian.PutUint32] into a fresh four-byte slice. *)
Definition _EncodeUint32 (num : N) : list byte :=
  [byte_of_N (num / 16777216); byte_of_N (num / 65536);
   byte_of_N (num / 256); byte_of_N num].

(** [binary.BigEndian.Uint32]; [None] stands for the run-time panic on a
    slice shorter than four bytes. *)
Definition DecodeUint32 (num : list byte) : option N :=
  match num with
  | b0 :: b1 :: b2 :: b3 :: _ =>
      Some (Byte.to_N b0 * 16777216 + Byte.to_N b1 * 65536
            + Byte.to_N b2 * 256 + Byte.to_N b3)
  | _ => None
  end.

Definition EncodeUint64 (num : N) : list byte :=
  _EncodeUint32 (num / 4294967296) ++ _EncodeUint32 num.

(** [binary.BigEndian.Uint64]; [None] stands for the panic on a slice
    shorter than eight bytes. *)
Definition DecodeUint64 (scoreBytes : list byte) : option N :=
  match DecodeUint32 scoreBytes, DecodeUint32 (drop 4 scoreBytes) with
  | Some hi, Some lo => Some (hi * 4294967296 + lo)
  | _, _ => None
  end.

(** ** Errors and results *)

(** Go's [error] values that this file produces or inspects: the badger
    sentinels, [fmt.Errorf] and [errors.Wrapf] (messages keep their fixed
    text; formatted arguments are left out). *)
Inductive Error : Type :=
  | ErrKeyNotFound
  | ErrEmptyKey
  | ErrReadOnlyTxn
  | ErrTxnTooBig
  | ErrUnexpectedEOF
  | Errorf (msg : string)
  | Wrapf (err : Error) (msg : string).

(** [errors.Is(err, target)] for a sentinel [target]: looks through wraps. *)
Fixpoint errors_Is (err target : Error) : bool :=
  match err, target with
  | ErrKeyNotFound, ErrKeyNotFound => true
  | ErrEmptyKey, ErrEmptyKey => true
  | ErrReadOnlyTxn, ErrReadOnlyTxn => true
  | ErrTxnTooBig, ErrTxnTooBig => true
  | ErrUnexpectedEOF, ErrUnexpectedEOF => true
  | Wrapf e _, _ => errors_Is e target
  | _, _ => false
  end.

(** A value or an error: the pair [(x, err)] that Go functions return. *)
Inductive result (A : Type) : Type :=
  | Ok (a : A)
  | Err (e : Error).
Arguments Ok {A} _.
Arguments Err {A} _.

Definition is_Ok {A} (r : result A) : bool :=
  match r with Ok _ => true | Err _ => false end.

(** ** The store: badger transactions, handles and iterators

    The store is a finite map from keys to values.  A transaction sees the
    snapshot it was opened on together with its own pending writes (badger
    reads and iterates over pending writes in an update transaction), so
    its state is one map.  [Set] and [Delete] fail on a read-only
    transaction, on an empty key, and when the transaction has no room left
    for another entry ([ErrTxnTooBig]).  Values are held in memory, so
    reading the value of an item that was found does not fail. *)

Record Txn : Type := MkTxn {
  view : gmap (list byte) (list byte);
  update : bool;
  room : nat
}.

(** Code that runs in a transaction and may fail.  The transaction state
    is returned on failure too: entries written before the failing step
    stay pending until the caller discards the transaction. *)
Definition M (A : Type) : Type := Txn → Txn * result A.

Definition ret {A} (a : A) : M A := λ txn, (txn, Ok a).
Definition fail {A} (e : Error) : M A := λ txn, (txn, Err e).
Definition bind {A B} (m : M A) (f : A → M B) : M B :=
  λ txn, match m txn with
         | (txn', Ok a) => f a txn'
         | (txn', Err e) => (txn', Err e)
         end.
(** [if err := m; err != nil { return errors.Wrapf(err, msg) }] *)
Definition wrapf {A} (m : M A) (msg : string) : M A :=
  λ txn, match m txn with
         | (txn', Ok a) => (txn', Ok a)
         | (txn', Err e) => (txn', Err (Wrapf e msg))
         end.

Notation "m >>> k" := (bind m (λ _, k))
  (at level 65, right associativity).

(** A Go loop [for _, x := range l { if err := f(x); err != nil { return err } }]. *)
Fixpoint forM_ {A} (l : list A) (f : A → M unit) : M unit :=
  match l with
  | [] => ret tt
  | x :: l' => f x >>> forM_ l' f
  end.

(** [txn.Get(key)]: the value of the item, or the error. *)
Definition txn_Get (txn : Txn) (key : list byte) : result (list byte) :=
  match key with
  | [] => Err ErrEmptyKey
  | _ => match view txn !! key with
         | Some v => Ok v
         | None => Err ErrKeyNotFound
         end
  end.

(** The checks of badger's [txn.modify], common to [Set] and [Delete]. *)
Definition txn_modify (key : list byte)
    (f : gmap (list byte) (list byte) → gmap (list byte) (list byte)) : M unit :=
  λ txn,
    if negb (update txn) then (txn, Err ErrReadOnlyTxn)
    else match key with
         | [] => (txn, Err ErrEmptyKey)
         | _ => match room txn with
                | O => (txn, Err ErrTxnTooBig)
                | S r => (MkTxn (f (view txn)) (update txn) r, Ok tt)
                end
         end.

Definition txn_Set (key val : list byte) : M unit :=
  txn_modify key (λ m, <[key := val]> m).
Definition txn_Delete (key : list byte) : M unit :=
  txn_modify key (λ m, delete key m).

(** A database handle: the committed contents and the number of entries a
    single transaction may write. *)
Record DB : Type := MkDB {
  contents : gmap (list byte) (list byte);
  maxBatchCount : nat
}.

Definition NewTransaction (db : DB) (upd : bool) : Txn :=
  MkTxn (contents db) upd (maxBatchCount db).

(** [db.Update(fn)]: run [fn] in a fresh read-write transaction; commit if
    it returns nil, discard otherwise. *)
Definition Update (db : DB) (fn : M unit) : DB * option Error :=
  match fn (NewTransaction db true) with
  | (txn, Ok _) => (MkDB (view txn) (maxBatchCount db), None)
  | (_, Err e) => (db, Some e)
  end.

(** [db.View(fn)] for an [fn] that reads only. *)
Definition View {A} (db : DB) (fn : Txn → A) : A :=
  fn (NewTransaction db false).

(** The items of a store in key order. *)
Definition Items (m : gmap (list byte) (list byte)) : list (list byte * list byte) :=
  merge_sort (λ a b, bytes_le a.1 b.1) (map_to_list m).

(** The order of two items: the byte order of their keys. *)
Definition key_lt (a b : list byte * list byte) : Prop := bytes_lt a.1 b.1.

(** [ValidForPrefix(prefix)] on an item. *)
Definition valid (prefix : list byte) (kv : list byte * list byte) : bool :=
  HasPrefix kv.1 prefix.

Fixpoint dropWhile {A} (f : A → bool) (l : list A) : list A :=
  match l with
  | [] => []
  | x :: l' => if f x then dropWhile f l' else l
  end.

Fixpoint takeWhile {A} (f : A → bool) (l : list A) : list A :=
  match l with
  | [] => []
  | x :: l' => if f x then x :: takeWhile f l' else []
  end.

(** [it.Seek(key)] on an iterator with [opts.Reverse = rev]: the items the
    iterator will visit, in order.  Forward, it starts at the smallest key
    greater than or equal to [key]; in reverse, at the largest key smaller
    than or equal to [key].  An empty [key] rewinds the iterator to its
    first item in either direction. *)
Definition Seek (rev : bool) (m : gmap (list byte) (list byte)) (key : list byte)
    : list (list byte * list byte) :=
  if rev then
    match key with
    | [] => reverse (Items m)
    | _ => dropWhile (λ kv, bytes_ltb key kv.1) (reverse (Items m))
    end
  else dropWhile (λ kv, bytes_ltb kv.1 key) (Items m).

(** ** Entities whose declarations live in other files of the repository *)

(** [UtxoKey]: transaction id and output index (a [uint32]). *)
Record UtxoKey : Type := MkUtxoKey {
  TxID : BlockHash;
  Index : N
}.

(** [UtxoEntry], with the fields this file reads. *)
Record UtxoEntry : Type := MkUtxoEntry {
  AmountNanos : N;
  PublicKey : list byte;
  BlockHeight : N;
  UtxoType : N
}.

(** [DiamondEntry]. *)
Record DiamondEntry : Type := MkDiamondEntry {
  SenderPKID : PKID;
  ReceiverPKID : PKID;
  DiamondPostHash : BlockHash;
  DiamondLevel : Z
}.

(** What [db_utils.go] calls but does not define: the gob codec of the Go
    library, the varint helpers and the block header of the repository,
    and the status bits of [BlockStatus].  The development is parametric
    in them. *)
Class Externals : Type := {
  gobEncodeUtxoEntry : UtxoEntry → list byte;
  gobDecodeUtxoEntry : list byte → option UtxoEntry;
  gobEncodeDiamondEntry : DiamondEntry → list byte;
  gobDecodeDiamondEntry : list byte → option DiamondEntry;
  (** [UintToBuf(x)]: the varint bytes of a [uint64]. *)
  UintToBuf : N → list byte;
  (** [Uvarint(buf)]: the decoded value and the number of bytes read (not
      positive on failure). *)
  Uvarint : list byte → N * Z;
  (** [ReadUvarint(r)], [ReadVarint(r)]: the value and the unread rest. *)
  ReadUvarint : list byte → result (N * list byte);
  ReadVarint : list byte → result (Z * list byte);
  MsgBitCloutHeader : Type;
  PrevBlockHash : MsgBitCloutHeader → BlockHash;
  (** [header.FromBytes(data)] on a fresh header. *)
  Header_FromBytes : list byte → result MsgBitCloutHeader;
  HashToBigint : BlockHash → N;
  StatusBlockValidated : N;
  StatusBitcoinHeaderValidated : N
}.

(** A run-time panic is rendered as an error of this form; every caller in
    this file hands errors on unchanged, as a panic unwinds. *)
Definition GoPanic (msg : string) : Error := Wrapf (Errorf msg) "panic".

(** ** Key prefixes *)

Definition _PrefixHeightHashToNodeInfo : list byte := [x01].
Definition _PrefixBitcoinHeightHashToNodeInfo : list byte := [x02].
Definition _PrefixUtxoKeyToUtxoEntry : list byte := [x05].
Definition _PrefixPubKeyUtxoKey : list byte := [x07].
Definition _KeyUtxoNumEntries : list byte := [x08].
Definition _PrefixPublicKeyIndexToTransactionIDs : list byte := [x10].
Definition _PrefixFollowerPKIDToFollowedPKID : list byte := [x1c].
Definition _PrefixFollowedPKIDToFollowerPKID : list byte := [x1d].
Definition _PrefixDiamondReceiverPKIDDiamondSenderPKIDPostHash : list byte := [x29].
Definition _PrefixPublicKeyToNextIndex : list byte := [x2a].
Definition _PrefixDiamondSenderPKIDDiamondReciverPKIDPostHash : list byte := [x2b].

(** ** Enumerating keys *)

(** The loop of [_enumerateKeysForPrefixWithTxn] over the items the
    iterator visits after [Seek(prefix)]. *)
Fixpoint _enumerateKeysForPrefix_loop (prefix : list byte)
    (it : list (list byte * list byte)) (keysFound valsFound : list (list byte))
    : result (list (list byte) * list (list byte)) :=
  match it with
  | [] => Ok (keysFound, valsFound)
  | (key, val) :: it' =>
      if negb (HasPrefix key prefix) then Ok (keysFound, valsFound)
      else _enumerateKeysForPrefix_loop prefix it'
             (keysFound ++ [key]) (valsFound ++ [val])
  end.

Definition _enumerateKeysForPrefixWithTxn (dbTxn : Txn) (dbPrefix : list byte)
    : result (list (list byte) * list (list byte)) :=
  let prefix := dbPrefix in
  _enumerateKeysForPrefix_loop prefix (Seek false (view dbTxn) prefix) [] [].

(** The loop of [_enumerateLimitedKeysReversedForPrefixWithTxn];
    [counter] and [limit] are [uint64]. *)
Fixpoint _enumerateLimitedKeysReversedForPrefix_loop (prefix : list byte)
    (limit counter : N) (it : list (list byte * list byte))
    (keysFound valsFound : list (list byte))
    : result (list (list byte) * list (list byte)) :=
  match it with
  | [] => Ok (keysFound, valsFound)
  | (key, val) :: it' =>
      if negb (HasPrefix key prefix) then Ok (keysFound, valsFound)
      else if counter =? limit then Ok (keysFound, valsFound)
      else _enumerateLimitedKeysReversedForPrefix_loop prefix limit
             ((counter + 1) mod 2 ^ 64) it'
             (keysFound ++ [key]) (valsFound ++ [val])
  end.

Definition _enumerateLimitedKeysReversedForPrefixWithTxn (dbTxn : Txn)
    (dbPrefix : list byte) (limit : N)
    : result (list (list byte) * list (list byte)) :=
  let prefix := dbPrefix in
  _enumerateLimitedKeysReversedForPrefix_loop prefix limit 0
    (Seek true (view dbTxn) (prefix ++ [xff])) [] [].

(** The handle-level wrapper: on an error it logs and returns [nil, nil]
    (rendered as two empty lists). *)
Definition _enumerateLimitedKeysReversedForPrefix (db : DB)
    (dbPrefix : list byte) (limit : N) : list (list byte) * list (list byte) :=
  match View db (λ txn, _enumerateLimitedKeysReversedForPrefixWithTxn txn dbPrefix limit) with
  | Ok (keysFound, valsFound) => (keysFound, valsFound)
  | Err _ => ([], [])
  end.

(** ** Follows: [<prefix, follower, followed> -> <>] and its mirror *)

Definition _dbKeyForFollowerToFollowedMapping (followerPKID followedPKID : PKID)
    : list byte :=
  (_PrefixFollowerPKIDToFollowedPKID ++ bytes_of followerPKID) ++ bytes_of followedPKID.

Definition _dbKeyForFollowedToFollowerMapping (followedPKID followerPKID : PKID)
    : list byte :=
  (_PrefixFollowedPKIDToFollowerPKID ++ bytes_of followedPKID) ++ bytes_of followerPKID.

Definition DbPutFollowMappingsWithTxn (followerPKID followedPKID : PKID) : M unit :=
  if negb (length (bytes_of followerPKID) =? PubKeyBytesLenCompressed)%nat then
    fail (Errorf "DbPutFollowMappingsWithTxn: Follower PKID length")
  else if negb (length (bytes_of followedPKID) =? PubKeyBytesLenCompressed)%nat then
    fail (Errorf "DbPutFollowMappingsWithTxn: Followed PKID length")
  else
    wrapf (txn_Set (_dbKeyForFollowerToFollowedMapping followerPKID followedPKID) [])
      "DbPutFollowMappingsWithTxn: Problem adding follower to followed mapping: "
    >>> wrapf (txn_Set (_dbKeyForFollowedToFollowerMapping followedPKID followerPKID) [])
      "DbPutFollowMappingsWithTxn: Problem adding followed to follower mapping: ".

Definition DbPutFollowMappings (handle : DB) (followerPKID followedPKID : PKID)
    : DB * option Error :=
  Update handle (DbPutFollowMappingsWithTxn followerPKID followedPKID).

(** Returns [nil] ([None]) when the forward key cannot be read, and the
    empty, non-nil slice [[]byte{}] otherwise. *)
Definition DbGetFollowerToFollowedMappingWithTxn (txn : Txn)
    (followerPKID followedPKID : PKID) : option (list byte) :=
  let key := _dbKeyForFollowerToFollowedMapping followerPKID followedPKID in
  match txn_Get txn key with
  | Err _ => None
  | Ok _ => Some []
  end.

Definition DbGetFollowerToFollowedMapping (db : DB) (followerPKID followedPKID : PKID)
    : option (list byte) :=
  View db (λ txn, DbGetFollowerToFollowedMappingWithTxn txn followerPKID followedPKID).

Definition DbDeleteFollowMappingsWithTxn (followerPKID followedPKID : PKID) : M unit :=
  λ txn,
    match DbGetFollowerToFollowedMappingWithTxn txn followerPKID followedPKID with
    | None => (txn, Ok tt)
    | Some _ =>
        (wrapf (txn_Delete (_dbKeyForFollowerToFollowedMapping followerPKID followedPKID))
           "DbDeleteFollowMappingsWithTxn: Deleting followerPKID and followedPKID failed"
         >>> wrapf (txn_Delete (_dbKeyForFollowedToFollowerMapping followedPKID followerPKID))
           "DbDeleteFollowMappingsWithTxn: Deleting followedPKID and followerPKID failed")
          txn
    end.

Definition DbDeleteFollowMappings (handle : DB) (followerPKID followedPKID : PKID)
    : DB * option Error :=
  Update handle (DbDeleteFollowMappingsWithTxn followerPKID followedPKID).

Section Functions.
Context `{Externals}.

(** ** Diamonds: [<prefix, receiver, sender, posthash> -> DiamondEntry] and its mirror *)

Definition _dbKeyForDiamondReceiverToDiamondSenderMapping
    (diamondReceiverPKID diamondSenderPKID : PKID) (diamondPostHash : BlockHash)
    : list byte :=
  ((_PrefixDiamondReceiverPKIDDiamondSenderPKIDPostHash ++ bytes_of diamondReceiverPKID)
     ++ bytes_of diamondSenderPKID) ++ bytes_of diamondPostHash.

Definition _dbKeyForDiamondSenderToDiamondRecieverMapping
    (diamondReceiverPKID diamondSenderPKID : PKID) (diamondPostHash : BlockHash)
    : list byte :=
  ((_PrefixDiamondSenderPKIDDiamondReciverPKIDPostHash ++ bytes_of diamondSenderPKID)
     ++ bytes_of diamondReceiverPKID) ++ bytes_of diamondPostHash.

Definition _DbBufForDiamondEntry (diamondEntry : DiamondEntry) : list byte :=
  gobEncodeDiamondEntry diamondEntry.

Definition _DbDiamondEntryForDbBuf (buf : list byte) : option DiamondEntry :=
  if (length buf =? 0)%nat then None
  else gobDecodeDiamondEntry buf.

Definition DbPutDiamondMappingsWithTxn (diamondEntry : DiamondEntry) : M unit :=
  if negb (length (bytes_of (ReceiverPKID diamondEntry)) =? PubKeyBytesLenCompressed)%nat then
    fail (Errorf "DbPutDiamondMappingsWithTxn: Receiver PKID length")
  else if negb (length (bytes_of (SenderPKID diamondEntry)) =? PubKeyBytesLenCompressed)%nat then
    fail (Errorf "DbPutDiamondMappingsWithTxn: Sender PKID length")
  else
    let diamondEntryBytes := _DbBufForDiamondEntry diamondEntry in
    wrapf (txn_Set (_dbKeyForDiamondReceiverToDiamondSenderMapping
                      (ReceiverPKID diamondEntry) (SenderPKID diamondEntry)
                      (DiamondPostHash diamondEntry)) diamondEntryBytes)
      "DbPutDiamondMappingsWithTxn: Problem adding receiver to giver mapping: "
    >>> wrapf (txn_Set (_dbKeyForDiamondSenderToDiamondRecieverMapping
                          (ReceiverPKID diamondEntry) (SenderPKID diamondEntry)
                          (DiamondPostHash diamondEntry)) diamondEntryBytes)
      "DbPutDiamondMappingsWithTxn: Problem adding sender to receiver mapping: ".

Definition DbPutDiamondMappings (handle : DB) (diamondEntry : DiamondEntry)
    : DB * option Error :=
  Update handle (DbPutDiamondMappingsWithTxn diamondEntry).

Definition DbGetDiamondMappingsWithTxn (txn : Txn)
    (diamondReceiverPKID diamondSenderPKID : PKID) (diamondPostHash : BlockHash)
    : option DiamondEntry :=
  let key := _dbKeyForDiamondReceiverToDiamondSenderMapping
               diamondReceiverPKID diamondSenderPKID diamondPostHash in
  match txn_Get txn key with
  | Err _ => None
  | Ok diamondEntryBuf => _DbDiamondEntryForDbBuf diamondEntryBuf
  end.

Definition DbGetDiamondMappings (db : DB)
    (diamondReceiverPKID diamondSenderPKID : PKID) (diamondPostHash : BlockHash)
    : option DiamondEntry :=
  View db (λ txn, DbGetDiamondMappingsWithTxn txn
                    diamondReceiverPKID diamondSenderPKID diamondPostHash).

Definition DbDeleteDiamondMappingsWithTxn
    (diamondReceiverPKID diamondSenderPKID : PKID) (diamondPostHash : BlockHash)
    : M unit :=
  λ txn,
    match DbGetDiamondMappingsWithTxn txn
            diamondReceiverPKID diamondSenderPKID diamondPostHash with
    | None => (txn, Ok tt)
    | Some _ =>
        (wrapf (txn_Delete (_dbKeyForDiamondReceiverToDiamondSenderMapping
                              diamondReceiverPKID diamondSenderPKID diamondPostHash))
           "DbDeleteDiamondMappingsWithTxn: Deleting receiver to sender mapping failed"
         >>> wrapf (txn_Delete (_dbKeyForDiamondSenderToDiamondRecieverMapping
                                  diamondReceiverPKID diamondSenderPKID diamondPostHash))
           "DbDeleteDiamondMappingsWithTxn: Deleting sender to receiver mapping failed")
          txn
    end.

Definition DbDeleteDiamondMappings (handle : DB)
    (diamondReceiverPKID diamondGiverPKID : PKID) (diamondPostHash : BlockHash)
    : DB * option Error :=
  Update handle (DbDeleteDiamondMappingsWithTxn
                   diamondReceiverPKID diamondGiverPKID diamondPostHash).

(** ** The UTXO table *)

(** [None] stands for the panic of [DecodeUint64] on a stored value
    shorter than eight bytes. *)
Definition GetUtxoNumEntriesWithTxn (txn : Txn) : option N :=
  match txn_Get txn _KeyUtxoNumEntries with
  | Err _ => Some 0
  | Ok indexBytes => DecodeUint64 indexBytes
  end.

Definition GetUtxoNumEntries (handle : DB) : option N :=
  View handle GetUtxoNumEntriesWithTxn.

Definition _SerializeUtxoKey (utxoKey : UtxoKey) : list byte :=
  bytes_of (TxID utxoKey) ++ _EncodeUint32 (Index utxoKey).

Definition _DbKeyForUtxoKey (utxoKey : UtxoKey) : list byte :=
  _PrefixUtxoKeyToUtxoEntry ++ _SerializeUtxoKey utxoKey.

Definition _DbBufForUtxoEntry (utxoEntry : UtxoEntry) : list byte :=
  gobEncodeUtxoEntry utxoEntry.

Definition PutUtxoNumEntriesWithTxn (newNumEntries : N) : M unit :=
  txn_Set _KeyUtxoNumEntries (EncodeUint64 newNumEntries).

Definition PutUtxoEntryForUtxoKeyWithTxn (utxoKey : UtxoKey) (utxoEntry : UtxoEntry)
    : M unit :=
  txn_Set (_DbKeyForUtxoKey utxoKey) (_DbBufForUtxoEntry utxoEntry).

Definition DbGetUtxoEntryForUtxoKeyWithTxn (txn : Txn) (utxoKey : UtxoKey)
    : option UtxoEntry :=
  let utxoDbKey := _DbKeyForUtxoKey utxoKey in
  match txn_Get txn utxoDbKey with
  | Err _ => None
  | Ok valBytes => gobDecodeUtxoEntry valBytes
  end.

Definition DeleteUtxoEntryForKeyWithTxn (utxoKey : UtxoKey) : M unit :=
  txn_Delete (_DbKeyForUtxoKey utxoKey).

Definition DeletePubKeyUtxoKeyMappingWithTxn (publicKey : list byte) (utxoKey : UtxoKey)
    : M unit :=
  if negb (length publicKey =? PubKeyBytesLenCompressed)%nat then
    fail (Errorf "DeletePubKeyUtxoKeyMappingWithTxn: Public key has improper length")
  else
    let keyToDelete := (_PrefixPubKeyUtxoKey ++ publicKey) ++ _SerializeUtxoKey utxoKey in
    txn_Delete keyToDelete.

Definition PutPubKeyUtxoKeyWithTxn (publicKey : list byte) (utxoKey : UtxoKey) : M unit :=
  if negb (length publicKey =? PubKeyBytesLenCompressed)%nat then
    fail (Errorf "PutPubKeyUtxoKeyWithTxn: Public key has improper length")
  else
    let keyToAdd := (_PrefixPubKeyUtxoKey ++ publicKey) ++ _SerializeUtxoKey utxoKey in
    txn_Set keyToAdd [].

Definition DeleteUnmodifiedMappingsForUtxoWithTxn (utxoKey : UtxoKey) : M unit :=
  λ txn,
    match DbGetUtxoEntryForUtxoKeyWithTxn txn utxoKey with
    | None => (txn, Ok tt)
    | Some utxoEntry =>
        (DeleteUtxoEntryForKeyWithTxn utxoKey
         >>> DeletePubKeyUtxoKeyMappingWithTxn (PublicKey utxoEntry) utxoKey) txn
    end.

(** The first [if] returns [nil] on a failed write, as the source does. *)
Definition PutMappingsForUtxoWithTxn (utxoKey : UtxoKey) (utxoEntry : UtxoEntry)
    : M unit :=
  λ txn,
    match PutUtxoEntryForUtxoKeyWithTxn utxoKey utxoEntry txn with
    | (txn', Err _) => (txn', Ok tt)
    | (txn', Ok _) => PutPubKeyUtxoKeyWithTxn (PublicKey utxoEntry) utxoKey txn'
    end.

(** ** Block nodes and the block index *)

(** [BlockNode].  Nodes are heap objects reached through pointers
    ([*BlockNode]); a pointer is an index into the heap of nodes that
    [GetBlockIndex] allocates, and [Parent] is such a pointer or nil. *)
Record BlockNode : Type := MkBlockNode {
  Parent : option nat;
  Hash : BlockHash;
  Height : N;
  DifficultyTarget : BlockHash;
  CumWork : N;
  Header : MsgBitCloutHeader;
  Status : N
}.

Definition set_Parent (parent : option nat) (node : BlockNode) : BlockNode :=
  MkBlockNode parent (Hash node) (Height node) (DifficultyTarget node)
    (CumWork node) (Header node) (Status node).

(** [io.ReadFull(rr, buf)] with [len(buf) = n]: the bytes read and the
    unread rest. *)
Definition ReadFull (n : nat) (rr : list byte) : result (list byte * list byte) :=
  if (n <=? length rr)%nat then Ok (take n rr, drop n rr)
  else Err ErrUnexpectedEOF.

Definition DeserializeBlockNode (data : list byte) : result BlockNode :=
  match ReadFull HashSizeBytes data with
  | Err e => Err (Wrapf e "DeserializeBlockNode: Problem decoding Hash")
  | Ok (hash, rr) =>
  match ReadUvarint rr with
  | Err e => Err (Wrapf e "DeserializeBlockNode: Problem decoding Height")
  | Ok (height, rr) =>
  match ReadFull HashSizeBytes rr with
  | Err e => Err (Wrapf e "DeserializeBlockNode: Problem decoding DifficultyTarget")
  | Ok (difficultyTarget, rr) =>
  match ReadFull HashSizeBytes rr with
  | Err e => Err (Wrapf e "DeserializeBlockNode: Problem decoding CumWork")
  | Ok (tmp, rr) =>
  match ReadVarint rr with
  | Err e => Err (Wrapf e "DeserializeBlockNode: Problem decoding Header length")
  | Ok (payloadLen, rr) =>
  if (payloadLen <? 0)%Z then Err (GoPanic "makeslice: len out of range") else
  match ReadFull (Z.to_nat payloadLen) rr with
  | Err e => Err (Wrapf e "DeserializeBlockNode: Problem reading Header bytes")
  | Ok (headerBytes, rr) =>
  match Header_FromBytes headerBytes with
  | Err e => Err (Wrapf e "DeserializeBlockNode: Problem parsing Header bytes")
  | Ok header =>
  match ReadUvarint rr with
  | Err e => Err (Wrapf e "DeserializeBlockNode: Problem decoding Status")
  | Ok (status, _) =>
      Ok (MkBlockNode None (fit 32 hash) (height mod 2 ^ 32)
            (fit 32 difficultyTarget) (HashToBigint (fit 32 tmp)) header
            (status mod 2 ^ 32))
  end end end end end end end end.

Definition _heightHashToNodeIndexPrefix (bitcoinNodes : bool) : list byte :=
  if bitcoinNodes then _PrefixBitcoinHeightHashToNodeInfo
  else _PrefixHeightHashToNodeInfo.

Definition _heightHashToNodeIndexKey (height : N) (hash : BlockHash)
    (bitcoinNodes : bool) : list byte :=
  let prefix := _heightHashToNodeIndexPrefix bitcoinNodes in
  (prefix ++ _EncodeUint32 height) ++ bytes_of hash.

(** The loop of [GetBlockIndex]: [heap] holds the nodes allocated so far,
    [blockIndex] maps a hash to the pointer of its node. *)
Fixpoint GetBlockIndex_loop (prefix : list byte)
    (it : list (list byte * list byte))
    (heap : list BlockNode) (blockIndex : gmap BlockHash nat)
    : result (list BlockNode * gmap BlockHash nat) :=
  match it with
  | [] => Ok (heap, blockIndex)
  | (key, blockNodeBytes) :: it' =>
      if negb (HasPrefix key prefix) then Ok (heap, blockIndex) else
      match DeserializeBlockNode blockNodeBytes with
      | Err e => Err e
      | Ok node =>
          let blockNode := length heap in
          let heap := heap ++ [node] in
          let blockIndex := <[Hash node := blockNode]> blockIndex in
          if (Height node =? 0)
             || bool_decide (PrevBlockHash (Header node) = BlockHash_zero)
          then GetBlockIndex_loop prefix it' heap blockIndex
          else
            match blockIndex !! PrevBlockHash (Header node) with
            | Some parent =>
                GetBlockIndex_loop prefix it'
                  (alter (set_Parent (Some parent)) blockNode heap) blockIndex
            | None =>
                Err (Errorf "GetBlockIndex: Could not find parent for blockNode")
            end
      end
  end.

Definition GetBlockIndex (handle : DB) (bitcoinNodes : bool)
    : result (list BlockNode * gmap BlockHash nat) :=
  let prefix := _heightHashToNodeIndexPrefix bitcoinNodes in
  match View handle (λ txn, GetBlockIndex_loop prefix
                              (Seek false (view txn) prefix) [] ∅) with
  | Err e => Err (Wrapf e "GetBlockIndex: Problem reading block index from db")
  | Ok r => Ok r
  end.

(** The first loop of [GetBestChain].  The walk follows [Parent] pointers
    and need not end on a heap with a cycle; [None] says the fuel ran out
    (or a pointer left the heap). *)
Fixpoint GetBestChain_loop (fuel : nat) (heap : list BlockNode)
    (tipNode : option nat) (reversedBestChain : list nat)
    : option (result (list nat)) :=
  match tipNode with
  | None => Some (Ok reversedBestChain)
  | Some tip =>
      match fuel with
      | O => None
      | S fuel' =>
          match heap !! tip with
          | None => None
          | Some node =>
              if (N.land (Status node) StatusBlockValidated =? 0)
                 && (N.land (Status node) StatusBitcoinHeaderValidated =? 0)
              then Some (Err (Errorf "GetBestChain: Invalid node found in main chain"))
              else GetBestChain_loop fuel' heap (Parent node)
                     (reversedBestChain ++ [tip])
          end
      end
  end.

(** [GetBestChain(tipNode, blockIndex)]: the chain from the root to the
    tip, as pointers. *)
Definition GetBestChain (fuel : nat) (heap : list BlockNode)
    (tipNode : option nat) (blockIndex : gmap BlockHash nat)
    : option (result (list nat)) :=
  match GetBestChain_loop fuel heap tipNode [] with
  | Some (Ok reversedBestChain) => Some (Ok (reverse reversedBestChain))
  | r => r
  end.

(** ** The transaction index: per public key, an ordered list of transaction ids *)

Definition _DbTxindexPublicKeyNextIndexPrefix (publicKey : list byte) : list byte :=
  _PrefixPublicKeyToNextIndex ++ publicKey.

Definition DbTxindexPublicKeyPrefix (publicKey : list byte) : list byte :=
  _PrefixPublicKeyIndexToTransactionIDs ++ publicKey.

Definition DbTxindexPublicKeyIndexToTxnKey (publicKey : list byte) (index : N)
    : list byte :=
  let prefix := DbTxindexPublicKeyPrefix publicKey in
  prefix ++ _EncodeUint32 index.

Definition DbGetTxindexTxnsForPublicKeyWithTxn (dbTxn : Txn) (publicKey : list byte)
    : list BlockHash :=
  match _enumerateKeysForPrefixWithTxn dbTxn (DbTxindexPublicKeyPrefix publicKey) with
  | Err _ => []
  | Ok (_, valsFound) => map (fit 32) valsFound
  end.

(** The loop body returns on the first item it visits.  [countVal + 1] is
    computed on [uint32] and then widened. *)
Definition _DbGetTxindexNextIndexForPublicKeBySeekWithTxn (dbTxn : Txn)
    (publicKey : list byte) : N :=
  let dbPrefixx := DbTxindexPublicKeyPrefix publicKey in
  let maxBigEndianUint32Bytes := [xff; xff; xff; xff] in
  let prefix := dbPrefixx ++ maxBigEndianUint32Bytes in
  match Seek true (view dbTxn) prefix with
  | [] => 0
  | (key, _) :: _ =>
      if negb (HasPrefix key dbPrefixx) then 0
      else
        let countKey := drop (length dbPrefixx) key in
        if (length countKey <? length maxBigEndianUint32Bytes)%nat then 0
        else
          match DecodeUint32 (take (length maxBigEndianUint32Bytes) countKey) with
          | Some countVal => (countVal + 1) mod 2 ^ 32
          | None => 0
          end
  end.

(** Returns a [*uint64]: [None] is nil. *)
Definition _DbGetTxindexNextIndexForPublicKeyWithTxn (txn : Txn)
    (publicKey : list byte) : option N :=
  let key := _DbTxindexPublicKeyNextIndexPrefix publicKey in
  match txn_Get txn key with
  | Err err =>
      if errors_Is err ErrKeyNotFound then
        Some (_DbGetTxindexNextIndexForPublicKeBySeekWithTxn txn publicKey)
      else None
  | Ok valBytes =>
      let '(nextIndexVal, bytesRead) := Uvarint valBytes in
      if (bytesRead <=? 0)%Z then None
      else Some nextIndexVal
  end.

Definition DbGetTxindexNextIndexForPublicKey (handle : DB) (publicKey : list byte)
    : option N :=
  View handle (λ txn, _DbGetTxindexNextIndexForPublicKeyWithTxn txn publicKey).

Definition DbPutTxindexNextIndexForPublicKeyWithTxn (publicKey : list byte)
    (nextIndex : N) : M unit :=
  let key := _DbTxindexPublicKeyNextIndexPrefix publicKey in
  let valBuf := UintToBuf nextIndex in
  txn_Set key valBuf.

Definition DbDeleteTxindexNextIndexForPublicKeyWithTxn (publicKey : list byte)
    : M unit :=
  let key := _DbTxindexPublicKeyNextIndexPrefix publicKey in
  txn_Delete key.

Definition DbPutTxindexPublicKeyToTxnMappingSingleWithTxn (publicKey : list byte)
    (txID : BlockHash) : M unit :=
  λ dbTxn,
    match _DbGetTxindexNextIndexForPublicKeyWithTxn dbTxn publicKey with
    | None => (dbTxn, Err (Errorf "Error getting next index"))
    | Some nextIndex =>
        let key := DbTxindexPublicKeyIndexToTxnKey publicKey (nextIndex mod 2 ^ 32) in
        (DbPutTxindexNextIndexForPublicKeyWithTxn publicKey ((nextIndex + 1) mod 2 ^ 64)
         >>> txn_Set key (bytes_of txID)) dbTxn
    end.

(** The first loop of the delete: drop the first occurrence of [txID]. *)
Fixpoint remove_txID (txID : BlockHash) (txIDsInDB : list BlockHash) : list BlockHash :=
  match txIDsInDB with
  | [] => []
  | singleTxID :: rest =>
      if decide (singleTxID = txID) then rest
      else singleTxID :: remove_txID txID rest
  end.

Definition DbDeleteTxindexPublicKeyToTxnMappingSingleWithTxn (publicKey : list byte)
    (txID : BlockHash) : M unit :=
  λ dbTxn,
    let txIDsInDB := DbGetTxindexTxnsForPublicKeyWithTxn dbTxn publicKey in
    let numMappingsInDB := length txIDsInDB in
    let txIDsInDB := remove_txID txID txIDsInDB in
    (forM_ (seq 0 numMappingsInDB)
       (λ pkIndex, txn_Delete (DbTxindexPublicKeyIndexToTxnKey publicKey
                                 (N.of_nat pkIndex mod 2 ^ 32)))
     >>> DbDeleteTxindexNextIndexForPublicKeyWithTxn publicKey
     >>> forM_ txIDsInDB
           (λ singleTxID,
              DbPutTxindexPublicKeyToTxnMappingSingleWithTxn publicKey singleTxID))
      dbTxn.

(** ** Paginated scans *)

(** The seek key of a reverse scan: [startPrefix] cut or padded with
    [0xFF] to [maxKeyLen] bytes. *)
Definition padded_prefix (startPrefix : list byte) (maxKeyLen : nat) : list byte :=
  map (λ ii, default xff (startPrefix !! ii)) (seq 0 maxKeyLen).

(** The loop of [DBGetPaginatedKeysAndValuesForPrefixWithTxn]; [maxKeyLen]
    and [numToFetch] are [int].  A value that is not fetched is the nil
    slice, rendered as the empty list. *)
Fixpoint DBGetPaginatedKeysAndValuesForPrefix_loop (validForPrefix : list byte)
    (maxKeyLen numToFetch : Z) (fetchValues : bool)
    (it : list (list byte * list byte)) (keysFound valsFound : list (list byte))
    : result (list (list byte) * list (list byte)) :=
  match it with
  | [] => Ok (keysFound, valsFound)
  | (key, val) :: it' =>
      if negb (HasPrefix key validForPrefix) then Ok (keysFound, valsFound)
      else if negb (maxKeyLen =? 0)%Z && negb (Z.of_nat (length key) =? maxKeyLen)%Z then
        Err (Errorf "DBGetPaginatedKeysAndValuesForPrefixWithTxn: Invalid key length")
      else
        let valCopy := if fetchValues then val else [] in
        let keysFound := keysFound ++ [key] in
        let valsFound := valsFound ++ [valCopy] in
        if negb (numToFetch =? 0)%Z && (Z.of_nat (length keysFound) =? numToFetch)%Z then
          Ok (keysFound, valsFound)
        else DBGetPaginatedKeysAndValuesForPrefix_loop validForPrefix
               maxKeyLen numToFetch fetchValues it' keysFound valsFound
  end.

Definition DBGetPaginatedKeysAndValuesForPrefixWithTxn (dbTxn : Txn)
    (startPrefix validForPrefix : list byte) (maxKeyLen numToFetch : Z)
    (reverse fetchValues : bool)
    : result (list (list byte) * list (list byte)) :=
  if reverse && (maxKeyLen <? 0)%Z then Err (GoPanic "makeslice: len out of range")
  else
    let prefix :=
      if reverse then padded_prefix startPrefix (Z.to_nat maxKeyLen)
      else startPrefix in
    DBGetPaginatedKeysAndValuesForPrefix_loop validForPrefix maxKeyLen numToFetch
      fetchValues (Seek reverse (view dbTxn) prefix) [] [].

Definition DBGetPaginatedKeysAndValuesForPrefix (db : DB)
    (startPrefix validForPrefix : list byte) (keyLen numToFetch : Z)
    (reverse fetchValues : bool)
    : result (list (list byte) * list (list byte)) :=
  match View db (λ txn, DBGetPaginatedKeysAndValuesForPrefixWithTxn txn
                          startPrefix validForPrefix keyLen numToFetch
                          reverse fetchValues) with
  | Err e => Err (Wrapf e "DBGetPaginatedKeysAndValuesForPrefix: ")
  | Ok r => Ok r
  end.

End Functions.

(** ** A sample instance of the external functions

    Used to run the embedded code on concrete stores: base-128 varints as
    in Go's [encoding/binary], fixed-layout stand-ins for the gob codec,
    and a header that begins with its previous-block hash. *)
Module Sample.

Fixpoint put_uvarint (fuel : nat) (x : N) : list byte :=
  match fuel with
  | O => [byte_of_N x]
  | S fuel' =>
      if x <? 128 then [byte_of_N x]
      else byte_of_N (x mod 128 + 128) :: put_uvarint fuel' (x / 128)
  end.

Definition uint_to_buf (x : N) : list byte := put_uvarint 9 x.

(** Reads one varint; returns the value, the number of bytes read (not
    positive on failure) and the unread rest. *)
Fixpoint uvarint_loop (buf : list byte) (i : nat) (x s : N) : N * Z * list byte :=
  match buf with
  | [] => (0, 0%Z, [])
  | b :: buf' =>
      if (i =? 10)%nat then (0, (- Z.of_nat (i + 1))%Z, buf')
      else if Byte.to_N b <? 128 then
        if (i =? 9)%nat && (1 <? Byte.to_N b) then (0, (- Z.of_nat (i + 1))%Z, buf')
        else ((x + Byte.to_N b * 2 ^ s) mod 2 ^ 64, Z.of_nat (i + 1), buf')
      else uvarint_loop buf' (S i) (x + (Byte.to_N b mod 128) * 2 ^ s) (s + 7)
  end.

Definition uvarint (buf : list byte) : N * Z :=
  let '(x, n, _) := uvarint_loop buf 0 0 0 in (x, n).

Definition read_uvarint (rr : list byte) : result (N * list byte) :=
  let '(x, n, rest) := uvarint_loop rr 0 0 0 in
  if (n <=? 0)%Z then Err ErrUnexpectedEOF else Ok (x, rest).

(** Zig-zag decoding of a signed varint. *)
Definition read_varint (rr : list byte) : result (Z * list byte) :=
  match read_uvarint rr with
  | Err e => Err e
  | Ok (ux, rest) =>
      let x := Z.of_N (ux / 2) in
      Ok (if N.odd ux then (- x - 1)%Z else x, rest)
  end.

Definition encodeUtxoEntry (e : UtxoEntry) : list byte :=
  EncodeUint64 (AmountNanos e) ++ _EncodeUint32 (BlockHeight e)
    ++ [byte_of_N (UtxoType e)] ++ PublicKey e.

Definition decodeUtxoEntry (buf : list byte) : option UtxoEntry :=
  match DecodeUint64 buf, DecodeUint32 (drop 8 buf), drop 12 buf with
  | Some amount, Some height, ty :: pk =>
      Some (MkUtxoEntry amount pk height (Byte.to_N ty))
  | _, _, _ => None
  end.

Definition encodeDiamondEntry (e : DiamondEntry) : list byte :=
  bytes_of (SenderPKID e) ++ bytes_of (ReceiverPKID e)
    ++ bytes_of (DiamondPostHash e) ++ [byte_of_N (Z.to_N (DiamondLevel e))].

Definition decodeDiamondEntry (buf : list byte) : option DiamondEntry :=
  match drop 98 buf with
  | [level] =>
      Some (MkDiamondEntry (fit 33 buf) (fit 33 (drop 33 buf))
              (fit 32 (drop 66 buf)) (Z.of_N (Byte.to_N level)))
  | _ => None
  end.

Definition header_from_bytes (data : list byte) : result (BlockHash * list byte) :=
  if (32 <=? length data)%nat then Ok (fit 32 data, drop 32 data)
  else Err ErrUnexpectedEOF.

Definition hash_to_bigint (h : BlockHash) : N :=
  foldl (λ acc b, acc * 256 + Byte.to_N b) 0 (bytes_of h).

Definition externals : Externals := {|
  gobEncodeUtxoEntry := encodeUtxoEntry;
  gobDecodeUtxoEntry := decodeUtxoEntry;
  gobEncodeDiamondEntry := encodeDiamondEntry;
  gobDecodeDiamondEntry := decodeDiamondEntry;
  UintToBuf := uint_to_buf;
  Uvarint := uvarint;
  ReadUvarint := read_uvarint;
  ReadVarint := read_varint;
  MsgBitCloutHeader := BlockHash * list byte;
  PrevBlockHash := fst;
  Header_FromBytes := header_from_bytes;
  HashToBigint := hash_to_bigint;
  StatusBlockValidated := 32;
  StatusBitcoinHeaderValidated := 128
|}.

(** The stored bytes of a node with the given hash, height, previous hash
    and status (zero difficulty target and work, a header of 32 bytes). *)
Definition node_bytes (hash : BlockHash) (height : N) (prev : BlockHash) (status : N)
    : list byte :=
  bytes_of hash ++ uint_to_buf height ++ replicate 32 x00 ++ replicate 32 x00
    ++ uint_to_buf 64 ++ bytes_of prev ++ uint_to_buf status.

(** A PKID and a hash filled with one byte. *)
Definition pkid (b : byte) : PKID := fit 33 (replicate 33 b).
Definition hash (b : byte) : BlockHash := fit 32 (replicate 32 b).

Definition emptyDB : DB := MkDB ∅ 100.

End Sample.

(** ** Sample stores *)

Section samples.
#[local] Existing Instance Sample.externals.

Definition sample_utxoKey : UtxoKey := MkUtxoKey (Sample.hash x01) 0.
Definition sample_utxoEntry : UtxoEntry := MkUtxoEntry 100 (replicate 33 x02) 0 0.

Definition scan_db : DB :=
  MkDB (list_to_map [([x10; x01; x01], [x0a]); ([x10; x01; x02], [x0b]);
                     ([x10; xff; xff], [x0c]); ([x11; x00], [x0d]);
                     ([x10; xff; xff; x00], [x0e])]) 100.

Definition page_db : DB :=
  MkDB (list_to_map [([x10; x01; x01], [x0a]); ([x10; x01; x02], [x0b]);
                     ([x10; xff; xff], [x0c]); ([x11; x00], [x0d])]) 100.

Definition sample_pk : list byte := replicate 33 x07.
Definition sample_txIDs : list BlockHash :=
  [Sample.hash x0a; Sample.hash x0b; Sample.hash x0c].

(** The transaction after appending the three sample ids for the sample
    owner, on an empty store. *)
Definition appended_txn : Txn :=
  (forM_ sample_txIDs (DbPutTxindexPublicKeyToTxnMappingSingleWithTxn sample_pk)
     (NewTransaction Sample.emptyDB true)).1.

(** The node that the sample codec decodes from [Sample.node_bytes]. *)
Definition sample_node (hash : BlockHash) (height : N) (prev : BlockHash) : BlockNode :=
  MkBlockNode None hash height (fit 32 (replicate 32 x00)) 0 (prev, []) 32.

Definition sample_stored (hash : BlockHash) (height : N) (prev : BlockHash)
    : BlockNode * list byte :=
  (sample_node hash height prev, Sample.node_bytes hash height prev 32).

(** Heights 0, 1, 2 with distinct non-zero hashes. *)
Definition good_chain : list (BlockNode * list byte) :=
  [sample_stored (Sample.hash x02) 0 (Sample.hash x00);
   sample_stored (Sample.hash x01) 1 (Sample.hash x02);
   sample_stored (Sample.hash x03) 2 (Sample.hash x01)].

(** Heights 0 and 1, the node of height 0 having the all-zero hash. *)
Definition zero_hash_chain : list (BlockNode * list byte) :=
  [sample_stored (Sample.hash x00) 0 (Sample.hash x00);
   sample_stored (Sample.hash x01) 1 (Sample.hash x00)].

(** The good chain without its node of height 1. *)
Definition orphan_db : DB :=
  MkDB (list_to_map
          [(_heightHashToNodeIndexKey 0 (Sample.hash x02) false,
            Sample.node_bytes (Sample.hash x02) 0 (Sample.hash x00) 32);
           (_heightHashToNodeIndexKey 2 (Sample.hash x03) false,
            Sample.node_bytes (Sample.hash x03) 2 (Sample.hash x01) 32)]) 100.

End samples.

(** ** Histories of follow operations *)

(** A call of [DbPutFollowMappings] or of [DbDeleteFollowMappings]. *)
Inductive FollowOp : Type :=
  | FollowPut (followerPKID followedPKID : PKID)
  | FollowDelete (followerPKID followedPKID : PKID).

(** The handle after a call, whether the call succeeded or failed. *)
Definition run_FollowOp (db : DB) (op : FollowOp) : DB :=
  match op with
  | FollowPut a b => (DbPutFollowMappings db a b).1
  | FollowDelete a b => (DbDeleteFollowMappings db a b).1
  end.

Definition run_FollowOps (db : DB) (ops : list FollowOp) : DB :=
  foldl run_FollowOp db ops.

(** Forward and mirrored entries of every pair are present together. *)
Definition follow_paired (db : DB) : Prop :=
  ∀ a b : PKID,
    is_Some (contents db !! _dbKeyForFollowerToFollowedMapping a b)
    ↔ is_Some (contents db !! _dbKeyForFollowedToFollowerMapping b a).

(** ** Histories of UTXO operations *)





(** ** The transaction index of one owner *)

(** Every stored key with the owner's prefix is an entry key of the owner:
    the prefix followed by a four-byte index. *)
Definition txindex_wf (txn : Txn) (publicKey : list byte) : Prop :=
  ∀ k, is_Some (view txn !! k) →
       HasPrefix k (DbTxindexPublicKeyPrefix publicKey) = true →
       ∃ i, i < 2 ^ 32 ∧ k = DbTxindexPublicKeyIndexToTxnKey publicKey i.

(** The owner's list is [txIDs]: entry [i] holds the [i]-th id, and there
    is no entry at or beyond [length txIDs]. *)
Definition txindex_holds (txn : Txn) (publicKey : list byte) (txIDs : list BlockHash)
    : Prop :=
  ∀ i, i < 2 ^ 32 →
       view txn !! DbTxindexPublicKeyIndexToTxnKey publicKey i
       = bytes_of <$> (txIDs !! N.to_nat i).

(** The entries that store the list [txIDs] from index [start] on, in key
    order. *)
Fixpoint txindex_entries (publicKey : list byte) (start : nat) (txIDs : list BlockHash)
    : list (list byte * list byte) :=
  match txIDs with
  | [] => []
  | txID :: rest =>
      (DbTxindexPublicKeyIndexToTxnKey publicKey (N.of_nat start), bytes_of txID)
      :: txindex_entries publicKey (S start) rest
  end.

(** ** Stored chains of block nodes *)

Section chains.
Context `{Externals}.

(** A node carries one of the two validated status bits. *)
Definition validated (node : BlockNode) : Prop :=
  N.land (Status node) StatusBlockValidated ≠ 0
  ∨ N.land (Status node) StatusBitcoinHeaderValidated ≠ 0.

(** [chain] lists, by height from 0, the nodes of a stored chain with the
    bytes stored for each: the bytes decode to the node, the node at
    position [h] has height [h], every node is validated, and each node
    above the first declares the hash of the node below as its previous
    hash. *)
Definition chain_wf (chain : list (BlockNode * list byte)) : Prop :=
  N.of_nat (length chain) ≤ 2 ^ 32
  ∧ (∀ h node v, chain !! h = Some (node, v) →
       DeserializeBlockNode v = Ok node ∧ Height node = N.of_nat h ∧ validated node)
  ∧ (∀ h node v node' v',
       chain !! h = Some (node, v) → chain !! S h = Some (node', v') →
       PrevBlockHash (Header node') = Hash node).

(** The node table of the store holds exactly the nodes of [chain], each
    under the key made of its height and hash. *)
Definition block_index_holds (db : DB) (bitcoinNodes : bool)
    (chain : list (BlockNode * list byte)) : Prop :=
  ∀ key v,
    (contents db !! key = Some v
     ∧ HasPrefix key (_heightHashToNodeIndexPrefix bitcoinNodes) = true)
    ↔ ∃ h node, chain !! h = Some (node, v)
                ∧ key = _heightHashToNodeIndexKey (N.of_nat h) (Hash node) bitcoinNodes.

(** The heap that reconstruction builds from [chain]: node [h] at pointer
    [h], its parent pointer set to [h - 1]. *)
Definition linked (chain : list (BlockNode * list byte)) : list BlockNode :=
  imap (λ h nv, set_Parent (match h with O => None | S p => Some p end) nv.1) chain.

(** The items under which [chain] is stored, by height. *)
Definition chain_entries (bitcoinNodes : bool) (chain : list (BlockNode * list byte))
    : list (list byte * list byte) :=
  imap (λ h nv, (_heightHashToNodeIndexKey (N.of_nat h) (Hash nv.1) bitcoinNodes, nv.2))
    chain.

End chains.

(** * Further functions of [db_utils.go]

    The rest of this part embeds functions of the file that the statements
    above do not reach: the other tables built on the same store, the
    codecs of keys and block nodes, and the bulk operations. *)

(** ** Go slices and loops *)

(** [s[low:]]; the run-time panic when [low] exceeds [len(s)] is an error. *)
Definition slice_from (low : nat) (s : list byte) : result (list byte) :=
  if (low <=? length s)%nat then Ok (drop low s)
  else Err (GoPanic "slice bounds out of range").

(** A Go loop that appends [f x] for every [x] of [l] and returns at the
    first error. *)
Fixpoint mapM {A B} (f : A → result B) (l : list A) : result (list B) :=
  match l with
  | [] => Ok []
  | x :: l' =>
      match f x with
      | Err e => Err e
      | Ok y =>
          match mapM f l' with
          | Err e => Err e
          | Ok ys => Ok (y :: ys)
          end
      end
  end.

(** [gob.NewEncoder(buf).Encode(x)] followed by [buf.Bytes()], and
    [gob.NewDecoder(bytes.NewReader(b)).Decode(&x)] on a zero [x], for the
    entities that this file stores with gob; [None] is a decoding error. *)
Class Gob (A : Type) : Type := {
  gobEncode : A → list byte;
  gobDecode : list byte → option A
}.

(** A constant that another file of the repository declares. *)
Class Constants : Type := {
  InitialUSDCentsPerBitcoinExchangeRate : N
}.

(** ** More key prefixes *)

Definition _KeyBestBitCloutBlockHash : list byte := [x03].
Definition _KeyBestBitcoinHeaderHash : list byte := [x04].
Definition _KeyNanosPurchased : list byte := [x0a].
Definition _PrefixBitcoinBurnTxIDs : list byte := [x0b].
Definition _PrefixPublicKeyTimestampToPrivateMessage : list byte := [x0c].
Definition _PrefixPostHashToPostEntry : list byte := [x11].
Definition _PrefixTstampNanosPostHash : list byte := [x13].
Definition _PrefixCreatorBpsPostHash : list byte := [x14].
Definition _PrefixMultipleBpsPostHash : list byte := [x15].
Definition _PrefixCommentParentStakeIDToPostHash : list byte := [x16].
Definition _PrefixStakeIDTypeAmountStakeIDIndex : list byte := [x1a].
Definition _KeyUSDCentsPerBitcoinExchangeRate : list byte := [x1b].
Definition _PrefixLikerPubKeyToLikedPostHash : list byte := [x1e].
Definition _PrefixLikedPostHashToLikerPubKey : list byte := [x1f].
Definition _PrefixPosterPublicKeyTimestampPostHash : list byte := [x23].
Definition _PrefixPublicKeyToPKID : list byte := [x24].
Definition _PrefixPKIDToPublicKey : list byte := [x25].
Definition _PrefixMempoolTxnHashToMsgBitCloutTxn : list byte := [x26].
Definition _PrefixReclouterPubKeyRecloutedPostHashToRecloutPostHash : list byte := [x27].

(** ** Public keys and PKIDs *)

(** [PublicKeyToPKID]: nil ([None]) for an empty key; otherwise the key
    copied into a fresh [PKID]. *)
Definition PublicKeyToPKID (publicKey : list byte) : option PKID :=
  if (length publicKey =? 0)%nat then None
  else Some (fit 33 publicKey).

(** [PKIDEntry]: the [PKID] field is a [*PKID]. *)
Record PKIDEntry : Type := MkPKIDEntry {
  PKIDEntry_PKID : option PKID;
  PKIDEntry_PublicKey : list byte
}.

Section pkids.
Context `{Gob PKIDEntry}.

Definition DBGetPKIDEntryForPublicKeyWithTxn (txn : Txn) (publicKey : list byte)
    : option PKIDEntry :=
  if (length publicKey =? 0)%nat then None
  else
    let prefix := _PrefixPublicKeyToPKID in
    match txn_Get txn (prefix ++ publicKey) with
    | Err _ => Some (MkPKIDEntry (PublicKeyToPKID publicKey) publicKey)
    | Ok valBytes => gobDecode valBytes
    end.

Definition DBGetPublicKeyForPKIDWithTxn (txn : Txn) (pkidd : PKID) : list byte :=
  let prefix := _PrefixPKIDToPublicKey in
  match txn_Get txn (prefix ++ bytes_of pkidd) with
  | Err _ => bytes_of pkidd
  | Ok pkRet => pkRet
  end.

(** [pkidEntry.PKID[:]] dereferences the pointer: a nil [PKID] panics, in
    the error branch of the first write and before the second write. *)
Definition DBPutPKIDMappingsWithTxn (publicKey : list byte) (pkidEntry : PKIDEntry)
    : M unit :=
  λ txn,
    let pkidDataBuf := gobEncode pkidEntry in
    let pubKeyToPkidKey := _PrefixPublicKeyToPKID ++ publicKey in
    match txn_Set pubKeyToPkidKey pkidDataBuf txn, PKIDEntry_PKID pkidEntry with
    | (txn', _), None => (txn', Err (GoPanic "nil pointer dereference"))
    | (txn', Err e), Some _ =>
        (txn', Err (Wrapf e "DBPutPKIDMappingsWithTxn: Problem adding mapping for pkid"))
    | (txn', Ok _), Some pkid =>
        let pkidToPubKey := _PrefixPKIDToPublicKey ++ bytes_of pkid in
        wrapf (txn_Set pkidToPubKey publicKey)
          "DBPutPKIDMappingsWithTxn: Problem adding mapping for pkid" txn'
    end.

(** The entry is looked up first; when the lookup gives nil (an empty
    public key, or stored bytes that do not decode), [pkidEntry.PKID]
    panics after the first delete. *)
Definition DBDeletePKIDMappingsWithTxn (publicKey : list byte) : M unit :=
  λ txn,
    let pkidEntry := DBGetPKIDEntryForPublicKeyWithTxn txn publicKey in
    let pubKeyToPkidKey := _PrefixPublicKeyToPKID ++ publicKey in
    match wrapf (txn_Delete pubKeyToPkidKey)
            "DBDeletePKIDMappingsWithTxn: Problem deleting mapping for public key" txn with
    | (txn', Err e) => (txn', Err e)
    | (txn', Ok _) =>
        match pkidEntry with
        | None => (txn', Err (GoPanic "nil pointer dereference"))
        | Some pkidEntry =>
            match PKIDEntry_PKID pkidEntry with
            | None => (txn', Err (GoPanic "nil pointer dereference"))
            | Some pkid =>
                wrapf (txn_Delete (_PrefixPKIDToPublicKey ++ bytes_of pkid))
                  "DBDeletePKIDMappingsWithTxn: Problem deleting mapping for pkid" txn'
            end
        end
    end.

End pkids.

(** ** Enumerating keys through a handle *)

(** On an error the wrapper logs and returns [nil, nil] (two empty lists). *)
Definition _enumerateKeysForPrefix (db : DB) (dbPrefix : list byte)
    : list (list byte) * list (list byte) :=
  match View db (λ txn, _enumerateKeysForPrefixWithTxn txn dbPrefix) with
  | Ok (keysFound, valsFound) => (keysFound, valsFound)
  | Err _ => ([], [])
  end.

Definition EnumerateKeysForPrefix (db : DB) (dbPrefix : list byte)
    : list (list byte) * list (list byte) :=
  _enumerateKeysForPrefix db dbPrefix.

(** ** Private messages: [<prefix, public key, tstamp> -> MessageEntry],
    one entry for the sender and one for the recipient *)

(** [MessageEntry], with the fields that are stored. *)
Record MessageEntry : Type := MkMessageEntry {
  SenderPublicKey : list byte;
  RecipientPublicKey : list byte;
  EncryptedText : list byte;
  TstampNanos : N
}.

Definition _dbKeyForMessageEntry (publicKey : list byte) (tstampNanos : N) : list byte :=
  (_PrefixPublicKeyTimestampToPrivateMessage ++ publicKey) ++ EncodeUint64 tstampNanos.

Section messages.
Context `{Gob MessageEntry}.

Definition DbPutMessageEntryWithTxn (messageEntry : MessageEntry) : M unit :=
  if negb (length (SenderPublicKey messageEntry) =? PubKeyBytesLenCompressed)%nat then
    fail (Errorf "DbPutPrivateMessageWithTxn: Sender public key length")
  else if negb (length (RecipientPublicKey messageEntry) =? PubKeyBytesLenCompressed)%nat then
    fail (Errorf "DbPutPrivateMessageWithTxn: Recipient public key length")
  else
    let messageData :=
      MkMessageEntry (SenderPublicKey messageEntry) (RecipientPublicKey messageEntry)
        (EncryptedText messageEntry) (TstampNanos messageEntry) in
    let messageDataBuf := gobEncode messageData in
    wrapf (txn_Set (_dbKeyForMessageEntry (SenderPublicKey messageEntry)
                      (TstampNanos messageEntry)) messageDataBuf)
      "DbPutMessageEntryWithTxn: Problem adding mapping for sender: "
    >>> wrapf (txn_Set (_dbKeyForMessageEntry (RecipientPublicKey messageEntry)
                          (TstampNanos messageEntry)) messageDataBuf)
      "DbPutMessageEntryWithTxn: Problem adding mapping for recipient: ".

Definition DbGetMessageEntryWithTxn (txn : Txn) (publicKey : list byte) (tstampNanos : N)
    : option MessageEntry :=
  let key := _dbKeyForMessageEntry publicKey tstampNanos in
  match txn_Get txn key with
  | Err _ => None
  | Ok valBytes => gobDecode valBytes
  end.

Definition DbDeleteMessageEntryMappingsWithTxn (publicKey : list byte) (tstampNanos : N)
    : M unit :=
  λ txn,
    match DbGetMessageEntryWithTxn txn publicKey tstampNanos with
    | None => (txn, Ok tt)
    | Some existingMessage =>
        (wrapf (txn_Delete (_dbKeyForMessageEntry
                              (SenderPublicKey existingMessage) tstampNanos))
           "DbDeleteMessageEntryMappingsWithTxn: Deleting sender mapping failed"
         >>> wrapf (txn_Delete (_dbKeyForMessageEntry
                                  (RecipientPublicKey existingMessage) tstampNanos))
           "DbDeleteMessageEntryMappingsWithTxn: Deleting recipient mapping failed")
          txn
    end.

End messages.

(** ** Likes: [<prefix, user public key, post hash> -> <>] and its mirror *)

Definition _dbKeyForLikerPubKeyToLikedPostHashMapping (userPubKey : list byte)
    (likedPostHash : BlockHash) : list byte :=
  (_PrefixLikerPubKeyToLikedPostHash ++ userPubKey) ++ bytes_of likedPostHash.

Definition _dbKeyForLikedPostHashToLikerPubKeyMapping (likedPostHash : BlockHash)
    (userPubKey : list byte) : list byte :=
  (_PrefixLikedPostHashToLikerPubKey ++ bytes_of likedPostHash) ++ userPubKey.

Definition _dbSeekPrefixForPostHashesYouLike (yourPubKey : list byte) : list byte :=
  _PrefixLikerPubKeyToLikedPostHash ++ yourPubKey.

Definition _dbSeekPrefixForLikerPubKeysLikingAPostHash (likedPostHash : BlockHash)
    : list byte :=
  _PrefixLikedPostHashToLikerPubKey ++ bytes_of likedPostHash.

Definition DbPutLikeMappingsWithTxn (userPubKey : list byte) (likedPostHash : BlockHash)
    : M unit :=
  if negb (length userPubKey =? PubKeyBytesLenCompressed)%nat then
    fail (Errorf "DbPutLikeMappingsWithTxn: User public key length")
  else
    wrapf (txn_Set (_dbKeyForLikerPubKeyToLikedPostHashMapping userPubKey likedPostHash) [])
      "DbPutLikeMappingsWithTxn: Problem adding user to liked post mapping: "
    >>> wrapf (txn_Set (_dbKeyForLikedPostHashToLikerPubKeyMapping likedPostHash userPubKey) [])
      "DbPutLikeMappingsWithTxn: Problem adding liked post to user mapping: ".

Definition DbPutLikeMappings (handle : DB) (userPubKey : list byte)
    (likedPostHash : BlockHash) : DB * option Error :=
  Update handle (DbPutLikeMappingsWithTxn userPubKey likedPostHash).

Definition DbGetLikerPubKeyToLikedPostHashMappingWithTxn (txn : Txn)
    (userPubKey : list byte) (likedPostHash : BlockHash) : option (list byte) :=
  let key := _dbKeyForLikerPubKeyToLikedPostHashMapping userPubKey likedPostHash in
  match txn_Get txn key with
  | Err _ => None
  | Ok _ => Some []
  end.

Definition DbGetLikerPubKeyToLikedPostHashMapping (db : DB) (userPubKey : list byte)
    (likedPostHash : BlockHash) : option (list byte) :=
  View db (λ txn, DbGetLikerPubKeyToLikedPostHashMappingWithTxn txn
                    userPubKey likedPostHash).

(** The key without its first byte and the user's key is copied into a
    fresh hash. *)
Definition DbGetPostHashesYouLike (handle : DB) (yourPublicKey : list byte)
    : result (list BlockHash) :=
  let prefix := _dbSeekPrefixForPostHashesYouLike yourPublicKey in
  let '(keysFound, _) := _enumerateKeysForPrefix handle prefix in
  mapM (λ keyBytes,
          match slice_from (1 + PubKeyBytesLenCompressed) keyBytes with
          | Err e => Err e
          | Ok rest => Ok (fit 32 rest)
          end) keysFound.

Definition DbGetLikerPubKeysLikingAPostHash (handle : DB) (likedPostHash : BlockHash)
    : result (list (list byte)) :=
  let prefix := _dbSeekPrefixForLikerPubKeysLikingAPostHash likedPostHash in
  let '(keysFound, _) := _enumerateKeysForPrefix handle prefix in
  mapM (λ keyBytes, slice_from (1 + HashSizeBytes) keyBytes) keysFound.

(** ** Follows: the two listings *)

Definition _dbSeekPrefixForPKIDsYouFollow (yourPKID : PKID) : list byte :=
  _PrefixFollowerPKIDToFollowedPKID ++ bytes_of yourPKID.

Definition _dbSeekPrefixForPKIDsFollowingYou (yourPKID : PKID) : list byte :=
  _PrefixFollowedPKIDToFollowerPKID ++ bytes_of yourPKID.

Definition DbGetPKIDsYouFollow (handle : DB) (yourPKID : PKID) : result (list PKID) :=
  let prefix := _dbSeekPrefixForPKIDsYouFollow yourPKID in
  let '(keysFound, _) := _enumerateKeysForPrefix handle prefix in
  mapM (λ keyBytes,
          match slice_from (1 + PubKeyBytesLenCompressed) keyBytes with
          | Err e => Err e
          | Ok followedPKIDBytes => Ok (fit 33 followedPKIDBytes)
          end) keysFound.

Definition DbGetPKIDsFollowingYou (handle : DB) (yourPKID : PKID) : result (list PKID) :=
  let prefix := _dbSeekPrefixForPKIDsFollowingYou yourPKID in
  let '(keysFound, _) := _enumerateKeysForPrefix handle prefix in
  mapM (λ keyBytes,
          match slice_from (1 + PubKeyBytesLenCompressed) keyBytes with
          | Err e => Err e
          | Ok followerPKIDBytes => Ok (fit 33 followerPKIDBytes)
          end) keysFound.

(** ** Bitcoin burn transaction ids: [<prefix, txid> -> <>] *)

Definition _keyForBitcoinBurnTxID (bitcoinBurnTxID : BlockHash) : list byte :=
  _PrefixBitcoinBurnTxIDs ++ bytes_of bitcoinBurnTxID.

Definition DbPutBitcoinBurnTxIDWithTxn (bitcoinBurnTxID : BlockHash) : M unit :=
  txn_Set (_keyForBitcoinBurnTxID bitcoinBurnTxID) [].

Definition DbExistsBitcoinBurnTxIDWithTxn (txn : Txn) (bitcoinBurnTxID : BlockHash)
    : bool :=
  match txn_Get txn (_keyForBitcoinBurnTxID bitcoinBurnTxID) with
  | Err _ => false
  | Ok _ => true
  end.

Definition DbExistsBitcoinBurnTxID (db : DB) (bitcoinBurnTxID : BlockHash) : bool :=
  View db (λ txn, DbExistsBitcoinBurnTxIDWithTxn txn bitcoinBurnTxID).

Definition DbDeleteBitcoinBurnTxIDWithTxn (bitcoinBurnTxID : BlockHash) : M unit :=
  txn_Delete (_keyForBitcoinBurnTxID bitcoinBurnTxID).

(** [key[1:]] cannot panic here: a key with the prefix has at least one
    byte. *)
Definition DbGetAllBitcoinBurnTxIDs (handle : DB) : list BlockHash :=
  let '(keysFound, _) := _enumerateKeysForPrefix handle _PrefixBitcoinBurnTxIDs in
  map (λ key, fit 32 (drop 1 key)) keysFound.

(** ** Single hashes and counters *)

(** [bhItem.ValueCopy(ret[:])]: badger copies the value into the 32 bytes
    of [ret] when it fits (the bytes beyond the value stay zero) and into
    a fresh slice otherwise, leaving [ret] zero. *)
Definition _getBlockHashForPrefixWithTxn (txn : Txn) (prefix : list byte)
    : option BlockHash :=
  match txn_Get txn prefix with
  | Err _ => None
  | Ok val => Some (if (length val <=? HashSizeBytes)%nat then fit 32 val
                    else BlockHash_zero)
  end.

Definition _getBlockHashForPrefix (handle : DB) (prefix : list byte) : option BlockHash :=
  View handle (λ txn, _getBlockHashForPrefixWithTxn txn prefix).

Definition DbPutNanosPurchasedWithTxn (nanosPurchased : N) : M unit :=
  txn_Set _KeyNanosPurchased (EncodeUint64 nanosPurchased).

Definition DbPutNanosPurchased (handle : DB) (nanosPurchased : N) : DB * option Error :=
  Update handle (DbPutNanosPurchasedWithTxn nanosPurchased).

(** [None] stands for the panic of [DecodeUint64] on a short value. *)
Definition DbGetNanosPurchasedWithTxn (txn : Txn) : option N :=
  match txn_Get txn _KeyNanosPurchased with
  | Err _ => Some 0
  | Ok nanosPurchasedBuf => DecodeUint64 nanosPurchasedBuf
  end.

Definition DbGetNanosPurchased (handle : DB) : option N :=
  View handle DbGetNanosPurchasedWithTxn.

Definition DbGetUSDCentsPerBitcoinExchangeRateWithTxn `{Constants} (txn : Txn)
    : option N :=
  match txn_Get txn _KeyUSDCentsPerBitcoinExchangeRate with
  | Err _ => Some InitialUSDCentsPerBitcoinExchangeRate
  | Ok usdCentsPerBitcoinExchangeRateBuf => DecodeUint64 usdCentsPerBitcoinExchangeRateBuf
  end.

Definition DbGetUSDCentsPerBitcoinExchangeRate `{Constants} (handle : DB) : option N :=
  View handle DbGetUSDCentsPerBitcoinExchangeRateWithTxn.

(** ** The best hash of each chain *)

(** [ChainType] is a [uint8]. *)
Definition ChainTypeBitCloutBlock : N := 0.
Definition ChainTypeBitcoinHeader : N := 1.

(** Returns nil (the empty list) for an unknown chain type. *)
Definition _prefixForChainType (chainType : N) : list byte :=
  if chainType =? ChainTypeBitCloutBlock then _KeyBestBitCloutBlockHash
  else if chainType =? ChainTypeBitcoinHeader then _KeyBestBitcoinHeaderHash
  else [].

Definition DbGetBestHash (handle : DB) (chainType : N) : option BlockHash :=
  let prefix := _prefixForChainType chainType in
  if (length prefix =? 0)%nat then None
  else _getBlockHashForPrefix handle prefix.

Definition PutBestHashWithTxn (bh : BlockHash) (chainType : N) : M unit :=
  let prefix := _prefixForChainType chainType in
  if (length prefix =? 0)%nat then ret tt
  else txn_Set prefix (bytes_of bh).

Definition PutBestHash (bh : BlockHash) (handle : DB) (chainType : N)
    : DB * option Error :=
  Update handle (PutBestHashWithTxn bh chainType).

(** ** The UTXO table: reading keys back *)

(** The inverse of [_SerializeUtxoKey].  [None] stands for the run-time
    panic on a slice of fewer than 36 bytes. *)
Definition _UtxoKeyFromDbKey (utxoDbKey : list byte) : option UtxoKey :=
  if (length utxoDbKey <? HashSizeBytes)%nat then None
  else
    let txIDBytes := take HashSizeBytes utxoDbKey in
    let txID := fit 32 txIDBytes in
    let indexBytes := drop HashSizeBytes utxoDbKey in
    match DecodeUint32 indexBytes with
    | None => None
    | Some indexValue => Some (MkUtxoKey txID indexValue)
    end.

(** The key that an entry of an owner's index stands for (the arbitrary
    key when the entry does not parse). *)
Definition parse_owner_key (prefix : list byte) (kv : list byte * list byte) : UtxoKey :=
  default (MkUtxoKey BlockHash_zero 0) (_UtxoKeyFromDbKey (drop (length prefix) kv.1)).

Section utxo_listing.
Context `{Externals}.

Definition DbGetUtxoEntryForUtxoKey (handle : DB) (utxoKey : UtxoKey) : option UtxoEntry :=
  View handle (λ txn, DbGetUtxoEntryForUtxoKeyWithTxn txn utxoKey).

(** The first loop of [DbGetUtxosForPubKey]: the keys of the owner's
    index entries, parsed. *)
Fixpoint DbGetUtxosForPubKey_keys (prefix : list byte)
    (it : list (list byte * list byte)) (utxoKeysFound : list UtxoKey)
    : result (list UtxoKey) :=
  match it with
  | [] => Ok utxoKeysFound
  | (pkUtxoKey, _) :: it' =>
      if negb (HasPrefix pkUtxoKey prefix) then Ok utxoKeysFound else
      let utxoKeyBytes := drop (length prefix) pkUtxoKey in
      if negb (length utxoKeyBytes =? HashSizeBytes + 4)%nat then
        Err (Errorf "Problem reading <pk, utxoKey> mapping; key size")
      else
        match _UtxoKeyFromDbKey utxoKeyBytes with
        | None => Err (GoPanic "index out of range")
        | Some utxoKey => DbGetUtxosForPubKey_keys prefix it' (utxoKeysFound ++ [utxoKey])
        end
  end.

(** The second loop: the entry of each key, with the key that its
    [UtxoKey] field is set to. *)
Fixpoint DbGetUtxosForPubKey_entries (txn : Txn) (utxoKeysFound : list UtxoKey)
    (utxoEntriesFound : list (UtxoEntry * UtxoKey))
    : result (list (UtxoEntry * UtxoKey)) :=
  match utxoKeysFound with
  | [] => Ok utxoEntriesFound
  | foundUtxoKey :: rest =>
      match DbGetUtxoEntryForUtxoKeyWithTxn txn foundUtxoKey with
      | None => Err (Errorf "UtxoEntry for UtxoKey was not found")
      | Some utxoEntry =>
          DbGetUtxosForPubKey_entries txn rest
            (utxoEntriesFound ++ [(utxoEntry, foundUtxoKey)])
      end
  end.

Definition DbGetUtxosForPubKey (publicKey : list byte) (handle : DB)
    : result (list (UtxoEntry * UtxoKey)) :=
  if negb (length publicKey =? PubKeyBytesLenCompressed)%nat then
    Err (Errorf "DbGetUtxosForPubKey: Public key has improper length")
  else
    match View handle (λ txn,
            let prefix := _PrefixPubKeyUtxoKey ++ publicKey in
            match DbGetUtxosForPubKey_keys prefix (Seek false (view txn) prefix) [] with
            | Err e => Err e
            | Ok utxoKeysFound => DbGetUtxosForPubKey_entries txn utxoKeysFound []
            end) with
    | Err e => Err (Wrapf e "DbGetUtxosForPubKey: ")
    | Ok utxoEntriesFound => Ok utxoEntriesFound
    end.

End utxo_listing.

(** ** Block nodes: writing *)

(** What [SerializeBlockNode] calls besides the functions above. *)
Class NodeEncoders `{Externals} : Type := {
  BigintToHash : N → BlockHash;
  (** [header.ToBytes(false)] *)
  Header_ToBytes : MsgBitCloutHeader → result (list byte);
  IntToBuf : Z → list byte
}.

Section nodes.
Context `{NodeEncoders}.

(** [Hash], [DifficultyTarget], [CumWork] and [Header] are pointers in
    Go; a [BlockNode] here holds what they point to, so the two nil
    checks of the source do not arise. *)
Definition SerializeBlockNode (blockNode : BlockNode) : result (list byte) :=
  let data := [] in
  let data := data ++ bytes_of (Hash blockNode) in
  let data := data ++ UintToBuf (Height blockNode) in
  let data := data ++ bytes_of (DifficultyTarget blockNode) in
  let data := data ++ bytes_of (BigintToHash (CumWork blockNode)) in
  match Header_ToBytes (Header blockNode) with
  | Err e => Err (Wrapf e "SerializeBlockNode: Problem serializing header")
  | Ok serializedHeader =>
      let data := data ++ IntToBuf (Z.of_nat (length serializedHeader)) in
      let data := data ++ serializedHeader in
      let data := data ++ UintToBuf (Status blockNode) in
      Ok data
  end.

Definition GetHeightHashToNodeInfoWithTxn (txn : Txn) (height : N) (hash : BlockHash)
    (bitcoinNodes : bool) : option BlockNode :=
  let key := _heightHashToNodeIndexKey height hash bitcoinNodes in
  match txn_Get txn key with
  | Err _ => None
  | Ok nodeBytes =>
      match DeserializeBlockNode nodeBytes with
      | Err _ => None
      | Ok blockNode => Some blockNode
      end
  end.

Definition GetHeightHashToNodeInfo (handle : DB) (height : N) (hash : BlockHash)
    (bitcoinNodes : bool) : option BlockNode :=
  View handle (λ txn, GetHeightHashToNodeInfoWithTxn txn height hash bitcoinNodes).

Definition PutHeightHashToNodeInfoWithTxn (node : BlockNode) (bitcoinNodes : bool)
    : M unit :=
  λ txn,
    let key := _heightHashToNodeIndexKey (Height node) (Hash node) bitcoinNodes in
    match SerializeBlockNode node with
    | Err e => (txn, Err (Wrapf e "PutHeightHashToNodeInfoWithTxn: Problem serializing node"))
    | Ok serializedNode => txn_Set key serializedNode txn
    end.

Definition PutHeightHashToNodeInfo (node : BlockNode) (handle : DB) (bitcoinNodes : bool)
    : DB * option Error :=
  Update handle (PutHeightHashToNodeInfoWithTxn node bitcoinNodes).

Definition DbDeleteHeightHashToNodeInfoWithTxn (node : BlockNode) (bitcoinNodes : bool)
    : M unit :=
  txn_Delete (_heightHashToNodeIndexKey (Height node) (Hash node) bitcoinNodes).

Definition DbBulkDeleteHeightHashToNodeInfo (nodes : list BlockNode) (handle : DB)
    (bitcoinNodes : bool) : DB * option Error :=
  Update handle
    (forM_ nodes (λ nn, DbDeleteHeightHashToNodeInfoWithTxn nn bitcoinNodes)).

(** The codecs read back what [SerializeBlockNode] writes for this node:
    the two varints whatever follows them, the work as a hash, and the
    header from its bytes. *)
Definition encodes_back (node : BlockNode) : Prop :=
  Height node < 2 ^ 32
  ∧ Status node < 2 ^ 32
  ∧ (∀ rest, ReadUvarint (UintToBuf (Height node) ++ rest) = Ok (Height node, rest))
  ∧ (∀ rest, ReadUvarint (UintToBuf (Status node) ++ rest) = Ok (Status node, rest))
  ∧ HashToBigint (BigintToHash (CumWork node)) = CumWork node
  ∧ ∃ serializedHeader,
      Header_ToBytes (Header node) = Ok serializedHeader
      ∧ Header_FromBytes serializedHeader = Ok (Header node)
      ∧ ∀ rest, ReadVarint (IntToBuf (Z.of_nat (length serializedHeader)) ++ rest)
                = Ok (Z.of_nat (length serializedHeader), rest).

End nodes.

(** ** Paths of parent pointers *)

Section ancestry_paths.
Context `{Externals}.

(** [path] lists the pointers met when following [Parent] from [tip]
    until nil. *)
Inductive ancestry (heap : list BlockNode) : option nat → list nat → Prop :=
  | ancestry_nil : ancestry heap None []
  | ancestry_cons tip node path :
      heap !! tip = Some node →
      ancestry heap (Parent node) path →
      ancestry heap (Some tip) (tip :: path).

(** The test of [GetBestChain] on the node behind a pointer. *)
Definition is_validated (heap : list BlockNode) (p : nat) : bool :=
  match heap !! p with
  | Some node =>
      negb ((N.land (Status node) StatusBlockValidated =? 0)
            && (N.land (Status node) StatusBitcoinHeaderValidated =? 0))
  | None => false
  end.

End ancestry_paths.

(** ** Stake ids *)

(** [copy(dst, src)]: the bytes of [src] that fit, over the start of [dst]. *)
Definition copy_into (dst src : list byte) : list byte :=
  take (length dst) src ++ drop (length src) dst.

Definition HashToStakeID (hash : BlockHash) : list byte :=
  let stakeID := replicate PubKeyBytesLenCompressed x00 in
  let stakeID := copy_into stakeID (bytes_of hash) in
  <[(PubKeyBytesLenCompressed - 1)%nat := x00]> stakeID.

(** [None]: the slice is shorter than a hash; [stakeID[:HashSizeBytes]]
    then panics, or reaches into the backing array beyond the slice when
    its capacity allows. *)
Definition StakeIDToHash (stakeID : list byte) : option BlockHash :=
  if (length stakeID <? HashSizeBytes)%nat then None
  else Some (fit 32 (take HashSizeBytes stakeID)).

(** ** Stored mempool transactions: [<prefix, time added, txn hash> -> txn] *)

Definition DbDeleteMempoolTxnKeyWithTxn (txnKey : list byte) : M unit :=
  wrapf (txn_Delete txnKey)
    "DbDeleteMempoolTxMappingWithTxn: Deleting mempool tx key failed.".

Definition DbDeleteAllMempoolTxnsWithTxn : M unit :=
  λ txn,
    match _enumerateKeysForPrefixWithTxn txn _PrefixMempoolTxnHashToMsgBitCloutTxn with
    | Err e => (txn, Err (Wrapf e "DbDeleteAllMempoolTxnsWithTxn: "))
    | Ok (txnKeysFound, _) =>
        forM_ txnKeysFound
          (λ txnKey, wrapf (DbDeleteMempoolTxnKeyWithTxn txnKey)
                       "DbDeleteAllMempoolTxMappings: Deleting mempool txnKey failed.")
          txn
    end.

(** The result of [handle.Update] is dropped: the function returns nil
    whatever happened. *)
Definition DbDeleteAllMempoolTxns (handle : DB) : DB * option Error :=
  ((Update handle DbDeleteAllMempoolTxnsWithTxn).1, None).

(** ** Posts and their indexes *)

(** What the post functions take from other files: the stake entry of a
    post with its total ([GetStakeEntryStats(..).TotalStakeNanos], a
    [uint64]), the tag [byte(StakeIDTypePost)], and the test
    [IsVanillaReclout], given here the fields it can depend on. *)
Class PostExternals : Type := {
  StakeEntry : Type;
  TotalStakeNanos : StakeEntry → N;
  StakeIDTypePost : byte
}.

Section posts.
Context `{PostExternals}.

(** [PostEntry], with the fields this file reads.  [PostHash] is a
    pointer that the code dereferences without a check; the record holds
    the hash.  [RecloutedPostHash] is a pointer that may be nil. *)
Record PostEntry : Type := MkPostEntry {
  PostHash : BlockHash;
  PosterPublicKey : list byte;
  ParentStakeID : list byte;
  TimestampNanos : N;
  CreatorBasisPoints : N;
  StakeMultipleBasisPoints : N;
  PostStakeEntry : StakeEntry;
  RecloutedPostHash : option BlockHash
}.

(** [RecloutEntry], as [DBPutPostEntryMappingsWithTxn] fills it. *)
Record RecloutEntry : Type := MkRecloutEntry {
  ReclouterPubKey : list byte;
  RecloutPostHash : BlockHash;
  RecloutEntry_RecloutedPostHash : option BlockHash
}.

Definition _dbKeyForReclouterPubKeyRecloutedPostHashToRecloutPostHash
    (userPubKey : list byte) (recloutedPostHash : BlockHash) : list byte :=
  (_PrefixReclouterPubKeyRecloutedPostHashToRecloutPostHash ++ userPubKey)
    ++ bytes_of recloutedPostHash.

Definition _dbKeyForPostEntryHash (postHash : BlockHash) : list byte :=
  _PrefixPostHashToPostEntry ++ bytes_of postHash.

Definition _dbKeyForPosterPublicKeyTimestampPostHash (publicKey : list byte)
    (timestampNanos : N) (postHash : BlockHash) : list byte :=
  ((_PrefixPosterPublicKeyTimestampPostHash ++ publicKey)
     ++ EncodeUint64 timestampNanos) ++ bytes_of postHash.

Definition _dbKeyForTstampPostHash (tstampNanos : N) (postHash : BlockHash) : list byte :=
  (_PrefixTstampNanosPostHash ++ EncodeUint64 tstampNanos) ++ bytes_of postHash.

Definition _dbKeyForCreatorBpsPostHash (creatorBps : N) (postHash : BlockHash)
    : list byte :=
  (_PrefixCreatorBpsPostHash ++ EncodeUint64 creatorBps) ++ bytes_of postHash.

Definition _dbKeyForStakeMultipleBpsPostHash (stakeMultipleBps : N) (postHash : BlockHash)
    : list byte :=
  (_PrefixMultipleBpsPostHash ++ EncodeUint64 stakeMultipleBps) ++ bytes_of postHash.

Definition _dbKeyForCommentParentStakeIDToPostHash (stakeID : list byte)
    (tstampNanos : N) (postHash : BlockHash) : list byte :=
  ((_PrefixCommentParentStakeIDToPostHash ++ stakeID)
     ++ EncodeUint64 tstampNanos) ++ bytes_of postHash.

Definition _dbGetStakeIDPostDBKey (postHash : BlockHash) (totalAmountStakedNanos : N)
    : list byte :=
  ((_PrefixStakeIDTypeAmountStakeIDIndex ++ [StakeIDTypePost])
     ++ EncodeUint64 totalAmountStakedNanos) ++ bytes_of postHash.

Context `{Gob PostEntry} `{Gob RecloutEntry} (IsVanillaReclout : PostEntry → bool).

Definition DBGetPostEntryByPostHashWithTxn (txn : Txn) (postHash : BlockHash)
    : option PostEntry :=
  let key := _dbKeyForPostEntryHash postHash in
  match txn_Get txn key with
  | Err _ => None
  | Ok valBytes => gobDecode valBytes
  end.

(** [*postEntry.RecloutedPostHash] panics on a nil pointer. *)
Definition reclout_key (postEntry : PostEntry) : result (list byte) :=
  match RecloutedPostHash postEntry with
  | None => Err (GoPanic "nil pointer dereference")
  | Some recloutedPostHash =>
      Ok (_dbKeyForReclouterPubKeyRecloutedPostHashToRecloutPostHash
            (PosterPublicKey postEntry) recloutedPostHash)
  end.

Definition DBDeletePostEntryMappingsWithTxn (postHash : BlockHash) : M unit :=
  λ txn,
    match DBGetPostEntryByPostHashWithTxn txn postHash with
    | None => (txn, Ok tt)
    | Some postEntry =>
        (wrapf (txn_Delete (_dbKeyForPostEntryHash postHash))
           "DbDeletePostEntryMappingsWithTxn: Deleting post mapping for post hash"
         >>>
         let isComment := (length (ParentStakeID postEntry) =? HashSizeBytes)%nat in
         if isComment then
           let extendedStakeID := ParentStakeID postEntry ++ [x00] in
           let parentStakeIDKey :=
             _dbKeyForCommentParentStakeIDToPostHash extendedStakeID
               (TimestampNanos postEntry) (PostHash postEntry) in
           wrapf (txn_Delete parentStakeIDKey)
             "DbDeletePostEntryMappingsWithTxn: Problem deleting mapping for comment"
         else
           wrapf (txn_Delete (_dbKeyForPosterPublicKeyTimestampPostHash
                                (PosterPublicKey postEntry) (TimestampNanos postEntry)
                                (PostHash postEntry)))
             "DbDeletePostEntryMappingsWithTxn: Deleting public key mapping for post hash"
           >>> wrapf (txn_Delete (_dbKeyForTstampPostHash
                                    (TimestampNanos postEntry) (PostHash postEntry)))
             "DbDeletePostEntryMappingsWithTxn: Deleting tstamp mapping for post hash"
           >>> wrapf (txn_Delete (_dbKeyForCreatorBpsPostHash
                                    (CreatorBasisPoints postEntry) (PostHash postEntry)))
             "DbDeletePostEntryMappingsWithTxn: Deleting creatorBps mapping for post hash"
           >>> wrapf (txn_Delete (_dbKeyForStakeMultipleBpsPostHash
                                    (StakeMultipleBasisPoints postEntry)
                                    (PostHash postEntry)))
             "DbDeletePostEntryMappingsWithTxn: Deleting stakeMultiple mapping for post hash"
           >>> wrapf (txn_Delete (_dbGetStakeIDPostDBKey (PostHash postEntry)
                                    (TotalStakeNanos (PostStakeEntry postEntry))))
             "DbDeletePostEntryMappingsWithTxn: Deleting StakeAmountNanos mapping for post hash"
           >>>
           if IsVanillaReclout postEntry then
             match reclout_key postEntry with
             | Err e => fail e
             | Ok key =>
                 wrapf (txn_Delete key)
                   "DbDeletePostEntryMappingsWithTxn: Error problem deleting mapping for recloutPostHash to ReclouterPubKey"
             end
           else ret tt)
          txn
    end.

Definition DBPutPostEntryMappingsWithTxn (postEntry : PostEntry) : M unit :=
  let postDataBuf := gobEncode postEntry in
  wrapf (txn_Set (_dbKeyForPostEntryHash (PostHash postEntry)) postDataBuf)
    "DbPutPostEntryMappingsWithTxn: Problem adding mapping for post"
  >>>
  (let isComment := negb (length (ParentStakeID postEntry) =? 0)%nat in
   if isComment then
     let extendedStakeID := ParentStakeID postEntry in
     let extendedStakeID :=
       if (length extendedStakeID =? HashSizeBytes)%nat then extendedStakeID ++ [x00]
       else extendedStakeID in
     if negb (length extendedStakeID =? PubKeyBytesLenCompressed)%nat then
       fail (Errorf "DbPutPostEntryMappingsWithTxn: extended ParentStakeID must have length")
     else
       let parentStakeIDKey :=
         _dbKeyForCommentParentStakeIDToPostHash extendedStakeID
           (TimestampNanos postEntry) (PostHash postEntry) in
       wrapf (txn_Set parentStakeIDKey [])
         "DbPutPostEntryMappingsWithTxn: Problem adding mapping for comment"
   else
     wrapf (txn_Set (_dbKeyForPosterPublicKeyTimestampPostHash
                       (PosterPublicKey postEntry) (TimestampNanos postEntry)
                       (PostHash postEntry)) [])
       "DbPutPostEntryMappingsWithTxn: Problem adding mapping for public key"
     >>> wrapf (txn_Set (_dbKeyForTstampPostHash
                           (TimestampNanos postEntry) (PostHash postEntry)) [])
       "DbPutPostEntryMappingsWithTxn: Problem adding mapping for tstamp"
     >>> wrapf (txn_Set (_dbKeyForCreatorBpsPostHash
                           (CreatorBasisPoints postEntry) (PostHash postEntry)) [])
       "DbPutPostEntryMappingsWithTxn: Problem adding mapping for creatorBps"
     >>> wrapf (txn_Set (_dbKeyForStakeMultipleBpsPostHash
                           (StakeMultipleBasisPoints postEntry) (PostHash postEntry)) [])
       "DbPutPostEntryMappingsWithTxn: Problem adding mapping for stakeMultipleBps"
     >>> wrapf (txn_Set (_dbGetStakeIDPostDBKey (PostHash postEntry)
                           (TotalStakeNanos (PostStakeEntry postEntry))) [])
       "DbPutPostEntryMappingsWithTxn: Problem adding mapping for stakeMultipleBps")
  >>>
  if IsVanillaReclout postEntry then
    let recloutEntry :=
      MkRecloutEntry (PosterPublicKey postEntry) (PostHash postEntry)
        (RecloutedPostHash postEntry) in
    let recloutDataBuf := gobEncode recloutEntry in
    match reclout_key postEntry with
    | Err e => fail e
    | Ok key =>
        wrapf (txn_Set key recloutDataBuf)
          "DbPutPostEntryMappingsWithTxn: Error problem adding mapping for recloutPostHash to ReclouterPubKey"
    end
  else ret tt.

End posts.

(** ** Sample codecs and values for the further functions *)

Module SampleCodecs.

(** A byte string behind its length. *)
Definition put_bytes (bs : list byte) : list byte :=
  EncodeUint64 (N.of_nat (length bs)) ++ bs.

Definition get_bytes (buf : list byte) : option (list byte * list byte) :=
  n ← DecodeUint64 buf;
  let rest := drop 8 buf in
  if (N.to_nat n <=? length rest)%nat
  then Some (take (N.to_nat n) rest, drop (N.to_nat n) rest)
  else None.

(** A pointer to an array of [n] bytes: a tag byte, then the array. *)
Definition put_ptr {n} (p : option (bytesN n)) : list byte :=
  match p with
  | Some a => x01 :: bytes_of a
  | None => [x00]
  end.

Definition get_ptr (n : nat) (buf : list byte) : option (option (bytesN n) * list byte) :=
  match buf with
  | [] => None
  | tag :: rest =>
      if Byte.eqb tag x00 then Some (None, rest)
      else if (n <=? length rest)%nat then Some (Some (fit n rest), drop n rest)
      else None
  end.

#[export] Instance gobPKIDEntry : Gob PKIDEntry := {|
  gobEncode e := put_ptr (PKIDEntry_PKID e) ++ PKIDEntry_PublicKey e;
  gobDecode buf := '(pkid, rest) ← get_ptr 33 buf; Some (MkPKIDEntry pkid rest)
|}.

#[export] Instance gobMessageEntry : Gob MessageEntry := {|
  gobEncode m :=
    put_bytes (SenderPublicKey m) ++ put_bytes (RecipientPublicKey m)
      ++ EncodeUint64 (TstampNanos m) ++ EncryptedText m;
  gobDecode buf :=
    '(sender, buf) ← get_bytes buf;
    '(recipient, buf) ← get_bytes buf;
    tstampNanos ← DecodeUint64 buf;
    Some (MkMessageEntry sender recipient (drop 8 buf) tstampNanos)
|}.

#[export] Instance constants : Constants := {|
  InitialUSDCentsPerBitcoinExchangeRate := 1000000
|}.

(** Two's-complement big-endian bytes of a 256-bit number, and the signed
    varint of Go's [binary.PutVarint]. *)
Definition bigint_to_hash (n : N) : BlockHash :=
  fit 32 (EncodeUint64 (n / 2 ^ 192) ++ EncodeUint64 (n / 2 ^ 128)
            ++ EncodeUint64 (n / 2 ^ 64) ++ EncodeUint64 n).

Definition int_to_buf (x : Z) : list byte :=
  Sample.uint_to_buf (Z.to_N (if (x <? 0)%Z then - 2 * x - 1 else 2 * x)%Z).

Definition header_to_bytes (header : BlockHash * list byte) : result (list byte) :=
  Ok (bytes_of header.1 ++ header.2).

Definition nodeEncoders : @NodeEncoders Sample.externals :=
  Build_NodeEncoders Sample.externals bigint_to_hash header_to_bytes int_to_buf.

(** The stake entry of a post is held as its total. *)
#[export] Instance postExternals : PostExternals := {|
  StakeEntry := N;
  TotalStakeNanos := λ stakeEntry, stakeEntry mod 2 ^ 64;
  StakeIDTypePost := x00
|}.

#[export] Instance gobPostEntry : Gob PostEntry := {|
  gobEncode e :=
    bytes_of (PostHash e) ++ put_bytes (PosterPublicKey e)
      ++ put_bytes (ParentStakeID e) ++ EncodeUint64 (TimestampNanos e)
      ++ EncodeUint64 (CreatorBasisPoints e)
      ++ EncodeUint64 (StakeMultipleBasisPoints e)
      ++ EncodeUint64 (PostStakeEntry e) ++ put_ptr (RecloutedPostHash e);
  gobDecode buf :=
    if (length buf <? 32)%nat then None
    else
      let postHash := fit 32 buf in
      '(poster, buf) ← get_bytes (drop 32 buf);
      '(parent, buf) ← get_bytes buf;
      tstampNanos ← DecodeUint64 buf;
      creatorBps ← DecodeUint64 (drop 8 buf);
      multipleBps ← DecodeUint64 (drop 16 buf);
      stake ← DecodeUint64 (drop 24 buf);
      '(reclouted, _) ← get_ptr 32 (drop 32 buf);
      Some (MkPostEntry postHash poster parent tstampNanos creatorBps multipleBps
              stake reclouted)
|}.

#[export] Instance gobRecloutEntry : Gob RecloutEntry := {|
  gobEncode e :=
    put_bytes (ReclouterPubKey e) ++ bytes_of (RecloutPostHash e)
      ++ put_ptr (RecloutEntry_RecloutedPostHash e);
  gobDecode buf :=
    '(reclouter, buf) ← get_bytes buf;
    if (length buf <? 32)%nat then None
    else
      '(reclouted, _) ← get_ptr 32 (drop 32 buf);
      Some (MkRecloutEntry reclouter (fit 32 buf) reclouted)
|}.

(** A post is taken for a vanilla reclout when it names a reclouted post. *)
Definition isVanillaReclout (postEntry : PostEntry) : bool :=
  bool_decide (is_Some (RecloutedPostHash postEntry)).

Definition pkidEntry : PKIDEntry :=
  MkPKIDEntry (Some (Sample.pkid x09)) (replicate 33 x07).

Definition messageEntry : MessageEntry :=
  MkMessageEntry (replicate 33 x01) (replicate 33 x02) [x68; x69] 1000.

(** A top-level post that reclouts another post. *)
Definition post : PostEntry :=
  MkPostEntry (Sample.hash x0a) (replicate 33 x01) [] 1000 10 20 300
    (Some (Sample.hash x0b)).

(** A comment on a profile: the parent stake id is a public key. *)
Definition comment : PostEntry :=
  MkPostEntry (Sample.hash x0c) (replicate 33 x01) (replicate 33 x02) 2000 10 20 0 None.

(** Two linked block nodes: node 1 has node 0 as its parent. *)
Definition heap : list BlockNode :=
  [sample_node (Sample.hash x02) 0 (Sample.hash x00);
   set_Parent (Some 0%nat) (sample_node (Sample.hash x01) 1 (Sample.hash x02))].

End SampleCodecs.

(** * Properties *)

(** ** The byte order *)

Lemma to_N_inj (x y : byte) : Byte.to_N x = Byte.to_N y → x = y.
Proof.
  intros E. apply (inj Some). by rewrite <- !Byte.of_to_N, E.
Qed.

Lemma to_N_byte_of_N (n : N) : Byte.to_N (byte_of_N n) = n mod 256.
Proof.
  unfold byte_of_N. destruct (Byte.of_N (n mod 256)) as [b|] eqn:E.
  - by apply Byte.to_of_N.
  - apply Byte.of_N_None_iff in E.
    pose proof (N.mod_upper_bound n 256). lia.
Qed.

Lemma bytes_compare_refl a : bytes_compare a a = Eq.
Proof. induction a as [|x a IH]; simpl; [done|]. by rewrite N.compare_refl. Qed.

Lemma bytes_compare_eq a b : bytes_compare a b = Eq → a = b.
Proof.
  revert b. induction a as [|x a IH]; intros [|y b]; simpl; try done.
  destruct (N.compare_spec (Byte.to_N x) (Byte.to_N y)) as [E| |]; try done.
  intros Hc. f_equal; [by apply to_N_inj | by apply IH].
Qed.

Lemma bytes_compare_antisym a b : bytes_compare b a = CompOpp (bytes_compare a b).
Proof.
  revert b. induction a as [|x a IH]; intros [|y b]; simpl; try done.
  rewrite (N.compare_antisym (Byte.to_N x) (Byte.to_N y)).
  destruct (Byte.to_N x ?= Byte.to_N y); simpl; auto.
Qed.

Lemma bytes_lt_trans a b c : bytes_lt a b → bytes_lt b c → bytes_lt a c.
Proof.
  unfold bytes_lt. revert b c.
  induction a as [|x a IH]; intros [|y b] [|z c]; simpl; try done.
  destruct (N.compare_spec (Byte.to_N x) (Byte.to_N y)) as [E1|E1|E1];
    destruct (N.compare_spec (Byte.to_N y) (Byte.to_N z)) as [E2|E2|E2];
    try done; intros H1 H2.
  - rewrite E1, E2, N.compare_refl. eauto.
  - rewrite E1. by apply N.compare_lt_iff in E2 as ->.
  - rewrite <- E2. by apply N.compare_lt_iff in E1 as ->.
  - assert (Byte.to_N x < Byte.to_N z) as Hlt by lia.
    by apply N.compare_lt_iff in Hlt as ->.
Qed.

Lemma bytes_lt_irrefl a : ¬ bytes_lt a a.
Proof. unfold bytes_lt. by rewrite bytes_compare_refl. Qed.

Lemma bytes_lt_gt a b : bytes_lt a b ↔ bytes_compare b a = Gt.
Proof.
  unfold bytes_lt. rewrite (bytes_compare_antisym a b).
  destruct (bytes_compare a b); simpl; split; congruence.
Qed.

Lemma bytes_le_lt_eq a b : bytes_le a b ↔ bytes_lt a b ∨ a = b.
Proof.
  unfold bytes_le, bytes_lt. split.
  - destruct (bytes_compare a b) eqn:E; try done; auto.
    right. by apply bytes_compare_eq.
  - intros [->| ->]; [done|]. by rewrite bytes_compare_refl.
Qed.

Lemma bytes_le_not_lt a b : bytes_le a b ↔ ¬ bytes_lt b a.
Proof. rewrite bytes_lt_gt. done. Qed.

Lemma bytes_lt_not_le a b : bytes_lt a b ↔ ¬ bytes_le b a.
Proof.
  rewrite bytes_lt_gt. unfold bytes_le.
  destruct (bytes_compare b a); naive_solver.
Qed.

Lemma bytes_le_refl a : bytes_le a a.
Proof. apply bytes_le_lt_eq. by right. Qed.

Lemma bytes_le_trans a b c : bytes_le a b → bytes_le b c → bytes_le a c.
Proof.
  rewrite !bytes_le_lt_eq. intros [H1| ->] [H2| ->]; eauto using bytes_lt_trans.
Qed.

Lemma bytes_lt_le_trans a b c : bytes_lt a b → bytes_le b c → bytes_lt a c.
Proof. rewrite bytes_le_lt_eq. intros H1 [H2| ->]; eauto using bytes_lt_trans. Qed.

Lemma bytes_le_lt_trans a b c : bytes_le a b → bytes_lt b c → bytes_lt a c.
Proof. rewrite bytes_le_lt_eq. intros [H1| ->] H2; eauto using bytes_lt_trans. Qed.

Lemma bytes_le_antisym a b : bytes_le a b → bytes_le b a → a = b.
Proof.
  rewrite bytes_le_lt_eq. intros [H1| ->] H2; [|done].
  apply bytes_le_not_lt in H2. done.
Qed.

Lemma bytes_le_total a b : bytes_le a b ∨ bytes_le b a.
Proof.
  destruct (decide (bytes_le a b)) as [|Hn]; [by left|right].
  apply bytes_lt_not_le in Hn. apply bytes_le_lt_eq. by left.
Qed.

Lemma bytes_ltb_lt a b : bytes_ltb a b = true ↔ bytes_lt a b.
Proof. unfold bytes_ltb, bytes_lt. destruct (bytes_compare a b); split; congruence. Qed.

Lemma bytes_ltb_ge a b : bytes_ltb a b = false ↔ bytes_le b a.
Proof.
  rewrite bytes_le_not_lt, <- bytes_ltb_lt. destruct (bytes_ltb a b); split; congruence.
Qed.

Lemma bytes_compare_app p a b : bytes_compare (p ++ a) (p ++ b) = bytes_compare a b.
Proof. induction p as [|x p IH]; simpl; [done|]. by rewrite N.compare_refl. Qed.

Lemma bytes_compare_same_length_app a a' b b' :
  length a = length a' → bytes_lt a a' → bytes_lt (a ++ b) (a' ++ b').
Proof.
  unfold bytes_lt. revert a'.
  induction a as [|x a IH]; intros [|y a']; simpl; try done.
  intros [= Hl]. destruct (Byte.to_N x ?= Byte.to_N y); try done. by apply IH.
Qed.

(** ** Prefixes *)

Lemma HasPrefix_spec s p : HasPrefix s p = true ↔ ∃ t, s = p ++ t.
Proof.
  revert s. induction p as [|x p IH]; intros s; simpl.
  - split; [intros _; by exists s | done].
  - destruct s as [|y s].
    + split; [done|]. by intros [t ?].
    + rewrite andb_true_iff, bool_decide_eq_true, IH. split.
      * intros [-> [t ->]]. eauto.
      * intros [t [= -> ->]]. eauto.
Qed.

Lemma HasPrefix_app p t : HasPrefix (p ++ t) p = true.
Proof. apply HasPrefix_spec. eauto. Qed.

Lemma HasPrefix_refl p : HasPrefix p p = true.
Proof. apply HasPrefix_spec. exists []. by rewrite app_nil_r. Qed.

Lemma HasPrefix_length s p : HasPrefix s p = true → (length p ≤ length s)%nat.
Proof. intros [t ->]%HasPrefix_spec. rewrite length_app. lia. Qed.

Lemma HasPrefix_trans s p q :
  HasPrefix s p = true → HasPrefix p q = true → HasPrefix s q = true.
Proof.
  intros [t ->]%HasPrefix_spec [u ->]%HasPrefix_spec.
  rewrite <- app_assoc. apply HasPrefix_app.
Qed.

Lemma bytes_le_nil a : bytes_le [] a.
Proof. unfold bytes_le. by destruct a. Qed.

Lemma HasPrefix_le s p : HasPrefix s p = true → bytes_le p s.
Proof.
  intros [t ->]%HasPrefix_spec. unfold bytes_le.
  rewrite <- (app_nil_r p) at 1. rewrite bytes_compare_app. by destruct t.
Qed.

(** The keys with a given prefix form an interval of the key order. *)
Lemma HasPrefix_convex a b c p :
  HasPrefix a p = true → HasPrefix c p = true →
  bytes_le a b → bytes_le b c → HasPrefix b p = true.
Proof.
  unfold bytes_le. revert a b c.
  induction p as [|x p IH]; intros a b c; simpl; [done|].
  destruct a as [|xa a], c as [|xc c]; try done.
  rewrite !andb_true_iff, !bool_decide_eq_true.
  intros [-> Ha] [-> Hc]. destruct b as [|xb b]; simpl; [done|].
  destruct (N.compare_spec (Byte.to_N x) (Byte.to_N xb)) as [E1|E1|E1];
    destruct (N.compare_spec (Byte.to_N xb) (Byte.to_N x)) as [E2|E2|E2];
    try done; try lia.
  apply to_N_inj in E1 as ->. intros H1 H2.
  rewrite andb_true_iff, bool_decide_eq_true. eauto.
Qed.

(** ** Scanning a sorted list *)

Section scan.
Context {A : Type} (R : relation A).
Implicit Types (f g : A → bool) (l : list A).

Lemma filter_all (P : A → Prop) `{∀ x, Decision (P x)} l :
  (∀ x, x ∈ l → P x) → filter P l = l.
Proof.
  induction l as [|x l IH]; intros Hl; [done|].
  rewrite filter_cons_True by (apply Hl; left).
  f_equal. apply IH. intros y Hy. apply Hl. by right.
Qed.

Lemma filter_none (P : A → Prop) `{∀ x, Decision (P x)} l :
  (∀ x, x ∈ l → ¬ P x) → filter P l = [].
Proof.
  induction l as [|x l IH]; intros Hl; [done|].
  rewrite filter_cons_False by (apply Hl; left).
  apply IH. intros y Hy. apply Hl. by right.
Qed.

Lemma filter_ext_elem (P Q : A → Prop)
    `{∀ x, Decision (P x)} `{∀ x, Decision (Q x)} l :
  (∀ x, x ∈ l → P x ↔ Q x) → filter P l = filter Q l.
Proof.
  induction l as [|x l IH]; intros Hl; [done|].
  rewrite !filter_cons. rewrite IH by (intros y Hy; apply Hl; by right).
  apply decide_ext, Hl. left.
Qed.

(** Once the iterator stands on an item that is not skipped, taking
    while [g] holds picks exactly the items satisfying [g]. *)
Lemma takeWhile_filter_sorted f g l :
  StronglySorted R l →
  (∀ x, x ∈ l → f x = false) →
  (∀ x y, R x y → f x = false → g y = true → g x = true) →
  takeWhile g l = filter (λ x, ¬ f x ∧ g x) l.
Proof.
  intros Hs Hf Hg. induction Hs as [|x l Hs IH Hx]; [done|].
  rewrite Forall_forall in Hx.
  assert (f x = false) as Hfx by (apply Hf; left).
  simpl. destruct (g x) eqn:Hgx.
  - rewrite filter_cons_True by (rewrite Hfx, Hgx; split; [by intros []|done]).
    f_equal. apply IH. intros y Hy. apply Hf. by right.
  - rewrite filter_cons_False by (rewrite Hgx; by intros [_ []]).
    symmetry. apply filter_none. intros y Hy [_ Hgy].
    apply Is_true_true in Hgy.
    rewrite (Hg x y (Hx y Hy) Hfx Hgy) in Hgx. done.
Qed.

(** [Seek] followed by the [ValidForPrefix] loop, on a sorted list:
    [f] says which items the seek skips, [g] which items are valid. *)
Lemma takeWhile_dropWhile_sorted f g l :
  StronglySorted R l →
  (∀ x y, R x y → f y = true → f x = true) →
  (∀ x y, R x y → f x = false → g y = true → g x = true) →
  takeWhile g (dropWhile f l) = filter (λ x, ¬ f x ∧ g x) l.
Proof.
  intros Hs Hf Hg. induction Hs as [|x l Hs IH Hx]; [done|].
  rewrite Forall_forall in Hx. cbn [dropWhile].
  destruct (f x) eqn:Hfx.
  - rewrite filter_cons_False by (rewrite Hfx; by intros [[] _]). done.
  - apply takeWhile_filter_sorted; [by constructor; [|apply Forall_forall]| |done].
    intros y [->|Hy]%elem_of_cons; [done|].
    destruct (f y) eqn:Hfy; [|done].
    rewrite (Hf x y (Hx y Hy) Hfy) in Hfx. done.
Qed.

Lemma takeWhile_all g l : (∀ x, x ∈ l → g x = true) → takeWhile g l = l.
Proof.
  induction l as [|x l IH]; intros Hl; [done|]. simpl.
  rewrite (Hl x) by left. f_equal. apply IH. intros y Hy. apply Hl. by right.
Qed.

Lemma takeWhile_none g l : (∀ x, x ∈ l → g x = false) → takeWhile g l = [].
Proof. destruct l as [|x l]; intros Hl; [done|]. simpl. by rewrite (Hl x) by left. Qed.

Lemma elem_of_dropWhile f l x : x ∈ dropWhile f l → x ∈ l.
Proof.
  induction l as [|y l IH]; simpl; [done|].
  destruct (f y); [|done]. intros Hx. right. by apply IH.
Qed.

Lemma StronglySorted_reverse l :
  Transitive R → StronglySorted R l → StronglySorted (flip R) (reverse l).
Proof.
  intros HR Hs. apply Sorted_StronglySorted; [intros x y z ??; by apply (HR z y x)|].
  apply Sorted_reverse. by apply StronglySorted_Sorted.
Qed.
End scan.

(** ** The items of a store *)

#[local] Instance key_le_trans :
  Transitive (λ a b : list byte * list byte, bytes_le a.1 b.1).
Proof. intros a b c. apply bytes_le_trans. Qed.
#[local] Instance key_le_total :
  Total (λ a b : list byte * list byte, bytes_le a.1 b.1).
Proof. intros a b. apply bytes_le_total. Qed.
#[local] Instance key_lt_trans : Transitive key_lt.
Proof. intros a b c. apply bytes_lt_trans. Qed.

Lemma elem_of_Items m k v : (k, v) ∈ Items m ↔ m !! k = Some v.
Proof.
  unfold Items. rewrite merge_sort_Permutation. apply elem_of_map_to_list.
Qed.

Lemma Items_NoDup_keys m : NoDup (Items m).*1.
Proof.
  unfold Items. rewrite merge_sort_Permutation. apply NoDup_fst_map_to_list.
Qed.

Lemma Items_sorted m : StronglySorted key_lt (Items m).
Proof.
  pose proof (Items_NoDup_keys m) as Hnd.
  assert (StronglySorted (λ a b, bytes_le a.1 b.1) (Items m)) as Hs.
  { unfold Items. apply (StronglySorted_merge_sort _). }
  induction Hs as [|x l Hs IH Hx]; [constructor|].
  rewrite fmap_cons in Hnd. apply NoDup_cons in Hnd as [Hx' Hnd].
  constructor; [by apply IH|].
  rewrite Forall_forall in Hx |- *. intros y Hy.
  specialize (Hx y Hy). apply bytes_le_lt_eq in Hx as [Hlt|Heq]; [done|].
  destruct Hx'. rewrite Heq. apply list_elem_of_fmap. eauto.
Qed.

Lemma key_lt_sorted_NoDup l : StronglySorted key_lt l → NoDup l.
Proof.
  induction 1 as [|x l Hs IH Hx]; constructor; [|done].
  rewrite Forall_forall in Hx. intros Hin.
  by apply (bytes_lt_irrefl x.1), (Hx x).
Qed.

(** A key-sorted list with the bindings of a store is its list of items. *)
Lemma Items_unique m l :
  StronglySorted key_lt l →
  (∀ k v, (k, v) ∈ l ↔ m !! k = Some v) →
  Items m = l.
Proof.
  intros Hs Hl. apply (StronglySorted_unique_strong key_lt).
  - intros x1 x2 _ _ H1 H2. destruct (bytes_lt_irrefl x1.1).
    by apply (bytes_lt_trans _ x2.1).
  - apply Items_sorted.
  - done.
  - apply NoDup_Permutation.
    + apply key_lt_sorted_NoDup, Items_sorted.
    + by apply key_lt_sorted_NoDup.
    + intros [k v]. by rewrite elem_of_Items, Hl.
Qed.

Lemma Items_reverse_sorted m : StronglySorted (flip key_lt) (reverse (Items m)).
Proof. apply StronglySorted_reverse; [apply _|apply Items_sorted]. Qed.

(** A forward scan of a prefix visits exactly the items with the prefix,
    in ascending key order. *)
Lemma Seek_forward_valid m p :
  takeWhile (valid p) (Seek false m p) = filter (λ kv, HasPrefix kv.1 p) (Items m).
Proof.
  unfold Seek.
  rewrite (takeWhile_dropWhile_sorted key_lt) by
    first [ apply Items_sorted
          | intros x y Hxy Hy%bytes_ltb_lt; apply bytes_ltb_lt;
            by apply (bytes_lt_trans _ y.1)
          | intros x y Hxy Hx%bytes_ltb_ge Hy;
            apply (HasPrefix_convex p x.1 y.1 p);
            [apply HasPrefix_refl|done|done|apply bytes_le_lt_eq; by left] ].
  apply list_filter_iff. intros [k v]; simpl. unfold valid; simpl. split.
  - by intros [_ ?].
  - intros Hk. split; [|done]. apply Is_true_true in Hk.
    apply HasPrefix_le, bytes_ltb_ge in Hk. rewrite Hk. by intros [].
Qed.

(** A reverse scan that seeks to a key [s] with the prefix visits exactly
    the items with the prefix whose key is at most [s], in descending key
    order. *)
Lemma Seek_reverse_valid m s p :
  s ≠ [] → HasPrefix s p = true →
  takeWhile (valid p) (Seek true m s)
  = filter (λ kv, HasPrefix kv.1 p ∧ bytes_le kv.1 s) (reverse (Items m)).
Proof.
  intros Hs Hsp. unfold Seek. destruct s as [|s0 s]; [done|].
  rewrite (takeWhile_dropWhile_sorted (flip key_lt)) by
    first [ apply Items_reverse_sorted
          | intros x y Hxy Hy%bytes_ltb_lt; apply bytes_ltb_lt;
            by apply (bytes_lt_trans _ y.1)
          | intros x y Hxy Hx%bytes_ltb_ge Hy;
            apply (HasPrefix_convex y.1 x.1 (s0 :: s) p);
            [done|done|apply bytes_le_lt_eq; by left|done] ].
  apply list_filter_iff. intros [k v]; simpl. unfold valid; simpl.
  rewrite <- bytes_ltb_ge.
  destruct (bytes_ltb (s0 :: s) k), (HasPrefix k p); simpl; intuition congruence.
Qed.

(** ** Transactions *)

Lemma txn_modify_inv key f txn txn' r :
  txn_modify key f txn = (txn', r) →
  (r = Ok tt ∧ key ≠ [] ∧ update txn = true ∧ update txn' = true
     ∧ room txn = S (room txn') ∧ view txn' = f (view txn))
  ∨ (∃ e, r = Err e ∧ txn' = txn).
Proof.
  unfold txn_modify. destruct (update txn) eqn:Hu; simpl.
  - destruct key as [|k0 key]; [intros [= <- <-]; right; eauto|].
    destruct (room txn) eqn:Hr; intros [= <- <-]; [right; eauto|].
    left. simpl. done.
  - intros [= <- <-]. right. eauto.
Qed.

Lemma txn_modify_ok key f txn :
  key ≠ [] → update txn = true → room txn ≠ O →
  txn_modify key f txn = (MkTxn (f (view txn)) true (pred (room txn)), Ok tt).
Proof.
  intros Hk Hu Hr. unfold txn_modify. rewrite Hu. simpl.
  destruct key; [done|]. destruct (room txn); done.
Qed.

Lemma txn_Get_Ok txn key v : txn_Get txn key = Ok v → view txn !! key = Some v.
Proof.
  unfold txn_Get. destruct key; [done|].
  destruct (view txn !! _); [|done]. by intros [= ->].
Qed.

Lemma txn_Get_Err txn key e :
  key ≠ [] → txn_Get txn key = Err e → view txn !! key = None ∧ e = ErrKeyNotFound.
Proof.
  unfold txn_Get. destruct key; [done|]. intros _.
  destruct (view txn !! _); [done|]. by intros [= <-].
Qed.

Lemma txn_Get_lookup txn key :
  key ≠ [] →
  txn_Get txn key = match view txn !! key with
                    | Some v => Ok v
                    | None => Err ErrKeyNotFound
                    end.
Proof. by destruct key. Qed.

(** Two writes in a row, as every paired index does them. *)
Lemma two_writes_inv k1 f1 msg1 k2 f2 msg2 txn txn' r :
  (wrapf (txn_modify k1 f1) msg1 >>> wrapf (txn_modify k2 f2) msg2) txn = (txn', r) →
  (r = Ok tt ∧ view txn' = f2 (f1 (view txn))) ∨ (∃ e, r = Err e).
Proof.
  unfold bind, wrapf.
  destruct (txn_modify k1 f1 txn) as [txn1 r1] eqn:E1.
  apply txn_modify_inv in E1 as [(-> & _ & _ & _ & _ & Hv1)|(e & -> & ->)].
  - destruct (txn_modify k2 f2 txn1) as [txn2 r2] eqn:E2.
    apply txn_modify_inv in E2 as [(-> & _ & _ & _ & _ & Hv2)|(e & -> & ->)].
    + intros [= <- <-]. left. by rewrite Hv2, Hv1.
    + intros [= <- <-]. right. eauto.
  - intros [= <- <-]. right. eauto.
Qed.

Lemma Update_inv db fn db' r :
  Update db fn = (db', r) →
  (r = None ∧ ∃ txn, fn (NewTransaction db true) = (txn, Ok tt)
                     ∧ db' = MkDB (view txn) (maxBatchCount db))
  ∨ (∃ e, r = Some e ∧ db' = db).
Proof.
  unfold Update. destruct (fn _) as [txn [[]|e]]; intros [= <- <-]; eauto.
Qed.

(** ** Follows (claims C1 and C7) *)

Lemma follow_key_nonempty a b : _dbKeyForFollowerToFollowedMapping a b ≠ [].
Proof. done. Qed.

Lemma follow_keys_inj a b a' b' :
  _dbKeyForFollowerToFollowedMapping a b = _dbKeyForFollowerToFollowedMapping a' b' →
  a = a' ∧ b = b'.
Proof.
  unfold _dbKeyForFollowerToFollowedMapping. rewrite <- !app_assoc.
  intros Heq%app_inv_head.
  apply app_inj_1 in Heq as [Ha Hb]; [|by rewrite !bytes_len].
  split; by apply bytesN_eq.
Qed.

Lemma followed_keys_inj a b a' b' :
  _dbKeyForFollowedToFollowerMapping a b = _dbKeyForFollowedToFollowerMapping a' b' →
  a = a' ∧ b = b'.
Proof.
  unfold _dbKeyForFollowedToFollowerMapping. rewrite <- !app_assoc.
  intros Heq%app_inv_head.
  apply app_inj_1 in Heq as [Ha Hb]; [|by rewrite !bytes_len].
  split; by apply bytesN_eq.
Qed.

Lemma follow_keys_disjoint a b a' b' :
  _dbKeyForFollowerToFollowedMapping a b ≠ _dbKeyForFollowedToFollowerMapping a' b'.
Proof. done. Qed.

Lemma DbPutFollowMappings_inv db a b db' r :
  DbPutFollowMappings db a b = (db', r) →
  (r = None ∧ contents db' =
     <[_dbKeyForFollowedToFollowerMapping b a := []]>
       (<[_dbKeyForFollowerToFollowedMapping a b := []]> (contents db)))
  ∨ (∃ e, r = Some e ∧ db' = db).
Proof.
  intros [(-> & txn & Hfn & ->)|?]%Update_inv; [left|by right].
  split; [done|]. revert Hfn. unfold DbPutFollowMappingsWithTxn.
  rewrite !bytes_len. simpl.
  intros [[_ ->]|[e [=]]]%two_writes_inv. done.
Qed.

Lemma DbGetFollowerToFollowedMappingWithTxn_spec txn a b :
  DbGetFollowerToFollowedMappingWithTxn txn a b
  = match view txn !! _dbKeyForFollowerToFollowedMapping a b with
    | Some _ => Some []
    | None => None
    end.
Proof.
  unfold DbGetFollowerToFollowedMappingWithTxn.
  rewrite txn_Get_lookup by done. by destruct (view txn !! _).
Qed.

Lemma DbDeleteFollowMappings_inv db a b db' r :
  DbDeleteFollowMappings db a b = (db', r) →
  (r = None ∧ contents db !! _dbKeyForFollowerToFollowedMapping a b = None
     ∧ contents db' = contents db)
  ∨ (r = None ∧ is_Some (contents db !! _dbKeyForFollowerToFollowedMapping a b)
     ∧ contents db' =
         delete (_dbKeyForFollowedToFollowerMapping b a)
           (delete (_dbKeyForFollowerToFollowedMapping a b) (contents db)))
  ∨ (∃ e, r = Some e ∧ db' = db).
Proof.
  intros [(-> & txn & Hfn & ->)|?]%Update_inv; [|by right; right].
  revert Hfn. unfold DbDeleteFollowMappingsWithTxn.
  rewrite DbGetFollowerToFollowedMappingWithTxn_spec. simpl.
  destruct (contents db !! _) as [v|] eqn:Hv.
  - intros [[_ ->]|[e [=]]]%two_writes_inv. right; left. eauto.
  - intros [= <-]. left. done.
Qed.

Lemma run_FollowOp_keeps_forward db op a b :
  op ≠ FollowDelete a b →
  is_Some (contents db !! _dbKeyForFollowerToFollowedMapping a b) →
  is_Some (contents (run_FollowOp db op) !! _dbKeyForFollowerToFollowedMapping a b).
Proof.
  intros Hop Hk. destruct op as [x y|x y]; simpl.
  - destruct (DbPutFollowMappings db x y) as [db' r] eqn:E; simpl.
    apply DbPutFollowMappings_inv in E as [[_ ->]|(e & _ & ->)]; [|done].
    rewrite !lookup_insert_is_Some. destruct (decide (
      _dbKeyForFollowedToFollowerMapping y x = _dbKeyForFollowerToFollowedMapping a b));
      [by left|right; split; [done|]].
    destruct (decide (
      _dbKeyForFollowerToFollowedMapping x y = _dbKeyForFollowerToFollowedMapping a b));
      [by left|by right].
  - destruct (DbDeleteFollowMappings db x y) as [db' r] eqn:E; simpl.
    apply DbDeleteFollowMappings_inv in E
      as [(_ & _ & ->)|[(_ & _ & ->)|(e & _ & ->)]]; simpl; try done.
    rewrite lookup_delete_ne by (symmetry; apply follow_keys_disjoint).
    rewrite lookup_delete_ne; [done|].
    intros [-> ->]%follow_keys_inj. done.
Qed.

Lemma run_FollowOp_keeps_mirror db op a b :
  op ≠ FollowDelete a b →
  is_Some (contents db !! _dbKeyForFollowedToFollowerMapping b a) →
  is_Some (contents (run_FollowOp db op) !! _dbKeyForFollowedToFollowerMapping b a).
Proof.
  intros Hop Hk. destruct op as [x y|x y]; simpl.
  - destruct (DbPutFollowMappings db x y) as [db' r] eqn:E; simpl.
    apply DbPutFollowMappings_inv in E as [[_ ->]|(e & _ & ->)]; [|done].
    rewrite !lookup_insert_is_Some. destruct (decide (
      _dbKeyForFollowedToFollowerMapping y x = _dbKeyForFollowedToFollowerMapping b a));
      [by left|right; split; [done|]].
    destruct (decide (
      _dbKeyForFollowerToFollowedMapping x y = _dbKeyForFollowedToFollowerMapping b a));
      [by left|by right].
  - destruct (DbDeleteFollowMappings db x y) as [db' r] eqn:E; simpl.
    apply DbDeleteFollowMappings_inv in E
      as [(_ & _ & ->)|[(_ & _ & ->)|(e & _ & ->)]]; simpl; try done.
    rewrite lookup_delete_ne by (intros [-> ->]%followed_keys_inj; done).
    rewrite lookup_delete_ne; [done|]. apply follow_keys_disjoint.
Qed.

Lemma run_FollowOp_paired db op : follow_paired db → follow_paired (run_FollowOp db op).
Proof.
  intros Hp a b. destruct op as [x y|x y]; simpl.
  - destruct (DbPutFollowMappings db x y) as [db' r] eqn:E; simpl.
    apply DbPutFollowMappings_inv in E as [[_ ->]|(e & _ & ->)]; [|apply Hp].
    destruct (decide (a = x ∧ b = y)) as [[-> ->]|Hne].
    + rewrite lookup_insert_eq.
      rewrite lookup_insert_ne by (symmetry; apply follow_keys_disjoint).
      rewrite lookup_insert_eq. done.
    + rewrite lookup_insert_ne by (symmetry; apply follow_keys_disjoint).
      rewrite lookup_insert_ne by (intros [-> ->]%follow_keys_inj; by destruct Hne).
      rewrite lookup_insert_ne by (intros [-> ->]%followed_keys_inj; by destruct Hne).
      rewrite lookup_insert_ne by apply follow_keys_disjoint.
      apply Hp.
  - destruct (DbDeleteFollowMappings db x y) as [db' r] eqn:E; simpl.
    apply DbDeleteFollowMappings_inv in E
      as [(_ & _ & ->)|[(_ & _ & ->)|(e & _ & ->)]]; simpl; try apply Hp.
    destruct (decide (a = x ∧ b = y)) as [[-> ->]|Hne].
    + rewrite lookup_delete_eq.
      rewrite lookup_delete_ne by (symmetry; apply follow_keys_disjoint).
      rewrite lookup_delete_eq. split; by intros [? [=]].
    + rewrite lookup_delete_ne by (symmetry; apply follow_keys_disjoint).
      rewrite lookup_delete_ne by (intros [-> ->]%follow_keys_inj; by destruct Hne).
      rewrite lookup_delete_ne by (intros [-> ->]%followed_keys_inj; by destruct Hne).
      rewrite lookup_delete_ne by apply follow_keys_disjoint.
      apply Hp.
Qed.

Lemma run_FollowOps_paired db ops : follow_paired db → follow_paired (run_FollowOps db ops).
Proof.
  revert db. induction ops as [|op ops IH]; intros db Hp; [done|].
  simpl. apply IH. by apply run_FollowOp_paired.
Qed.

Lemma run_FollowOps_keeps db ops a b :
  Forall (λ op, op ≠ FollowDelete a b) ops →
  is_Some (contents db !! _dbKeyForFollowerToFollowedMapping a b) →
  is_Some (contents db !! _dbKeyForFollowedToFollowerMapping b a) →
  is_Some (contents (run_FollowOps db ops) !! _dbKeyForFollowerToFollowedMapping a b)
  ∧ is_Some (contents (run_FollowOps db ops) !! _dbKeyForFollowedToFollowerMapping b a).
Proof.
  revert db. induction ops as [|op ops IH]; intros db Hops H1 H2; [done|].
  apply Forall_cons in Hops as [Hop Hops]. simpl.
  apply IH; [done| |].
  - by apply run_FollowOp_keeps_forward.
  - by apply run_FollowOp_keeps_mirror.
Qed.

Lemma two_writes_room k1 f1 msg1 k2 f2 msg2 txn txn' :
  (wrapf (txn_modify k1 f1) msg1 >>> wrapf (txn_modify k2 f2) msg2) txn = (txn', Ok tt) →
  (2 ≤ room txn)%nat.
Proof.
  unfold bind, wrapf.
  destruct (txn_modify k1 f1 txn) as [txn1 r1] eqn:E1.
  apply txn_modify_inv in E1 as [(-> & _ & _ & _ & Hr1 & _)|(e & -> & ->)]; [|done].
  destruct (txn_modify k2 f2 txn1) as [txn2 r2] eqn:E2.
  apply txn_modify_inv in E2 as [(-> & _ & _ & _ & Hr2 & _)|(e & -> & ->)]; [|done].
  intros _. lia.
Qed.

Lemma two_writes_ok k1 f1 msg1 k2 f2 msg2 txn :
  k1 ≠ [] → k2 ≠ [] → update txn = true → (2 ≤ room txn)%nat →
  ∃ txn', (wrapf (txn_modify k1 f1) msg1 >>> wrapf (txn_modify k2 f2) msg2) txn
          = (txn', Ok tt)
          ∧ view txn' = f2 (f1 (view txn)).
Proof.
  intros Hk1 Hk2 Hu Hr. unfold bind, wrapf.
  rewrite (txn_modify_ok k1 f1 txn) by (done || lia).
  rewrite txn_modify_ok by (simpl; done || lia).
  eexists. split; [done|]. done.
Qed.

Lemma Update_maxBatchCount db fn : maxBatchCount (Update db fn).1 = maxBatchCount db.
Proof. unfold Update. by destruct (fn _) as [txn [[]|e]]. Qed.

Lemma run_FollowOps_maxBatchCount db ops :
  maxBatchCount (run_FollowOps db ops) = maxBatchCount db.
Proof.
  revert db. induction ops as [|op ops IH]; intros db; [done|].
  simpl. rewrite IH. destruct op; apply Update_maxBatchCount.
Qed.

Lemma DbPutFollowMappings_room db a b db' :
  DbPutFollowMappings db a b = (db', None) →
  (2 ≤ maxBatchCount db)%nat ∧ maxBatchCount db' = maxBatchCount db.
Proof.
  intros Hput. split.
  - apply Update_inv in Hput as [(_ & txn & Hfn & _)|(e & [=] & _)].
    revert Hfn. unfold DbPutFollowMappingsWithTxn. rewrite !bytes_len. simpl.
    intros Hfn%two_writes_room. done.
  - rewrite <- (Update_maxBatchCount db (DbPutFollowMappingsWithTxn a b)).
    unfold DbPutFollowMappings in Hput. by rewrite Hput.
Qed.

Lemma DbDeleteFollowMappings_present db a b :
  is_Some (contents db !! _dbKeyForFollowerToFollowedMapping a b) →
  (2 ≤ maxBatchCount db)%nat →
  ∃ db', DbDeleteFollowMappings db a b = (db', None)
         ∧ contents db' =
             delete (_dbKeyForFollowedToFollowerMapping b a)
               (delete (_dbKeyForFollowerToFollowedMapping a b) (contents db)).
Proof.
  intros [v Hv] Hroom. unfold DbDeleteFollowMappings, Update.
  unfold DbDeleteFollowMappingsWithTxn.
  rewrite DbGetFollowerToFollowedMappingWithTxn_spec.
  cbn [view NewTransaction]. rewrite Hv.
  destruct (two_writes_ok
    (_dbKeyForFollowerToFollowedMapping a b)
    (λ m, delete (_dbKeyForFollowerToFollowedMapping a b) m)
    "DbDeleteFollowMappingsWithTxn: Deleting followerPKID and followedPKID failed"
    (_dbKeyForFollowedToFollowerMapping b a)
    (λ m, delete (_dbKeyForFollowedToFollowerMapping b a) m)
    "DbDeleteFollowMappingsWithTxn: Deleting followedPKID and followerPKID failed"
    (NewTransaction db true)) as (txn' & Hrun & Hview); [done..|].
  unfold txn_Delete. rewrite Hrun. destruct txn'; simpl in *. subst. eauto.
Qed.

(** C1. Starting from a store in which forward and mirrored follow entries
    are paired, and after any history of puts and deletes: once
    [DbPutFollowMappings(A,B)] has succeeded, and as long as no
    [DbDeleteFollowMappings(A,B)] is called, the forward entry and the
    mirrored entry are both present and [DbGetFollowerToFollowedMapping(A,B)]
    is non-nil; [DbDeleteFollowMappings(A,B)] then returns nil and leaves
    both entries absent and the getter nil; and whenever
    [DbDeleteFollowMappings(A,B)] succeeds on a store the history can
    reach, both entries are absent afterwards. *)
Theorem follow_put_then_delete (db0 : DB) (ops0 ops1 : list FollowOp)
    (A B : PKID) (db2 : DB) :
  follow_paired db0 →
  DbPutFollowMappings (run_FollowOps db0 ops0) A B = (db2, None) →
  Forall (λ op, op ≠ FollowDelete A B) ops1 →
  let db3 := run_FollowOps db2 ops1 in
  let deleted := DbDeleteFollowMappings db3 A B in
  (is_Some (contents db3 !! _dbKeyForFollowerToFollowedMapping A B)
   ∧ is_Some (contents db3 !! _dbKeyForFollowedToFollowerMapping B A)
   ∧ DbGetFollowerToFollowedMapping db3 A B ≠ None)
  ∧ (deleted.2 = None
     ∧ contents deleted.1 !! _dbKeyForFollowerToFollowedMapping A B = None
     ∧ contents deleted.1 !! _dbKeyForFollowedToFollowerMapping B A = None
     ∧ DbGetFollowerToFollowedMapping deleted.1 A B = None)
  ∧ (∀ ops db4,
       DbDeleteFollowMappings (run_FollowOps db0 ops) A B = (db4, None) →
       contents db4 !! _dbKeyForFollowerToFollowedMapping A B = None
       ∧ contents db4 !! _dbKeyForFollowedToFollowerMapping B A = None).
Proof.
  intros Hp Hput Hops db3 deleted.
  assert (is_Some (contents db3 !! _dbKeyForFollowerToFollowedMapping A B)
          ∧ is_Some (contents db3 !! _dbKeyForFollowedToFollowerMapping B A))
    as [Hfwd Hmirror].
  { pose proof Hput as [[_ Hc]|(e & [=] & _)]%DbPutFollowMappings_inv.
    apply run_FollowOps_keeps; [done| |].
    - rewrite Hc, lookup_insert_ne by (symmetry; apply follow_keys_disjoint).
      by rewrite lookup_insert_eq.
    - by rewrite Hc, lookup_insert_eq. }
  apply DbPutFollowMappings_room in Hput as [Hroom Hmax].
  destruct (DbDeleteFollowMappings_present db3 A B Hfwd) as (db' & Hdel & Hc).
  { unfold db3. by rewrite run_FollowOps_maxBatchCount, Hmax. }
  assert (contents db' !! _dbKeyForFollowerToFollowedMapping A B = None) as Hgone.
  { rewrite Hc, lookup_delete_ne by (symmetry; apply follow_keys_disjoint).
    apply lookup_delete_eq. }
  split_and!; [done|done| | | | | |].
  - unfold DbGetFollowerToFollowedMapping, View.
    rewrite DbGetFollowerToFollowedMappingWithTxn_spec. simpl.
    by destruct Hfwd as [v ->].
  - unfold deleted. by rewrite Hdel.
  - unfold deleted. by rewrite Hdel.
  - unfold deleted. rewrite Hdel. simpl. rewrite Hc. apply lookup_delete_eq.
  - unfold deleted. rewrite Hdel. simpl.
    unfold DbGetFollowerToFollowedMapping, View.
    rewrite DbGetFollowerToFollowedMappingWithTxn_spec. simpl. by rewrite Hgone.
  - intros ops db4 Hdel4.
    pose proof (run_FollowOps_paired db0 ops Hp A B) as Hpair.
    apply DbDeleteFollowMappings_inv in Hdel4
      as [(_ & Hnone & ->)|[(_ & _ & ->)|(e & [=] & _)]].
    + split; [done|]. apply eq_None_not_Some. rewrite <- Hpair.
      by rewrite Hnone; intros [? [=]].
    + split.
      * rewrite lookup_delete_ne by (symmetry; apply follow_keys_disjoint).
        apply lookup_delete_eq.
      * apply lookup_delete_eq.
Qed.

Lemma DB_eta db : MkDB (contents db) (maxBatchCount db) = db.
Proof. by destruct db. Qed.

Section diamonds.
Context `{Externals}.

Lemma diamond_keys_disjoint r s p r' s' p' :
  _dbKeyForDiamondReceiverToDiamondSenderMapping r s p
  ≠ _dbKeyForDiamondSenderToDiamondRecieverMapping r' s' p'.
Proof. done. Qed.

Lemma DbGetDiamondMappingsWithTxn_absent txn r s p :
  view txn !! _dbKeyForDiamondReceiverToDiamondSenderMapping r s p = None →
  DbGetDiamondMappingsWithTxn txn r s p = None.
Proof.
  intros Hk. unfold DbGetDiamondMappingsWithTxn.
  rewrite txn_Get_lookup by done. by rewrite Hk.
Qed.

Lemma DbDeleteDiamondMappings_inv db r s p db' res :
  DbDeleteDiamondMappings db r s p = (db', res) →
  (res = None ∧ db' = db
     ∧ DbGetDiamondMappingsWithTxn (NewTransaction db true) r s p = None)
  ∨ (res = None
     ∧ contents db' =
         delete (_dbKeyForDiamondSenderToDiamondRecieverMapping r s p)
           (delete (_dbKeyForDiamondReceiverToDiamondSenderMapping r s p) (contents db))
     ∧ maxBatchCount db' = maxBatchCount db)
  ∨ (∃ e, res = Some e ∧ db' = db).
Proof.
  intros [(-> & txn & Hfn & ->)|?]%Update_inv; [|by right; right].
  revert Hfn. unfold DbDeleteDiamondMappingsWithTxn.
  destruct (DbGetDiamondMappingsWithTxn _ r s p) as [entry|] eqn:Hget.
  - intros [[_ ->]|[e [=]]]%two_writes_inv. right; left. eauto.
  - intros [= <-]. left. simpl. by rewrite DB_eta.
Qed.

Lemma DbGetDiamondMappingsWithTxn_view txn txn' r s p :
  view txn = view txn' →
  DbGetDiamondMappingsWithTxn txn r s p = DbGetDiamondMappingsWithTxn txn' r s p.
Proof.
  intros Hv. unfold DbGetDiamondMappingsWithTxn.
  by rewrite !txn_Get_lookup, Hv by done.
Qed.

Lemma DbDeleteDiamondMappings_noop db r s p :
  DbGetDiamondMappingsWithTxn (NewTransaction db true) r s p = None →
  DbDeleteDiamondMappings db r s p = (db, None).
Proof.
  intros Hget. unfold DbDeleteDiamondMappings, Update, DbDeleteDiamondMappingsWithTxn.
  rewrite Hget. simpl. by rewrite DB_eta.
Qed.

Lemma DbDeleteFollowMappings_noop db a b :
  contents db !! _dbKeyForFollowerToFollowedMapping a b = None →
  DbDeleteFollowMappings db a b = (db, None).
Proof.
  intros Hk. unfold DbDeleteFollowMappings, Update, DbDeleteFollowMappingsWithTxn.
  rewrite DbGetFollowerToFollowedMappingWithTxn_spec. simpl.
  rewrite Hk. simpl. by rewrite DB_eta.
Qed.

(** C7. Deleting a follow pair or a diamond triple whose forward entry is
    absent returns success and leaves the store as it is; and a delete
    that succeeded can be repeated: the second call succeeds too and
    leaves the state the first call produced. *)
Theorem paired_delete_idempotent (db : DB) (A B : PKID)
    (receiver sender : PKID) (post : BlockHash) :
  (contents db !! _dbKeyForFollowerToFollowedMapping A B = None →
   DbDeleteFollowMappings db A B = (db, None))
  ∧ (contents db !! _dbKeyForDiamondReceiverToDiamondSenderMapping receiver sender post
       = None →
     DbDeleteDiamondMappings db receiver sender post = (db, None))
  ∧ (∀ db1, DbDeleteFollowMappings db A B = (db1, None) →
            DbDeleteFollowMappings db1 A B = (db1, None))
  ∧ (∀ db1, DbDeleteDiamondMappings db receiver sender post = (db1, None) →
            DbDeleteDiamondMappings db1 receiver sender post = (db1, None)).
Proof.
  split_and!.
  - apply DbDeleteFollowMappings_noop.
  - intros Hk. by apply DbDeleteDiamondMappings_noop, DbGetDiamondMappingsWithTxn_absent.
  - intros db1 Hdel. apply DbDeleteFollowMappings_noop.
    apply DbDeleteFollowMappings_inv in Hdel
      as [(_ & Hnone & ->)|[(_ & _ & ->)|(e & [=] & _)]]; [done|].
    rewrite lookup_delete_ne by (symmetry; apply follow_keys_disjoint).
    apply lookup_delete_eq.
  - intros db1 Hdel. apply DbDeleteDiamondMappings_noop.
    apply DbDeleteDiamondMappings_inv in Hdel
      as [(_ & -> & Hget)|[(_ & Hc & _)|(e & [=] & _)]]; [done|].
    apply DbGetDiamondMappingsWithTxn_absent. simpl. rewrite Hc.
    rewrite lookup_delete_ne by (symmetry; apply diamond_keys_disjoint).
    apply lookup_delete_eq.
Qed.

End diamonds.

(** ** The UTXO table (claims C2 and C3) *)

Section utxo.
Context `{Externals}.

(** C2, the behaviour of the code: on a transaction that has no room left
    the write of the primary record fails with [ErrTxnTooBig], and
    [PutMappingsForUtxoWithTxn] returns nil all the same, having written
    neither the primary record nor the owner index entry. *)
Theorem PutMappingsForUtxoWithTxn_hides_failed_write
    (m : gmap (list byte) (list byte)) (utxoKey : UtxoKey) (utxoEntry : UtxoEntry) :
  let txn := MkTxn m true 0 in
  PutUtxoEntryForUtxoKeyWithTxn utxoKey utxoEntry txn = (txn, Err ErrTxnTooBig)
  ∧ PutMappingsForUtxoWithTxn utxoKey utxoEntry txn = (txn, Ok tt).
Proof. done. Qed.





End utxo.

(** ** Sortedness of parts of a sorted list *)

Lemma StronglySorted_filter {A} (R : relation A) (P : A → Prop)
    `{∀ x, Decision (P x)} (l : list A) :
  StronglySorted R l → StronglySorted R (filter P l).
Proof.
  induction 1 as [|x l Hs IH Hx]; [constructor|].
  rewrite filter_cons. case_decide; [|done].
  constructor; [done|]. rewrite Forall_forall in Hx |- *.
  intros y [_ Hy]%list_elem_of_filter. by apply Hx.
Qed.

Lemma StronglySorted_take {A} (R : relation A) (n : nat) (l : list A) :
  StronglySorted R l → StronglySorted R (take n l).
Proof.
  intros Hs. revert n. induction Hs as [|x l Hs IH Hx]; intros [|n]; simpl;
    try constructor; [apply IH|].
  rewrite Forall_forall in Hx |- *. intros y Hy. apply Hx.
  by apply (subseteq_take n).
Qed.

Lemma StronglySorted_NoDup {A} (R : relation A) (l : list A) :
  (∀ x, ¬ R x x) → StronglySorted R l → NoDup l.
Proof.
  intros HR. induction 1 as [|x l Hs IH Hx]; constructor; [|done].
  rewrite Forall_forall in Hx. intros Hin. by apply (HR x), Hx.
Qed.

Lemma elem_of_reverse_inv {A} (x : A) (l : list A) : x ∈ reverse l → x ∈ l.
Proof. by rewrite elem_of_reverse. Qed.

Lemma keys_sorted_desc (l : list (list byte * list byte)) :
  StronglySorted (flip key_lt) l → StronglySorted (flip bytes_lt) l.*1.
Proof. by apply StronglySorted_fmap. Qed.

Lemma keys_sorted_asc (l : list (list byte * list byte)) :
  StronglySorted key_lt l → StronglySorted bytes_lt l.*1.
Proof. by apply StronglySorted_fmap. Qed.

(** ** Limited reverse enumeration (claim C10) *)

Lemma _enumerateLimitedKeysReversedForPrefix_loop_spec prefix limit counter it ks vs :
  counter ≤ limit → limit < 2 ^ 64 →
  _enumerateLimitedKeysReversedForPrefix_loop prefix limit counter it ks vs
  = Ok (ks ++ (take (N.to_nat (limit - counter)) (takeWhile (valid prefix) it)).*1,
        vs ++ (take (N.to_nat (limit - counter)) (takeWhile (valid prefix) it)).*2).
Proof.
  intros Hc Hl. revert counter ks vs Hc.
  induction it as [|[key val] it IH]; intros counter ks vs Hc; simpl.
  { by rewrite take_nil, !app_nil_r. }
  unfold valid at 1 3; simpl. destruct (HasPrefix key prefix); simpl.
  - destruct (N.eqb_spec counter limit) as [->|Hne].
    + rewrite N.sub_diag. simpl. by rewrite !app_nil_r.
    + rewrite N.mod_small by lia. rewrite IH by lia.
      replace (N.to_nat (limit - counter)) with (S (N.to_nat (limit - (counter + 1))))
        by lia.
      simpl. by rewrite <- !app_assoc.
  - by rewrite take_nil, !app_nil_r.
Qed.

(** C10. For a prefix [p] and a limit [L] (a [uint64]),
    [_enumerateLimitedKeysReversedForPrefix] returns the first [L] of the
    store keys that have prefix [p] and are at most [p] followed by [0xFF],
    taken from the largest down: [min(L, M)] keys in strictly descending
    order, where [M] counts those keys.  A key that strictly extends
    [p||0xFF] is never returned, and [L = 0] gives an empty result. *)
Theorem enumerate_limited_reversed (db : DB) (p : list byte) (L : N) :
  L < 2 ^ 64 →
  let candidates :=
    reverse (filter (λ kv, HasPrefix kv.1 p ∧ bytes_le kv.1 (p ++ [xff]))
               (Items (contents db))) in
  let keys := (_enumerateLimitedKeysReversedForPrefix db p L).1 in
  let vals := (_enumerateLimitedKeysReversedForPrefix db p L).2 in
  keys = (take (N.to_nat L) candidates).*1
  ∧ vals = (take (N.to_nat L) candidates).*2
  ∧ length keys = (N.to_nat L `min` length candidates)%nat
  ∧ StronglySorted (flip bytes_lt) keys
  ∧ (∀ k, HasPrefix k (p ++ [xff]) = true → k ≠ p ++ [xff] → k ∉ keys)
  ∧ (L = 0 → keys = []).
Proof.
  intros HL candidates keys vals.
  assert (_enumerateLimitedKeysReversedForPrefix db p L
          = ((take (N.to_nat L) candidates).*1, (take (N.to_nat L) candidates).*2))
    as Hrun.
  { unfold _enumerateLimitedKeysReversedForPrefix, View,
      _enumerateLimitedKeysReversedForPrefixWithTxn.
    rewrite _enumerateLimitedKeysReversedForPrefix_loop_spec by lia.
    rewrite N.sub_0_r. cbn [view NewTransaction].
    rewrite Seek_reverse_valid by (apply HasPrefix_app || by destruct p).
    by rewrite filter_reverse. }
  unfold keys, vals. rewrite Hrun. simpl.
  assert (StronglySorted (flip key_lt) candidates) as Hsorted.
  { apply StronglySorted_reverse; [apply _|].
    apply StronglySorted_filter, Items_sorted. }
  split_and!; try done.
  - by rewrite length_fmap, length_take.
  - by apply keys_sorted_desc, StronglySorted_take.
  - intros k Hk Hne [[k' v] [-> Hin]]%list_elem_of_fmap. simpl in *.
    apply (subseteq_take (N.to_nat L)) in Hin.
    apply elem_of_reverse_inv, list_elem_of_filter in Hin as [[_ Hle] _]. simpl in Hle.
    apply Hne, bytes_le_antisym; [done|]. by apply HasPrefix_le.
  - intros ->. done.
Qed.

(** ** Paginated scans (claim C4) *)

Lemma padded_prefix_eq startPrefix maxKeyLen :
  padded_prefix startPrefix maxKeyLen
  = take maxKeyLen startPrefix ++ replicate (maxKeyLen - length startPrefix) xff.
Proof.
  unfold padded_prefix. revert startPrefix.
  induction maxKeyLen as [|n IH]; intros P; [done|].
  cbn [seq map]. rewrite <- fmap_S_seq.
  change (map ?f (S <$> ?l)) with (f <$> (S <$> l)). rewrite <- list_fmap_compose.
  destruct P as [|x P]; simpl.
  - f_equal. specialize (IH []). simpl in IH.
    rewrite Nat.sub_0_r, take_nil in IH. exact IH.
  - f_equal. apply IH.
Qed.

Lemma bytes_le_replicate_xff t m :
  (length t ≤ m)%nat → bytes_le t (replicate m xff).
Proof.
  unfold bytes_le. revert m. induction t as [|x t IH]; intros [|m] Hl; simpl in *;
    try done; try lia.
  pose proof (Byte.to_N_bounded x).
  destruct (N.compare_spec (Byte.to_N x) 255); try done; [|lia].
  apply IH. lia.
Qed.

(** The padded seek key of a reverse scan bounds every key of its length
    that has the prefix. *)
Lemma bytes_le_padded k P n :
  HasPrefix k P = true → length k = n →
  bytes_le k (P ++ replicate (n - length P) xff).
Proof.
  intros [t ->]%HasPrefix_spec Hl. unfold bytes_le. rewrite bytes_compare_app.
  apply bytes_le_replicate_xff. rewrite length_app in Hl. lia.
Qed.

Lemma DBGetPaginatedKeysAndValuesForPrefix_loop_all vp maxKeyLen fetchValues it ks vs :
  (∀ kv, kv ∈ it → valid vp kv = true →
         maxKeyLen = 0%Z ∨ Z.of_nat (length kv.1) = maxKeyLen) →
  DBGetPaginatedKeysAndValuesForPrefix_loop vp maxKeyLen 0 fetchValues it ks vs
  = Ok (ks ++ (takeWhile (valid vp) it).*1,
        vs ++ ((λ kv, if fetchValues then kv.2 else []) <$> takeWhile (valid vp) it)).
Proof.
  revert ks vs. induction it as [|[key val] it IH]; intros ks vs Hlen; simpl.
  { by rewrite !app_nil_r. }
  unfold valid at 1 3; simpl. destruct (HasPrefix key vp) eqn:Hv; simpl.
  - assert (negb (maxKeyLen =? 0)%Z && negb (Z.of_nat (length key) =? maxKeyLen)%Z = false)
      as ->.
    { destruct (Hlen (key, val)) as [->| <-]; [by left|done|done|].
      by rewrite Z.eqb_refl, andb_false_r. }
    rewrite IH by (intros kv Hkv; apply Hlen; by right).
    by rewrite <- !app_assoc.
  - by rewrite !app_nil_r.
Qed.

(** C4. On a store whose keys with prefix [P] all have length [maxKeyLen],
    the reverse scan with [startPrefix = validForPrefix = P] and
    [numToFetch = 0] returns every key with prefix [P] exactly once, in
    strictly decreasing order: the reverse of what the forward scan with
    the same arguments returns. *)
Theorem reverse_pagination_full (db : DB) (P : list byte) (maxKeyLen : Z)
    (fetchValues : bool) :
  (0 ≤ maxKeyLen)%Z →
  (∀ k, is_Some (contents db !! k) → HasPrefix k P = true →
        Z.of_nat (length k) = maxKeyLen) →
  ∃ keys vals fkeys fvals,
    DBGetPaginatedKeysAndValuesForPrefix db P P maxKeyLen 0 true fetchValues
      = Ok (keys, vals)
    ∧ DBGetPaginatedKeysAndValuesForPrefix db P P maxKeyLen 0 false fetchValues
      = Ok (fkeys, fvals)
    ∧ keys = reverse fkeys
    ∧ vals = reverse fvals
    ∧ (∀ k, k ∈ keys ↔ is_Some (contents db !! k) ∧ HasPrefix k P = true)
    ∧ NoDup keys
    ∧ StronglySorted (flip bytes_lt) keys.
Proof.
  intros Hnonneg Hlen.
  set (hits := filter (λ kv, HasPrefix kv.1 P) (Items (contents db))).
  assert (∀ kv, kv ∈ Items (contents db) → HasPrefix kv.1 P = true →
                length kv.1 = Z.to_nat maxKeyLen) as Hlen'.
  { intros [k v] Hkv%elem_of_Items Hv. simpl in *.
    rewrite <- (Hlen k), Nat2Z.id; eauto. }
  assert (takeWhile (valid P)
            (Seek true (contents db) (padded_prefix P (Z.to_nat maxKeyLen)))
          = reverse hits) as Hrev.
  { unfold hits. rewrite <- filter_reverse, padded_prefix_eq.
    destruct (decide (length P ≤ Z.to_nat maxKeyLen)%nat) as [Hfit|Hcut].
    - rewrite take_ge by done.
      destruct (decide (P ++ replicate (Z.to_nat maxKeyLen - length P) xff = []))
        as [Hnil|Hnil].
      + (* the seek key is empty: the iterator is rewound *)
        rewrite Hnil. apply app_eq_nil in Hnil as [-> _]. unfold Seek.
        rewrite takeWhile_all by done. symmetry. by apply filter_all.
      + rewrite Seek_reverse_valid by (done || apply HasPrefix_app).
        apply filter_ext_elem. intros [k v] Hkv%elem_of_reverse_inv. simpl.
        split; [by intros [? _]|].
        intros Hk. split; [done|]. apply Is_true_true in Hk.
        apply bytes_le_padded; [done|]. by apply (Hlen' (k, v)).
    - (* the seek key is a proper part of the prefix: no key has the prefix *)
      assert (∀ kv, kv ∈ Items (contents db) → HasPrefix kv.1 P = false) as Hno.
      { intros kv Hkv. destruct (HasPrefix kv.1 P) eqn:Hv; [|done].
        pose proof (HasPrefix_length _ _ Hv). pose proof (Hlen' kv Hkv Hv). lia. }
      rewrite takeWhile_none.
      + symmetry. apply filter_none. intros kv Hkv%elem_of_reverse_inv.
        rewrite (Hno kv Hkv). by intros [].
      + intros kv Hkv. apply Hno. unfold Seek in Hkv.
        destruct (take _ P ++ _); [|apply elem_of_dropWhile in Hkv];
          by apply elem_of_reverse_inv. }
  assert (takeWhile (valid P) (Seek false (contents db) P) = hits) as Hfwd
    by apply Seek_forward_valid.
  assert (∀ (rev : bool) it, (∀ kv, kv ∈ it → kv ∈ Items (contents db)) →
            DBGetPaginatedKeysAndValuesForPrefix_loop P maxKeyLen 0 fetchValues it [] []
            = Ok ((takeWhile (valid P) it).*1,
                  (λ kv, if fetchValues then kv.2 else []) <$> takeWhile (valid P) it))
    as Hloop.
  { intros _ it Hit. rewrite DBGetPaginatedKeysAndValuesForPrefix_loop_all; [done|].
    intros kv Hkv Hv. right. rewrite (Hlen' kv); [lia|by apply Hit|done]. }
  exists (reverse hits).*1, ((λ kv, if fetchValues then kv.2 else []) <$> reverse hits),
    hits.*1, ((λ kv, if fetchValues then kv.2 else []) <$> hits).
  assert (StronglySorted key_lt hits) as Hsorted
    by apply StronglySorted_filter, Items_sorted.
  split_and!.
  - unfold DBGetPaginatedKeysAndValuesForPrefix, View,
      DBGetPaginatedKeysAndValuesForPrefixWithTxn.
    replace (maxKeyLen <? 0)%Z with false by lia. cbn [andb view NewTransaction].
    rewrite (Hloop true), Hrev; [done|].
    intros kv Hkv. unfold Seek in Hkv.
    destruct (padded_prefix _ _); [|apply elem_of_dropWhile in Hkv];
      by apply elem_of_reverse_inv.
  - unfold DBGetPaginatedKeysAndValuesForPrefix, View,
      DBGetPaginatedKeysAndValuesForPrefixWithTxn.
    cbn [andb view NewTransaction].
    rewrite (Hloop false), Hfwd; [done|].
    intros kv Hkv. by apply elem_of_dropWhile in Hkv.
  - by rewrite fmap_reverse.
  - by rewrite fmap_reverse.
  - intros k. rewrite list_elem_of_fmap. split.
    + intros [[k' v] [-> [Hv Hin]%elem_of_reverse_inv%list_elem_of_filter]]. simpl in *.
      apply elem_of_Items in Hin. split; [eauto|by apply Is_true_true].
    + intros [[v Hv] Hk]. exists (k, v). split; [done|].
      apply elem_of_reverse, list_elem_of_filter. split; [by apply Is_true_true|].
      by apply elem_of_Items.
  - apply (StronglySorted_NoDup (flip bytes_lt)); [intros x; apply bytes_lt_irrefl|].
    by apply keys_sorted_desc, StronglySorted_reverse; [apply _|].
  - by apply keys_sorted_desc, StronglySorted_reverse; [apply _|].
Qed.

(** ** Big-endian keys: byte order is numeric order *)

Lemma length_EncodeUint32 n : length (_EncodeUint32 n) = 4%nat.
Proof. done. Qed.

Lemma DecodeUint32_EncodeUint32 n rest :
  DecodeUint32 (_EncodeUint32 n ++ rest) = Some (n mod 2 ^ 32).
Proof.
  unfold _EncodeUint32, DecodeUint32. simpl. rewrite !to_N_byte_of_N. f_equal.
  change (2 ^ 32) with 4294967296.
  zify. Z.to_euclidean_division_equations. lia.
Qed.

Lemma DecodeUint32_compare a b :
  length a = 4%nat → length b = 4%nat →
  ∃ x y, DecodeUint32 a = Some x ∧ DecodeUint32 b = Some y
         ∧ bytes_compare a b = (x ?= y).
Proof.
  destruct a as [|a0 [|a1 [|a2 [|a3 [|]]]]]; try done.
  destruct b as [|b0 [|b1 [|b2 [|b3 [|]]]]]; try done.
  intros _ _. eexists _, _. split_and!; [done..|]. simpl.
  pose proof (Byte.to_N_bounded a0). pose proof (Byte.to_N_bounded a1).
  pose proof (Byte.to_N_bounded a2). pose proof (Byte.to_N_bounded a3).
  pose proof (Byte.to_N_bounded b0). pose proof (Byte.to_N_bounded b1).
  pose proof (Byte.to_N_bounded b2). pose proof (Byte.to_N_bounded b3).
  symmetry.
  destruct (N.compare_spec (Byte.to_N a0) (Byte.to_N b0));
    [|apply N.compare_lt_iff; lia|apply N.compare_gt_iff; lia].
  destruct (N.compare_spec (Byte.to_N a1) (Byte.to_N b1));
    [|apply N.compare_lt_iff; lia|apply N.compare_gt_iff; lia].
  destruct (N.compare_spec (Byte.to_N a2) (Byte.to_N b2));
    [|apply N.compare_lt_iff; lia|apply N.compare_gt_iff; lia].
  destruct (N.compare_spec (Byte.to_N a3) (Byte.to_N b3));
    [apply N.compare_eq_iff; lia|apply N.compare_lt_iff; lia|apply N.compare_gt_iff; lia].
Qed.

Lemma _EncodeUint32_compare i j :
  i < 2 ^ 32 → j < 2 ^ 32 →
  bytes_compare (_EncodeUint32 i) (_EncodeUint32 j) = (i ?= j).
Proof.
  intros Hi Hj.
  destruct (DecodeUint32_compare (_EncodeUint32 i) (_EncodeUint32 j))
    as (x & y & Hx & Hy & ->); [done..|].
  rewrite <- (app_nil_r (_EncodeUint32 i)), DecodeUint32_EncodeUint32 in Hx.
  rewrite <- (app_nil_r (_EncodeUint32 j)), DecodeUint32_EncodeUint32 in Hy.
  rewrite N.mod_small in Hx, Hy by done. by simplify_eq.
Qed.

Lemma _EncodeUint32_lt i j :
  i < j → j < 2 ^ 32 → bytes_lt (_EncodeUint32 i) (_EncodeUint32 j).
Proof.
  intros Hij Hj. unfold bytes_lt. rewrite _EncodeUint32_compare by lia.
  by apply N.compare_lt_iff.
Qed.

Lemma _EncodeUint32_inj i j :
  i < 2 ^ 32 → j < 2 ^ 32 → _EncodeUint32 i = _EncodeUint32 j → i = j.
Proof.
  intros Hi Hj Heq. apply N.compare_eq_iff.
  rewrite <- _EncodeUint32_compare, Heq by done. apply bytes_compare_refl.
Qed.

Lemma _EncodeUint32_le_max n : bytes_le (_EncodeUint32 n) [xff; xff; xff; xff].
Proof. by apply (bytes_le_replicate_xff _ 4). Qed.

(** ** The next index of an owner (claim C9) *)

Lemma txindex_key_lt pk i j :
  i < j → j < 2 ^ 32 →
  bytes_lt (DbTxindexPublicKeyIndexToTxnKey pk i) (DbTxindexPublicKeyIndexToTxnKey pk j).
Proof.
  intros Hij Hj. unfold bytes_lt, DbTxindexPublicKeyIndexToTxnKey.
  rewrite bytes_compare_app. by apply _EncodeUint32_lt.
Qed.

Lemma txindex_key_inj pk i j :
  i < 2 ^ 32 → j < 2 ^ 32 →
  DbTxindexPublicKeyIndexToTxnKey pk i = DbTxindexPublicKeyIndexToTxnKey pk j → i = j.
Proof.
  intros Hi Hj Heq%app_inv_head. by apply _EncodeUint32_inj.
Qed.

Lemma txindex_key_valid pk i :
  HasPrefix (DbTxindexPublicKeyIndexToTxnKey pk i) (DbTxindexPublicKeyPrefix pk) = true.
Proof. apply HasPrefix_app. Qed.

Lemma txindex_key_le_max pk i :
  bytes_le (DbTxindexPublicKeyIndexToTxnKey pk i)
    (DbTxindexPublicKeyPrefix pk ++ [xff; xff; xff; xff]).
Proof.
  unfold bytes_le, DbTxindexPublicKeyIndexToTxnKey. rewrite bytes_compare_app.
  apply _EncodeUint32_le_max.
Qed.

Lemma txindex_key_counter pk pk' i :
  DbTxindexPublicKeyIndexToTxnKey pk i ≠ _DbTxindexPublicKeyNextIndexPrefix pk'.
Proof. done. Qed.

(** The items the fallback scan can stand on: the owner's entries, the
    largest key first. *)
Lemma txindex_seek_items txn pk :
  txindex_wf txn pk →
  takeWhile (valid (DbTxindexPublicKeyPrefix pk))
    (Seek true (view txn) (DbTxindexPublicKeyPrefix pk ++ [xff; xff; xff; xff]))
  = reverse (filter (λ kv, HasPrefix kv.1 (DbTxindexPublicKeyPrefix pk))
               (Items (view txn))).
Proof.
  intros Hwf. rewrite Seek_reverse_valid by (done || apply HasPrefix_app).
  rewrite filter_reverse. f_equal. apply filter_ext_elem.
  intros [k v] Hkv%elem_of_Items. simpl. split; [by intros [? _]|].
  intros Hk. split; [done|].
  destruct (Hwf k) as (i & _ & ->); [eauto|by apply Is_true_true|].
  apply txindex_key_le_max.
Qed.

Lemma _DbGetTxindexNextIndexForPublicKeBySeekWithTxn_head txn pk :
  _DbGetTxindexNextIndexForPublicKeBySeekWithTxn txn pk
  = match takeWhile (valid (DbTxindexPublicKeyPrefix pk))
            (Seek true (view txn) (DbTxindexPublicKeyPrefix pk ++ [xff; xff; xff; xff]))
    with
    | [] => 0
    | (key, _) :: _ =>
        let countKey := drop (length (DbTxindexPublicKeyPrefix pk)) key in
        if (length countKey <? 4)%nat then 0
        else match DecodeUint32 (take 4 countKey) with
             | Some countVal => (countVal + 1) mod 2 ^ 32
             | None => 0
             end
    end.
Proof.
  unfold _DbGetTxindexNextIndexForPublicKeBySeekWithTxn.
  generalize (DbTxindexPublicKeyPrefix pk). intros dbPrefixx. cbn zeta.
  destruct (Seek true _ _) as [|[key val] it]; [done|].
  cbn [takeWhile]. unfold valid. cbn [fst].
  by destruct (HasPrefix key dbPrefixx).
Qed.

Lemma seek_no_entries txn pk :
  txindex_wf txn pk →
  (∀ i, i < 2 ^ 32 → view txn !! DbTxindexPublicKeyIndexToTxnKey pk i = None) →
  _DbGetTxindexNextIndexForPublicKeBySeekWithTxn txn pk = 0.
Proof.
  intros Hwf Hnone. rewrite _DbGetTxindexNextIndexForPublicKeBySeekWithTxn_head.
  rewrite txindex_seek_items by done. rewrite filter_none; [done|].
  intros [k v] Hkv%elem_of_Items Hk%Is_true_true. simpl in *.
  destruct (Hwf k) as (i & Hi & ->); [eauto|done|].
  by rewrite Hnone in Hkv.
Qed.

Lemma seek_largest_entry txn pk imax :
  txindex_wf txn pk →
  imax < 2 ^ 32 →
  is_Some (view txn !! DbTxindexPublicKeyIndexToTxnKey pk imax) →
  (∀ i, i < 2 ^ 32 → is_Some (view txn !! DbTxindexPublicKeyIndexToTxnKey pk i) →
        i ≤ imax) →
  _DbGetTxindexNextIndexForPublicKeBySeekWithTxn txn pk = (imax + 1) mod 2 ^ 32.
Proof.
  intros Hwf Himax [vmax Hvmax] Hle.
  rewrite _DbGetTxindexNextIndexForPublicKeBySeekWithTxn_head.
  rewrite txindex_seek_items by done.
  set (hits := filter _ (Items (view txn))).
  assert ((DbTxindexPublicKeyIndexToTxnKey pk imax, vmax) ∈ reverse hits) as Hin.
  { apply elem_of_reverse, list_elem_of_filter. split.
    - simpl. apply Is_true_true, txindex_key_valid.
    - by apply elem_of_Items. }
  assert (StronglySorted (flip key_lt) (reverse hits)) as Hsorted.
  { apply StronglySorted_reverse; [apply _|].
    apply StronglySorted_filter, Items_sorted. }
  destruct (reverse hits) as [|[k0 v0] rest] eqn:Hrev; [by apply elem_of_nil in Hin|].
  assert ((k0, v0) ∈ hits) as Hk0.
  { apply elem_of_reverse. rewrite Hrev. left. }
  apply list_elem_of_filter in Hk0 as [Hvalid%Is_true_true Hk0%elem_of_Items].
  simpl in Hvalid.
  destruct (Hwf k0) as (i0 & Hi0 & ->); [eauto|done|].
  assert (i0 = imax) as ->.
  { assert (i0 ≤ imax) by (apply Hle; eauto).
    destruct (decide (i0 = imax)) as [|Hne]; [done|].
    apply StronglySorted_cons in Hsorted as [Hrest _].
    rewrite Forall_forall in Hrest.
    apply elem_of_cons in Hin as [Heq|Hin].
    - pose proof (f_equal fst Heq) as Heq'. cbn [fst] in Heq'.
      by apply txindex_key_inj in Heq'.
    - specialize (Hrest _ Hin). unfold flip, key_lt in Hrest. simpl in Hrest.
      destruct (bytes_lt_irrefl (DbTxindexPublicKeyIndexToTxnKey pk imax)).
      eapply bytes_lt_trans; [exact Hrest|]. apply txindex_key_lt; lia. }
  cbn zeta. unfold DbTxindexPublicKeyIndexToTxnKey.
  rewrite drop_app_length. cbn [length _EncodeUint32 Nat.ltb Nat.leb].
  change (take 4 (_EncodeUint32 imax)) with (_EncodeUint32 imax ++ []).
  rewrite DecodeUint32_EncodeUint32, (N.mod_small imax) by done. done.
Qed.

Section next_index.
Context `{Externals}.

Lemma next_index_without_counter txn pk :
  view txn !! _DbTxindexPublicKeyNextIndexPrefix pk = None →
  _DbGetTxindexNextIndexForPublicKeyWithTxn txn pk
  = Some (_DbGetTxindexNextIndexForPublicKeBySeekWithTxn txn pk).
Proof.
  intros Hc. unfold _DbGetTxindexNextIndexForPublicKeyWithTxn.
  rewrite txn_Get_lookup by done. by rewrite Hc.
Qed.

Lemma txindex_holds_present txn pk txIDs i :
  txindex_holds txn pk txIDs → i < 2 ^ 32 →
  is_Some (view txn !! DbTxindexPublicKeyIndexToTxnKey pk i)
  ↔ (N.to_nat i < length txIDs)%nat.
Proof.
  intros Hh Hi. rewrite (Hh i Hi), fmap_is_Some. apply lookup_lt_is_Some.
Qed.

Lemma seek_of_list txn pk txIDs :
  txindex_wf txn pk → txindex_holds txn pk txIDs →
  N.of_nat (length txIDs) < 2 ^ 32 →
  _DbGetTxindexNextIndexForPublicKeBySeekWithTxn txn pk = N.of_nat (length txIDs).
Proof.
  intros Hwf Hh Hlen. destruct (decide (length txIDs = 0%nat)) as [Hz|Hnz].
  - rewrite Hz. apply seek_no_entries; [done|]. intros i Hi.
    apply eq_None_not_Some. rewrite txindex_holds_present by done. lia.
  - rewrite (seek_largest_entry txn pk (N.of_nat (length txIDs) - 1)); try done.
    + rewrite N.mod_small; lia.
    + lia.
    + apply (txindex_holds_present _ _ txIDs); [done|lia|lia].
    + intros i Hi Hp. apply (txindex_holds_present _ _ txIDs) in Hp; [lia|done..].
Qed.

(** C9, as the code has it.  With the counter key absent and the owner's
    prefix holding only entries of the owner, the next-index query scans
    backwards and returns 0 when the owner has no entry, and otherwise one
    plus the largest stored index reduced modulo [2^32] (the sum is taken
    on [uint32]).  Hence, for an owner whose entries are exactly the
    indices below [n < 2^32] and whose query returns [n], deleting the
    counter key leaves the answer of the query the same. *)
Theorem next_index_fallback (txn : Txn) (pk : list byte) :
  txindex_wf txn pk →
  (view txn !! _DbTxindexPublicKeyNextIndexPrefix pk = None →
   ((∀ i, i < 2 ^ 32 → view txn !! DbTxindexPublicKeyIndexToTxnKey pk i = None) →
    _DbGetTxindexNextIndexForPublicKeyWithTxn txn pk = Some 0)
   ∧ (∀ imax,
        imax < 2 ^ 32 →
        is_Some (view txn !! DbTxindexPublicKeyIndexToTxnKey pk imax) →
        (∀ i, i < 2 ^ 32 →
              is_Some (view txn !! DbTxindexPublicKeyIndexToTxnKey pk i) → i ≤ imax) →
        _DbGetTxindexNextIndexForPublicKeyWithTxn txn pk
        = Some ((imax + 1) mod 2 ^ 32)))
  ∧ (∀ txIDs txn',
       txindex_holds txn pk txIDs →
       N.of_nat (length txIDs) < 2 ^ 32 →
       _DbGetTxindexNextIndexForPublicKeyWithTxn txn pk
       = Some (N.of_nat (length txIDs)) →
       DbDeleteTxindexNextIndexForPublicKeyWithTxn pk txn = (txn', Ok tt) →
       _DbGetTxindexNextIndexForPublicKeyWithTxn txn' pk
       = _DbGetTxindexNextIndexForPublicKeyWithTxn txn pk).
Proof.
  intros Hwf. split.
  - intros Hc. rewrite next_index_without_counter by done. split.
    + intros Hnone. f_equal. by apply seek_no_entries.
    + intros imax Himax Hpres Hle. f_equal. by apply seek_largest_entry.
  - intros txIDs txn' Hh Hlen Hq Hdel. rewrite Hq.
    unfold DbDeleteTxindexNextIndexForPublicKeyWithTxn, txn_Delete in Hdel.
    apply txn_modify_inv in Hdel as [(_ & _ & _ & _ & _ & Hv)|(e & [=] & _)].
    rewrite next_index_without_counter by (rewrite Hv; apply lookup_delete_eq).
    f_equal. apply seek_of_list; [| |done].
    + intros k [v Hk] Hvalid. apply (Hwf k); [|done].
      rewrite Hv in Hk. apply lookup_delete_Some in Hk as [_ Hk]. eauto.
    + intros i Hi. rewrite Hv, lookup_delete_ne by (symmetry; apply txindex_key_counter).
      by apply Hh.
Qed.

End next_index.

(** ** Removing a transaction from an owner's list (claim C8) *)

Lemma fit_bytes_of {n} (a : bytesN n) : fit n (bytes_of a) = a.
Proof.
  apply bytesN_eq. simpl. rewrite take_ge by (by rewrite bytes_len).
  rewrite bytes_len, Nat.sub_diag. apply app_nil_r.
Qed.

Lemma filter_Items_unique m p l :
  StronglySorted key_lt l →
  (∀ k v, (k, v) ∈ l ↔ m !! k = Some v ∧ HasPrefix k p = true) →
  filter (λ kv, HasPrefix kv.1 p) (Items m) = l.
Proof.
  intros Hs Hl. apply (StronglySorted_unique_strong key_lt).
  - intros x1 x2 _ _ H1 H2. destruct (bytes_lt_irrefl x1.1).
    by apply (bytes_lt_trans _ x2.1).
  - apply StronglySorted_filter, Items_sorted.
  - done.
  - apply NoDup_Permutation.
    + apply key_lt_sorted_NoDup, StronglySorted_filter, Items_sorted.
    + by apply key_lt_sorted_NoDup.
    + intros [k v]. rewrite list_elem_of_filter, elem_of_Items, Hl. simpl.
      rewrite Is_true_true. tauto.
Qed.

Lemma elem_of_txindex_entries pk start txIDs k v :
  (k, v) ∈ txindex_entries pk start txIDs
  ↔ ∃ j txID, txIDs !! j = Some txID
              ∧ k = DbTxindexPublicKeyIndexToTxnKey pk (N.of_nat (start + j))
              ∧ v = bytes_of txID.
Proof.
  revert start. induction txIDs as [|x xs IH]; intros start; simpl.
  - rewrite elem_of_nil. split; [done|]. by intros (j & txID & ? & _).
  - rewrite elem_of_cons, IH. split.
    + intros [[= -> ->]|(j & txID & Hj & -> & ->)].
      * exists 0%nat, x. by rewrite Nat.add_0_r.
      * exists (S j), txID. split_and!; [done| |done]. do 2 f_equal. lia.
    + intros ([|j] & txID & Hj & -> & ->); simpl in Hj.
      * left. simplify_eq. by rewrite Nat.add_0_r.
      * right. exists j, txID. split_and!; [done| |done]. do 2 f_equal. lia.
Qed.

Lemma txindex_entries_sorted pk start txIDs :
  N.of_nat (start + length txIDs) ≤ 2 ^ 32 →
  StronglySorted key_lt (txindex_entries pk start txIDs).
Proof.
  revert start. induction txIDs as [|x xs IH]; intros start Hlen; simpl in *.
  - constructor.
  - constructor; [apply IH; lia|].
    apply Forall_forall. intros [k v] (j & txID & Hj & -> & ->)%elem_of_txindex_entries.
    apply lookup_lt_Some in Hj. unfold key_lt. simpl.
    apply txindex_key_lt; lia.
Qed.

Lemma txindex_entries_values pk start txIDs :
  fit 32 <$> (txindex_entries pk start txIDs).*2 = txIDs.
Proof.
  revert start. induction txIDs as [|x xs IH]; intros start; simpl; [done|].
  by rewrite fit_bytes_of, IH.
Qed.

Lemma _enumerateKeysForPrefix_loop_spec prefix it ks vs :
  _enumerateKeysForPrefix_loop prefix it ks vs
  = Ok (ks ++ (takeWhile (valid prefix) it).*1, vs ++ (takeWhile (valid prefix) it).*2).
Proof.
  revert ks vs. induction it as [|[key val] it IH]; intros ks vs; simpl.
  { by rewrite !app_nil_r. }
  unfold valid at 1 3; simpl. destruct (HasPrefix key prefix); simpl.
  - rewrite IH. by rewrite <- !app_assoc.
  - by rewrite !app_nil_r.
Qed.

(** The stored entries of an owner, as the forward scan sees them. *)
Lemma txindex_scan txn pk txIDs :
  txindex_wf txn pk → txindex_holds txn pk txIDs →
  N.of_nat (length txIDs) ≤ 2 ^ 32 →
  filter (λ kv, HasPrefix kv.1 (DbTxindexPublicKeyPrefix pk)) (Items (view txn))
  = txindex_entries pk 0 txIDs.
Proof.
  intros Hwf Hh Hlen.
  apply filter_Items_unique.
  { by apply txindex_entries_sorted. }
  intros k v. rewrite elem_of_txindex_entries. split.
  - intros (j & txID & Hj & -> & ->). simpl.
    pose proof (lookup_lt_Some _ _ _ Hj).
    rewrite Hh by lia. rewrite Nat2N.id, Hj. split; [done|].
    apply txindex_key_valid.
  - intros [Hk Hvalid].
    destruct (Hwf k) as (i & Hi & ->); [eauto|done|].
    rewrite Hh in Hk by done.
    destruct (txIDs !! N.to_nat i) as [txID|] eqn:Hi'; [|done].
    exists (N.to_nat i), txID. simpl in *. rewrite N2Nat.id. by simplify_eq.
Qed.

Lemma DbGetTxindexTxnsForPublicKeyWithTxn_spec txn pk txIDs :
  txindex_wf txn pk → txindex_holds txn pk txIDs →
  N.of_nat (length txIDs) ≤ 2 ^ 32 →
  DbGetTxindexTxnsForPublicKeyWithTxn txn pk = txIDs.
Proof.
  intros Hwf Hh Hlen.
  unfold DbGetTxindexTxnsForPublicKeyWithTxn, _enumerateKeysForPrefixWithTxn.
  rewrite _enumerateKeysForPrefix_loop_spec, Seek_forward_valid. cbn [app].
  rewrite (txindex_scan txn pk txIDs) by done.
  apply txindex_entries_values.
Qed.

Lemma remove_txID_first txID txIDs i :
  txIDs !! i = Some txID → txID ∉ take i txIDs →
  remove_txID txID txIDs = delete i txIDs.
Proof.
  revert i. induction txIDs as [|x xs IH]; intros [|i]; simpl; try done.
  - intros [= ->] _. by rewrite decide_True.
  - intros Hi Hnot. apply not_elem_of_cons in Hnot as [Hne Hnot].
    rewrite decide_False by done. f_equal. by apply IH.
Qed.

Lemma forM_Delete_inv (g : nat → list byte) l txn txn1 :
  forM_ l (λ i, txn_Delete (g i)) txn = (txn1, Ok tt) →
  (∀ i, i ∈ l → view txn1 !! g i = None)
  ∧ (∀ k, (∀ i, i ∈ l → k ≠ g i) → view txn1 !! k = view txn !! k).
Proof.
  revert txn. induction l as [|x l IH]; intros txn; simpl.
  - intros [= <-]. split; [by intros i ?%elem_of_nil|done].
  - unfold bind. destruct (txn_Delete (g x) txn) as [txn0 r] eqn:E.
    apply txn_modify_inv in E as [(-> & _ & _ & _ & _ & Hv)|(e & -> & ->)]; [|done].
    intros [Hin Hout]%IH. split.
    + intros i [->|Hi]%elem_of_cons; [|by apply Hin].
      destruct (decide (g x ∈ g <$> l)) as [(j & -> & Hj)%list_elem_of_fmap|Hno].
      * by apply Hin.
      * rewrite Hout, Hv; [apply lookup_delete_eq|].
        intros j Hj Heq. apply Hno, list_elem_of_fmap. eauto.
    + intros k Hk. rewrite Hout by (intros j Hj; apply Hk; by right).
      rewrite Hv. apply lookup_delete_ne. symmetry. apply Hk. left.
Qed.

Section txindex_delete.
Context `{Externals}.

Lemma DbPutTxindexPublicKeyToTxnMappingSingleWithTxn_inv pk txID txn txn' n :
  _DbGetTxindexNextIndexForPublicKeyWithTxn txn pk = Some n →
  DbPutTxindexPublicKeyToTxnMappingSingleWithTxn pk txID txn = (txn', Ok tt) →
  view txn' =
    <[DbTxindexPublicKeyIndexToTxnKey pk (n mod 2 ^ 32) := bytes_of txID]>
      (<[_DbTxindexPublicKeyNextIndexPrefix pk := UintToBuf ((n + 1) mod 2 ^ 64)]>
         (view txn)).
Proof.
  intros Hq. unfold DbPutTxindexPublicKeyToTxnMappingSingleWithTxn. rewrite Hq.
  unfold bind, DbPutTxindexNextIndexForPublicKeyWithTxn, txn_Set.
  destruct (txn_modify _ _ txn) as [txn0 r] eqn:E.
  apply txn_modify_inv in E as [(-> & _ & _ & _ & _ & Hv)|(e & -> & ->)]; [|done].
  intros [(_ & _ & _ & _ & _ & Hv')|(e & [=] & _)]%txn_modify_inv.
  by rewrite Hv', Hv.
Qed.

(** Appending to a list that is in step with its counter. *)
Lemma txindex_append_loop pk ys done txn txn' :
  txindex_wf txn pk → txindex_holds txn pk done →
  _DbGetTxindexNextIndexForPublicKeyWithTxn txn pk = Some (N.of_nat (length done)) →
  N.of_nat (length done + length ys) ≤ 2 ^ 32 →
  (∀ j, (length done < j ≤ length done + length ys)%nat →
        ∃ z, Uvarint (UintToBuf (N.of_nat j)) = (N.of_nat j, z) ∧ (0 < z)%Z) →
  forM_ ys (DbPutTxindexPublicKeyToTxnMappingSingleWithTxn pk) txn = (txn', Ok tt) →
  txindex_wf txn' pk ∧ txindex_holds txn' pk (done ++ ys)
  ∧ _DbGetTxindexNextIndexForPublicKeyWithTxn txn' pk
    = Some (N.of_nat (length (done ++ ys))).
Proof.
  revert done txn. induction ys as [|y ys IH]; intros done txn Hwf Hh Hq Hlen Hvar; simpl.
  { intros [= <-]. by rewrite app_nil_r. }
  unfold bind.
  destruct (DbPutTxindexPublicKeyToTxnMappingSingleWithTxn pk y txn)
    as [txn0 [[]|e]] eqn:E; [|done].
  apply (DbPutTxindexPublicKeyToTxnMappingSingleWithTxn_inv _ _ _ _ _ Hq) in E.
  simpl in Hlen.
  rewrite !N.mod_small in E by lia.
  intros Hrest. rewrite (assoc_L (++) done [y] ys : done ++ y :: ys = (done ++ [y]) ++ ys).
  apply (IH (done ++ [y]) txn0); try done.
  - intros k [v Hk] Hvalid. rewrite E in Hk.
    apply lookup_insert_Some in Hk as [[<- _]|[_ Hk]]; [exists (N.of_nat (length done)); split; [lia|done]|].
    apply lookup_insert_Some in Hk as [[<- _]|[_ Hk]]; [done|].
    apply Hwf; eauto.
  - intros i Hi. rewrite E.
    destruct (decide (i = N.of_nat (length done))) as [->|Hne].
    + rewrite lookup_insert_eq, Nat2N.id.
      by rewrite lookup_app_r, Nat.sub_diag by done.
    + rewrite lookup_insert_ne by (intros Heq%txindex_key_inj; [done|lia|done]).
      rewrite lookup_insert_ne by (symmetry; apply txindex_key_counter).
      rewrite Hh by done.
      destruct (decide (N.to_nat i < length done)%nat).
      * by rewrite lookup_app_l.
      * rewrite !lookup_ge_None_2; [done| |lia]. rewrite length_app. simpl. lia.
  - unfold _DbGetTxindexNextIndexForPublicKeyWithTxn.
    rewrite txn_Get_lookup by done. rewrite E.
    rewrite lookup_insert_ne by apply txindex_key_counter.
    rewrite lookup_insert_eq.
    destruct (Hvar (S (length done))) as (z & Hz & Hpos); [simpl; lia|].
    replace (N.of_nat (length done) + 1) with (N.of_nat (S (length done))) by lia.
    rewrite Hz. replace (z <=? 0)%Z with false by lia.
    do 2 f_equal. rewrite length_app. simpl. lia.
  - rewrite length_app. simpl. lia.
  - intros j Hj. apply Hvar. rewrite length_app in Hj. simpl in *. lia.
Qed.

(** C8. Let the owner's list hold [txIDs] at the contiguous indices from 0
    (at most [2^32] entries, the indices being [uint32]), let [txID] be
    its [i]-th item and not occur before, and let the varint codec read
    back the counters it writes.  When
    [DbDeleteTxindexPublicKeyToTxnMappingSingleWithTxn(owner, txID)]
    succeeds, enumerating the list yields the original sequence without
    its [i]-th item, held at contiguous indices from 0 in the original
    order. *)
Theorem txindex_delete_single (txn txn' : Txn) (pk : list byte)
    (txIDs : list BlockHash) (i : nat) (txID : BlockHash) :
  txindex_wf txn pk →
  txindex_holds txn pk txIDs →
  N.of_nat (length txIDs) ≤ 2 ^ 32 →
  txIDs !! i = Some txID →
  txID ∉ take i txIDs →
  (∀ j, (0 < j < length txIDs)%nat →
        ∃ z, Uvarint (UintToBuf (N.of_nat j)) = (N.of_nat j, z) ∧ (0 < z)%Z) →
  DbDeleteTxindexPublicKeyToTxnMappingSingleWithTxn pk txID txn = (txn', Ok tt) →
  DbGetTxindexTxnsForPublicKeyWithTxn txn' pk = delete i txIDs
  ∧ txindex_holds txn' pk (delete i txIDs)
  ∧ txindex_wf txn' pk.
Proof.
  intros Hwf Hh Hlen Hi Hfirst Hvar.
  unfold DbDeleteTxindexPublicKeyToTxnMappingSingleWithTxn.
  rewrite (DbGetTxindexTxnsForPublicKeyWithTxn_spec txn pk txIDs) by done.
  rewrite (remove_txID_first txID txIDs i) by done.
  pose proof (lookup_lt_Some _ _ _ Hi) as Hi'.
  assert (length (delete i txIDs) = pred (length txIDs)) as Hdl.
  { rewrite length_delete by eauto. lia. }
  unfold bind at 1.
  destruct (forM_ (seq 0 (length txIDs)) _ txn) as [txn1 [[]|e]] eqn:E1; [|done].
  apply forM_Delete_inv in E1 as [Hgone Hkept].
  unfold bind at 1.
  destruct (DbDeleteTxindexNextIndexForPublicKeyWithTxn pk txn1) as [txn2 r] eqn:E2.
  apply txn_modify_inv in E2 as [(-> & _ & _ & _ & _ & Hv2)|(e & -> & ->)]; [|done].
  intros Hadd.
  assert (∀ j, j < 2 ^ 32 →
            view txn2 !! DbTxindexPublicKeyIndexToTxnKey pk j = None) as Hnone.
  { intros j Hj. rewrite Hv2, lookup_delete_ne by (symmetry; apply txindex_key_counter).
    destruct (decide (N.to_nat j < length txIDs)%nat) as [Hlt|Hge].
    - specialize (Hgone (N.to_nat j)). simpl in Hgone.
      rewrite N2Nat.id, N.mod_small in Hgone by done.
      apply Hgone, elem_of_seq. lia.
    - rewrite Hkept.
      + rewrite Hh by done. by rewrite lookup_ge_None_2 by lia.
      + intros k [_ Hk]%elem_of_seq Heq. rewrite N.mod_small in Heq by lia.
        apply txindex_key_inj in Heq; [lia|done|lia]. }
  assert (txindex_wf txn2 pk) as Hwf2.
  { intros k [v Hk] Hvalid.
    rewrite Hv2 in Hk. apply lookup_delete_Some in Hk as [_ Hk].
    destruct (decide (k ∈ (λ j, DbTxindexPublicKeyIndexToTxnKey pk
                                  (N.of_nat j `mod` 2 ^ 32)) <$> seq 0 (length txIDs)))
      as [(j & -> & Hj)%list_elem_of_fmap|Hno].
    - by rewrite Hgone in Hk.
    - rewrite Hkept in Hk
        by (intros j Hj Heq; apply Hno, list_elem_of_fmap; eauto).
      eauto. }
  destruct (txindex_append_loop pk (delete i txIDs) [] txn2 txn') as (Hwf' & Hh' & _);
    try done.
  - rewrite next_index_without_counter by (rewrite Hv2; apply lookup_delete_eq).
    f_equal. by apply seek_no_entries.
  - simpl. lia.
  - intros j Hj. apply Hvar. simpl in Hj. lia.
  - split_and!; [|done..].
    apply DbGetTxindexTxnsForPublicKeyWithTxn_spec; [done..|lia].
Qed.

End txindex_delete.

(** ** Rebuilding the block index (claims C5 and C6) *)

Lemma StronglySorted_imap {A B} (R : relation B) (f : nat → A → B) (l : list A) :
  (∀ i j x y, (i < j)%nat → l !! i = Some x → l !! j = Some y → R (f i x) (f j y)) →
  StronglySorted R (imap f l).
Proof.
  revert f. induction l as [|a l IH]; intros f Hf; simpl; constructor.
  - apply IH. intros i j x y Hij Hi Hj. apply (Hf (S i) (S j)); [lia|done..].
  - apply Forall_forall. intros b (i & y & -> & Hi)%elem_of_lookup_imap.
    apply (Hf 0%nat (S i)); [lia|done..].
Qed.

Section block_index.
Context `{Externals}.

Lemma DeserializeBlockNode_Parent data node :
  DeserializeBlockNode data = Ok node → Parent node = None.
Proof.
  unfold DeserializeBlockNode. intros Hd.
  repeat (case_match; try done). by simplify_eq.
Qed.

Lemma node_key_valid height hash bitcoinNodes :
  HasPrefix (_heightHashToNodeIndexKey height hash bitcoinNodes)
    (_heightHashToNodeIndexPrefix bitcoinNodes) = true.
Proof.
  unfold _heightHashToNodeIndexKey. cbn zeta. rewrite <- app_assoc. apply HasPrefix_app.
Qed.

Lemma node_key_lt h h' hash hash' bitcoinNodes :
  h < h' → h' < 2 ^ 32 →
  bytes_lt (_heightHashToNodeIndexKey h hash bitcoinNodes)
    (_heightHashToNodeIndexKey h' hash' bitcoinNodes).
Proof.
  intros Hlt Hh'. unfold _heightHashToNodeIndexKey, bytes_lt. cbn zeta.
  rewrite <- !app_assoc, bytes_compare_app.
  apply bytes_compare_same_length_app; [done|]. by apply _EncodeUint32_lt.
Qed.

Lemma GetBlockIndex_loop_takeWhile prefix it heap blockIndex :
  GetBlockIndex_loop prefix it heap blockIndex
  = GetBlockIndex_loop prefix (takeWhile (valid prefix) it) heap blockIndex.
Proof.
  revert heap blockIndex. induction it as [|[key val] it IH]; intros heap bi; [done|].
  cbn [takeWhile GetBlockIndex_loop]. unfold valid at 1. cbn [fst].
  destruct (HasPrefix key prefix) eqn:Hv; [|done].
  cbn [GetBlockIndex_loop negb]. rewrite Hv. cbn [negb].
  destruct (DeserializeBlockNode val) as [node|e]; [|done].
  cbn zeta. destruct (_ || _); [apply IH|].
  destruct (_ !! _); [apply IH|done].
Qed.

Lemma GetBlockIndex_loop_app prefix pre rest heap blockIndex :
  Forall (λ kv, valid prefix kv = true) pre →
  GetBlockIndex_loop prefix (pre ++ rest) heap blockIndex
  = match GetBlockIndex_loop prefix pre heap blockIndex with
    | Ok (heap', blockIndex') => GetBlockIndex_loop prefix rest heap' blockIndex'
    | Err e => Err e
    end.
Proof.
  revert heap blockIndex. induction pre as [|[key val] pre IH]; intros heap bi Hv; [done|].
  apply Forall_cons in Hv as [Hkey Hv]. unfold valid in Hkey. cbn [fst] in Hkey.
  cbn [app GetBlockIndex_loop]. rewrite Hkey. cbn [negb].
  destruct (DeserializeBlockNode val) as [node|e]; [|done].
  cbn zeta. destruct (_ || _); [by apply IH|].
  destruct (_ !! _); [by apply IH|done].
Qed.

(** One visit of the loop, on a valid key whose value decodes. *)
Lemma GetBlockIndex_loop_step prefix key val it heap blockIndex node :
  HasPrefix key prefix = true → DeserializeBlockNode val = Ok node →
  GetBlockIndex_loop prefix ((key, val) :: it) heap blockIndex
  = if (Height node =? 0) || bool_decide (PrevBlockHash (Header node) = BlockHash_zero)
    then GetBlockIndex_loop prefix it (heap ++ [node])
           (<[Hash node := length heap]> blockIndex)
    else match <[Hash node := length heap]> blockIndex !! PrevBlockHash (Header node) with
         | Some parent =>
             GetBlockIndex_loop prefix it
               (alter (set_Parent (Some parent)) (length heap) (heap ++ [node]))
               (<[Hash node := length heap]> blockIndex)
         | None => Err (Errorf "GetBlockIndex: Could not find parent for blockNode")
         end.
Proof. intros Hv Hd. cbn [GetBlockIndex_loop]. by rewrite Hv, Hd. Qed.

(** C6. While [GetBlockIndex] scans, take the item it visits after the
    items [pre], with a value that decodes to [node]; the map then holds
    the nodes of [pre] and [node] itself.  If the height of [node] is not
    0, its previous hash is not all zero and is not in the map, then
    [GetBlockIndex] returns an error.  If its height is 0 or its previous
    hash is all zero, no parent is looked up and the scan goes on with
    the next item. *)
Theorem orphan_node_aborts (db : DB) (bitcoinNodes : bool)
    (pre post : list (list byte * list byte)) (key val : list byte)
    (node : BlockNode) (heap : list BlockNode) (blockIndex : gmap BlockHash nat) :
  let prefix := _heightHashToNodeIndexPrefix bitcoinNodes in
  Seek false (contents db) prefix = pre ++ (key, val) :: post →
  Forall (λ kv, valid prefix kv = true) pre →
  GetBlockIndex_loop prefix pre [] ∅ = Ok (heap, blockIndex) →
  HasPrefix key prefix = true →
  DeserializeBlockNode val = Ok node →
  (Height node ≠ 0 →
   PrevBlockHash (Header node) ≠ BlockHash_zero →
   <[Hash node := length heap]> blockIndex !! PrevBlockHash (Header node) = None →
   GetBlockIndex db bitcoinNodes
   = Err (Wrapf (Errorf "GetBlockIndex: Could not find parent for blockNode")
            "GetBlockIndex: Problem reading block index from db"))
  ∧ (Height node = 0 ∨ PrevBlockHash (Header node) = BlockHash_zero →
     GetBlockIndex_loop prefix (pre ++ (key, val) :: post) [] ∅
     = GetBlockIndex_loop prefix post (heap ++ [node])
         (<[Hash node := length heap]> blockIndex)).
Proof.
  intros prefix Hseek Hpre Hloop Hkey Hd.
  assert (GetBlockIndex_loop prefix (pre ++ (key, val) :: post) [] ∅
          = GetBlockIndex_loop prefix ((key, val) :: post) heap blockIndex) as Hgo.
  { by rewrite GetBlockIndex_loop_app, Hloop. }
  rewrite Hgo, (GetBlockIndex_loop_step _ _ _ _ _ _ node) by done. split.
  - intros Hh Hp Hnone. unfold GetBlockIndex, View. cbn [view NewTransaction].
    fold prefix. rewrite Hseek, Hgo, (GetBlockIndex_loop_step _ _ _ _ _ _ node) by done.
    apply N.eqb_neq in Hh. rewrite Hh, bool_decide_false, Hnone by done.
    done.
  - intros [Hh|Hp].
    + apply N.eqb_eq in Hh. by rewrite Hh.
    + by rewrite (bool_decide_true _ Hp), orb_true_r.
Qed.


Lemma chain_wf_app chain x : chain_wf (chain ++ [x]) → chain_wf chain.
Proof.
  intros (Hlen & Hnodes & Hlink). rewrite length_app in Hlen. simpl in Hlen.
  split_and!.
  - lia.
  - intros h node v Hh. apply Hnodes. by apply lookup_app_l_Some.
  - intros h node v node' v' Hh Hh'.
    apply (Hlink h node v node' v'); by apply lookup_app_l_Some.
Qed.

Lemma chain_entries_valid bitcoinNodes chain :
  Forall (λ kv, valid (_heightHashToNodeIndexPrefix bitcoinNodes) kv = true)
    (chain_entries bitcoinNodes chain).
Proof.
  apply Forall_forall. intros kv (h & nv & -> & _)%elem_of_lookup_imap.
  apply node_key_valid.
Qed.

Lemma chain_entries_scan db bitcoinNodes chain :
  chain_wf chain → block_index_holds db bitcoinNodes chain →
  filter (λ kv, HasPrefix kv.1 (_heightHashToNodeIndexPrefix bitcoinNodes))
    (Items (contents db))
  = chain_entries bitcoinNodes chain.
Proof.
  intros (Hlen & _ & _) Hholds. apply filter_Items_unique.
  - apply StronglySorted_imap. intros i j x y Hij Hi Hj. unfold key_lt. cbn [fst].
    apply lookup_lt_Some in Hj. apply node_key_lt; lia.
  - intros k v. unfold block_index_holds in Hholds. rewrite Hholds.
    unfold chain_entries. rewrite elem_of_lookup_imap.
    split.
    + intros (h & [node v'] & [= -> ->] & Hh). eauto.
    + intros (h & node & Hh & ->). exists h, (node, v). eauto.
Qed.

(** The state of the loop after the items of a chain. *)
Lemma GetBlockIndex_loop_chain bitcoinNodes chain :
  chain_wf chain →
  NoDup ((λ nv, Hash nv.1) <$> chain) →
  (∀ h node v, chain !! S h = Some (node, v) →
               PrevBlockHash (Header node) ≠ BlockHash_zero) →
  ∃ blockIndex,
    GetBlockIndex_loop (_heightHashToNodeIndexPrefix bitcoinNodes)
      (chain_entries bitcoinNodes chain) [] ∅
    = Ok (linked chain, blockIndex)
    ∧ (∀ hash p, blockIndex !! hash = Some p
                 ↔ ∃ node v, chain !! p = Some (node, v) ∧ Hash node = hash)
    ∧ size blockIndex = length chain.
Proof.
  induction chain as [|[node v] chain IH] using rev_ind; intros Hwf Hnd Hnz.
  { exists ∅. split_and!; [done| |done]. intros hash p. rewrite lookup_empty.
    split; [done|]. by intros (? & ? & ? & _). }
  destruct IH as (bi & Hloop & Hbi & Hsize).
  { by apply chain_wf_app in Hwf. }
  { rewrite fmap_app in Hnd. by apply NoDup_app in Hnd as [? _]. }
  { intros h node' v' Hh. apply (Hnz h node' v'). by apply lookup_app_l_Some. }
  destruct Hwf as (Hlen & Hnodes & Hlink).
  destruct (Hnodes (length chain) node v) as (Hd & Hheight & _).
  { by rewrite lookup_app_r, Nat.sub_diag by done. }
  assert (∀ p node' v', chain !! p = Some (node', v') → Hash node' ≠ Hash node)
    as Hfresh.
  { intros p node' v' Hp Heq. rewrite fmap_app in Hnd.
    apply NoDup_app in Hnd as (_ & Hnd & _). apply (Hnd (Hash node')).
    - apply list_elem_of_fmap. exists (node', v'). split; [done|].
      by apply list_elem_of_lookup_2 in Hp.
    - rewrite Heq. simpl. left. }
  exists (<[Hash node := length chain]> bi).
  assert (length (linked chain) = length chain) as Hll by apply length_imap.
  split_and!.
  - unfold chain_entries. rewrite imap_app. cbn [imap]. rewrite Nat.add_0_r.
    rewrite GetBlockIndex_loop_app by apply chain_entries_valid.
    fold (chain_entries bitcoinNodes chain). rewrite Hloop. cbn [snd fst].
    rewrite (GetBlockIndex_loop_step _ _ _ _ _ _ node) by (done || apply node_key_valid).
    rewrite Hll. unfold linked at 3. rewrite imap_app. cbn [imap fst].
    rewrite Nat.add_0_r. fold (linked chain).
    destruct chain as [|nv0 chain0 _] using rev_ind.
    + simpl in Hheight. rewrite Hheight. simpl.
      pose proof (DeserializeBlockNode_Parent _ _ Hd) as Hpar.
      destruct node; simpl in *; by subst.
    + destruct nv0 as [node0 v0].
      rewrite length_app in Hheight |- *. simpl in Hheight |- *.
      rewrite Nat.add_1_r in Hheight |- *.
      assert (PrevBlockHash (Header node) = Hash node0) as Hprev.
      { apply (Hlink (length chain0) node0 v0 node v).
        - rewrite <- app_assoc. by rewrite lookup_app_r, Nat.sub_diag by done.
        - rewrite lookup_app_r; rewrite length_app; simpl; [|lia].
          by replace (S (length chain0) - (length chain0 + 1))%nat with 0%nat by lia. }
      replace (Height node =? 0) with false by (symmetry; apply N.eqb_neq; lia).
      rewrite bool_decide_false.
      2:{ apply (Hnz (length chain0) node v).
          rewrite lookup_app_r; rewrite length_app; simpl; [|lia].
          by replace (S (length chain0) - (length chain0 + 1))%nat with 0%nat by lia. }
      cbn [orb]. rewrite Hprev.
      rewrite lookup_insert_ne.
      2:{ intros Heq. apply (Hfresh (length chain0) node0 v0); [|done].
          by rewrite lookup_app_r, Nat.sub_diag by done. }
      assert (bi !! Hash node0 = Some (length chain0)) as ->.
      { apply Hbi. exists node0, v0. split; [|done].
        by rewrite lookup_app_r, Nat.sub_diag by done. }
      cbn [GetBlockIndex_loop]. do 2 f_equal.
      rewrite alter_app_r_alt by (rewrite Hll, length_app; simpl; lia).
      rewrite Hll, length_app. simpl.
      by replace (S (length chain0) - (length chain0 + 1))%nat with 0%nat by lia.
  - intros hash p. rewrite lookup_insert_Some, Hbi. split.
    + intros [[<- <-]|[Hne (node' & v' & Hp & <-)]].
      * exists node, v. by rewrite lookup_app_r, Nat.sub_diag by done.
      * exists node', v'. split; [by apply lookup_app_l_Some|done].
    + intros (node' & v' & Hp & <-).
      apply lookup_app_Some in Hp as [Hp|[Hge Hp]].
      * right. split; [|eauto]. intros Heq. by apply (Hfresh p node' v').
      * apply list_lookup_singleton_Some in Hp as [Hz [= -> ->]].
        left. split; [done|lia].
  - rewrite map_size_insert_None, Hsize, length_app; [simpl; lia|].
    apply eq_None_not_Some. intros [p (node' & v' & Hp & Heq)%Hbi].
    by apply (Hfresh p node' v').
Qed.

Lemma linked_lookup chain h node v :
  chain !! h = Some (node, v) →
  linked chain !! h
  = Some (set_Parent (match h with O => None | S p => Some p end) node).
Proof. intros Hh. unfold linked. by rewrite list_lookup_imap, Hh. Qed.

Lemma GetBestChain_loop_nil fuel heap acc :
  GetBestChain_loop fuel heap None acc = Some (Ok acc).
Proof. by destruct fuel. Qed.

(** Walking down from node [j] of a linked chain collects [j], ..., [0]. *)
Lemma GetBestChain_loop_linked chain j fuel acc :
  chain_wf chain → (j < length chain)%nat → (j < fuel)%nat →
  GetBestChain_loop fuel (linked chain) (Some j) acc
  = Some (Ok (acc ++ reverse (seq 0 (S j)))).
Proof.
  intros (_ & Hnodes & _). revert fuel acc.
  induction j as [|j IH]; intros fuel acc Hj Hfuel.
  - destruct fuel as [|fuel]; [lia|]. cbn [GetBestChain_loop].
    destruct (lookup_lt_is_Some_2 chain 0%nat Hj) as [[node v] Hh].
    rewrite (linked_lookup _ _ _ _ Hh).
    destruct (Hnodes _ _ _ Hh) as (_ & _ & Hval). cbn [Status set_Parent Parent].
    replace (_ && _) with false; [by rewrite GetBestChain_loop_nil|].
    symmetry. apply andb_false_iff.
    destruct Hval as [Hval|Hval]; [left|right]; by apply N.eqb_neq.
  - destruct fuel as [|fuel]; [lia|]. cbn [GetBestChain_loop].
    destruct (lookup_lt_is_Some_2 chain (S j) Hj) as [[node v] Hh].
    rewrite (linked_lookup _ _ _ _ Hh).
    destruct (Hnodes _ _ _ Hh) as (_ & _ & Hval). cbn [Status set_Parent Parent].
    replace (_ && _) with false.
    2:{ symmetry. apply andb_false_iff.
        destruct Hval as [Hval|Hval]; [left|right]; by apply N.eqb_neq. }
    rewrite IH by lia. rewrite <- app_assoc. do 3 f_equal.
    rewrite (seq_S (S j)), reverse_app. done.
Qed.

(** C5, as the code has it.  Let the node table hold exactly the nodes of
    a chain of heights 0 to k, each above the first declaring the hash of
    the node below as its previous hash, all validated; let the hashes be
    pairwise distinct and no declared previous hash be all zero.  Then
    [GetBlockIndex] succeeds with a map of k+1 nodes, the node of height
    [h] having the node of height [h-1] as its parent, and [GetBestChain]
    from the node of height k returns the k+1 nodes in ascending height
    order. *)
Theorem chain_reconstruction (db : DB) (bitcoinNodes : bool)
    (chain : list (BlockNode * list byte)) :
  chain_wf chain →
  block_index_holds db bitcoinNodes chain →
  NoDup ((λ nv, Hash nv.1) <$> chain) →
  (∀ h node v, chain !! S h = Some (node, v) →
               PrevBlockHash (Header node) ≠ BlockHash_zero) →
  ∃ heap blockIndex,
    GetBlockIndex db bitcoinNodes = Ok (heap, blockIndex)
    ∧ size blockIndex = length chain
    ∧ (∀ h node v, chain !! h = Some (node, v) →
         blockIndex !! Hash node = Some h
         ∧ heap !! h = Some (set_Parent (match h with O => None | S p => Some p end)
                               node))
    ∧ (∀ k tip v fuel,
         chain !! k = Some (tip, v) → length chain = S k → (k < fuel)%nat →
         GetBestChain fuel heap (blockIndex !! Hash tip) blockIndex
         = Some (Ok (seq 0 (S k)))).
Proof.
  intros Hwf Hholds Hnd Hnz.
  destruct (GetBlockIndex_loop_chain bitcoinNodes chain Hwf Hnd Hnz)
    as (bi & Hloop & Hbi & Hsize).
  exists (linked chain), bi. split_and!.
  - unfold GetBlockIndex, View. cbn [view NewTransaction].
    rewrite GetBlockIndex_loop_takeWhile, Seek_forward_valid.
    by rewrite (chain_entries_scan db bitcoinNodes chain), Hloop.
  - done.
  - intros h node v Hh. split; [apply Hbi; eauto|by apply (linked_lookup _ _ _ v)].
  - intros k tip v fuel Hk Hlen Hfuel.
    assert (bi !! Hash tip = Some k) as -> by (apply Hbi; eauto).
    unfold GetBestChain. rewrite GetBestChain_loop_linked by (done || lia).
    cbn [app]. by rewrite reverse_involutive.
Qed.

End block_index.

(** * Concrete runs

    The theorems above applied to small stores, with the sample instance
    of the external functions; and the stores on which a statement of the
    specification fails. *)

Section concrete.
#[local] Existing Instance Sample.externals.

(** To compare a run with its expected outcome only the outcome is
    evaluated, not the store. *)
Lemma run_eq {A B} (x : A * B) (b : B) : x.2 = b → x = (x.1, b).
Proof. intros <-. by destruct x. Qed.

Lemma store_keys_forallb (m : gmap (list byte) (list byte))
    (f : list byte * list byte → bool) :
  forallb f (map_to_list m) = true →
  ∀ k v, m !! k = Some v → f (k, v) = true.
Proof.
  intros Hall k v Hk. apply elem_of_map_to_list, list_elem_of_In in Hk.
  rewrite forallb_forall in Hall. by apply Hall.
Qed.

(** *** Follows *)

Lemma follow_paired_empty : follow_paired Sample.emptyDB.
Proof. intros a b. simpl. by rewrite !lookup_empty. Qed.

Lemma follow_put_then_delete_witness :
  let A := Sample.pkid x01 in
  let B := Sample.pkid x02 in
  let db2 := (DbPutFollowMappings Sample.emptyDB A B).1 in
  let db3 := run_FollowOps db2 [FollowPut B A; FollowDelete B A] in
  let deleted := DbDeleteFollowMappings db3 A B in
  (is_Some (contents db3 !! _dbKeyForFollowerToFollowedMapping A B)
   ∧ is_Some (contents db3 !! _dbKeyForFollowedToFollowerMapping B A)
   ∧ DbGetFollowerToFollowedMapping db3 A B ≠ None)
  ∧ (deleted.2 = None
     ∧ contents deleted.1 !! _dbKeyForFollowerToFollowedMapping A B = None
     ∧ contents deleted.1 !! _dbKeyForFollowedToFollowerMapping B A = None
     ∧ DbGetFollowerToFollowedMapping deleted.1 A B = None)
  ∧ (∀ ops db4,
       DbDeleteFollowMappings (run_FollowOps Sample.emptyDB ops) A B = (db4, None) →
       contents db4 !! _dbKeyForFollowerToFollowedMapping A B = None
       ∧ contents db4 !! _dbKeyForFollowedToFollowerMapping B A = None).
Proof.
  intros A B db2 db3 deleted.
  apply (follow_put_then_delete Sample.emptyDB [] [FollowPut B A; FollowDelete B A]
           A B db2).
  - apply follow_paired_empty.
  - apply (run_eq (DbPutFollowMappings Sample.emptyDB A B)). vm_compute. reflexivity.
  - repeat constructor; [done|]. intros Heq.
    apply (f_equal (λ op, match op with
                          | FollowDelete a _ => head (bytes_of a)
                          | _ => None
                          end)) in Heq.
    vm_compute in Heq. discriminate Heq.
Defined.

Lemma paired_delete_idempotent_witness :
  let db := (DbPutFollowMappings Sample.emptyDB (Sample.pkid x01) (Sample.pkid x02)).1 in
  DbDeleteFollowMappings db (Sample.pkid x03) (Sample.pkid x04) = (db, None)
  ∧ DbDeleteDiamondMappings db (Sample.pkid x03) (Sample.pkid x04) (Sample.hash x05)
    = (db, None).
Proof.
  intros db.
  destruct (paired_delete_idempotent db (Sample.pkid x03) (Sample.pkid x04)
              (Sample.pkid x03) (Sample.pkid x04) (Sample.hash x05))
    as (Hfollow & Hdiamond & _ & _).
  split; [apply Hfollow|apply Hdiamond]; vm_compute; reflexivity.
Defined.

(** *** The UTXO counter *)


(** *** Scans *)

Lemma enumerate_limited_reversed_witness :
  (_enumerateLimitedKeysReversedForPrefix scan_db [x10; xff] 5).1 = [[x10; xff; xff]]
  ∧ (_enumerateLimitedKeysReversedForPrefix scan_db [x10] 2).1
    = [[x10; x01; x02]; [x10; x01; x01]]
  ∧ (_enumerateLimitedKeysReversedForPrefix scan_db [x10] 0).1 = [].
Proof.
  destruct (enumerate_limited_reversed scan_db [x10; xff] 5) as (H1 & _); [done|].
  destruct (enumerate_limited_reversed scan_db [x10] 2) as (H2 & _); [done|].
  destruct (enumerate_limited_reversed scan_db [x10] 0) as (_ & _ & _ & _ & _ & H3);
    [done|].
  split_and!.
  - rewrite H1. vm_compute. reflexivity.
  - rewrite H2. vm_compute. reflexivity.
  - by apply H3.
Defined.

Lemma reverse_pagination_full_witness :
  ∃ keys vals fkeys fvals,
    DBGetPaginatedKeysAndValuesForPrefix page_db [x10] [x10] 3 0 true true
      = Ok (keys, vals)
    ∧ DBGetPaginatedKeysAndValuesForPrefix page_db [x10] [x10] 3 0 false true
      = Ok (fkeys, fvals)
    ∧ keys = reverse fkeys
    ∧ vals = reverse fvals
    ∧ (∀ k, k ∈ keys ↔ is_Some (contents page_db !! k) ∧ HasPrefix k [x10] = true)
    ∧ NoDup keys
    ∧ StronglySorted (flip bytes_lt) keys.
Proof.
  apply (reverse_pagination_full page_db [x10] 3 true); [lia|].
  intros k [v Hk] Hp.
  pose proof (store_keys_forallb (contents page_db)
    (λ kv, implb (HasPrefix kv.1 [x10]) (length kv.1 =? 3)%nat) eq_refl k v Hk) as Hall.
  cbn [fst] in Hall. rewrite Hp in Hall. apply Nat.eqb_eq in Hall. by rewrite Hall.
Defined.

(** *** The transaction index *)

Lemma sample_varint j :
  (0 < j ≤ 3)%nat →
  ∃ z, Uvarint (UintToBuf (N.of_nat j)) = (N.of_nat j, z) ∧ (0 < z)%Z.
Proof.
  intros Hj. assert (j = 1 ∨ j = 2 ∨ j = 3)%nat as [->|[->| ->]] by lia;
    exists 1%Z; split; try done; vm_compute; reflexivity.
Qed.

Lemma appended_txn_list :
  txindex_wf appended_txn sample_pk
  ∧ txindex_holds appended_txn sample_pk sample_txIDs
  ∧ _DbGetTxindexNextIndexForPublicKeyWithTxn appended_txn sample_pk = Some 3.
Proof.
  apply (txindex_append_loop sample_pk sample_txIDs [] (NewTransaction Sample.emptyDB true)).
  - intros k [v Hk]. simpl in Hk. by rewrite lookup_empty in Hk.
  - intros i Hi. simpl. by rewrite lookup_empty.
  - vm_compute. reflexivity.
  - vm_compute. discriminate.
  - intros j Hj. apply sample_varint. simpl in Hj. lia.
  - unfold appended_txn. apply run_eq. vm_compute. reflexivity.
Qed.

Lemma txindex_delete_single_witness :
  let txn' := (DbDeleteTxindexPublicKeyToTxnMappingSingleWithTxn sample_pk
                 (Sample.hash x0b) appended_txn).1 in
  DbGetTxindexTxnsForPublicKeyWithTxn txn' sample_pk = [Sample.hash x0a; Sample.hash x0c]
  ∧ txindex_holds txn' sample_pk [Sample.hash x0a; Sample.hash x0c]
  ∧ txindex_wf txn' sample_pk.
Proof.
  intros txn'. destruct appended_txn_list as (Hwf & Hholds & _).
  apply (txindex_delete_single appended_txn txn' sample_pk sample_txIDs 1
           (Sample.hash x0b)).
  - exact Hwf.
  - exact Hholds.
  - by vm_compute.
  - reflexivity.
  - intros Hin. apply list_elem_of_In in Hin. simpl in Hin.
    destruct Hin as [Heq|[]]. apply (f_equal (λ h, head (bytes_of h))) in Heq.
    vm_compute in Heq. discriminate Heq.
  - intros j Hj. apply sample_varint. simpl in Hj. lia.
  - apply run_eq. vm_compute. reflexivity.
Defined.

Lemma next_index_fallback_witness :
  let txn' := (DbDeleteTxindexNextIndexForPublicKeyWithTxn sample_pk appended_txn).1 in
  _DbGetTxindexNextIndexForPublicKeyWithTxn appended_txn sample_pk = Some 3
  ∧ view txn' !! _DbTxindexPublicKeyNextIndexPrefix sample_pk = None
  ∧ _DbGetTxindexNextIndexForPublicKeyWithTxn txn' sample_pk = Some 3.
Proof.
  intros txn'. destruct appended_txn_list as (Hwf & Hholds & Hq).
  destruct (next_index_fallback appended_txn sample_pk Hwf) as [_ Hsame].
  split_and!; [exact Hq|vm_compute; reflexivity|].
  rewrite (Hsame sample_txIDs txn').
  - exact Hq.
  - exact Hholds.
  - by vm_compute.
  - exact Hq.
  - apply run_eq. vm_compute. reflexivity.
Defined.

(** C9 fails on the code at the largest index: the owner's only entry has
    index [2^32 - 1] and no counter is stored, and the query returns 0,
    not [2^32]. *)
Lemma next_index_wraps_counterexample :
  let txn := NewTransaction
               (MkDB {[DbTxindexPublicKeyIndexToTxnKey sample_pk 4294967295
                       := bytes_of (Sample.hash x0a)]} 100) true in
  view txn !! _DbTxindexPublicKeyNextIndexPrefix sample_pk = None
  ∧ is_Some (view txn !! DbTxindexPublicKeyIndexToTxnKey sample_pk 4294967295)
  ∧ _DbGetTxindexNextIndexForPublicKeyWithTxn txn sample_pk = Some 0
  ∧ Some 0 ≠ Some (4294967295 + 1).
Proof. vm_compute. split_and!; try done. eauto. Qed.

(** *** The block index *)

(** A store that holds the items of a chain and nothing else under the
    prefix satisfies [block_index_holds]. *)
Lemma block_index_holds_entries bitcoinNodes chain n :
  chain_wf chain →
  block_index_holds (MkDB (list_to_map (chain_entries bitcoinNodes chain)) n)
    bitcoinNodes chain.
Proof.
  intros (Hlen & _ & _) key v. cbn [contents].
  assert (NoDup (chain_entries bitcoinNodes chain).*1) as Hnd.
  { apply (StronglySorted_NoDup bytes_lt); [apply bytes_lt_irrefl|].
    apply keys_sorted_asc, StronglySorted_imap.
    intros i j x y Hij Hi Hj. unfold key_lt. cbn [fst].
    apply lookup_lt_Some in Hj. apply node_key_lt; lia. }
  rewrite <- elem_of_list_to_map by done.
  unfold chain_entries at 1. rewrite elem_of_lookup_imap. split.
  - intros [(h & [node v'] & [= -> ->] & Hh) _]. eauto.
  - intros (h & node & Hh & ->). split; [|apply node_key_valid].
    exists h, (node, v). eauto.
Qed.

Lemma good_chain_wf : chain_wf good_chain.
Proof.
  split_and!.
  - by vm_compute.
  - intros [|[|[|h]]] node v Hh; cbv [good_chain sample_stored] in Hh;
      cbn [lookup list_lookup] in Hh; [injection Hh as <- <-..|done];
      (split_and!; [vm_compute; reflexivity|done|left; by vm_compute]).
  - intros [|[|[|h]]] node v node' v' Hh Hh'; cbv [good_chain sample_stored] in Hh, Hh';
      cbn [lookup list_lookup] in Hh, Hh'; try done;
      injection Hh as <- <-; injection Hh' as <- <-; done.
Qed.

Lemma zero_hash_chain_wf : chain_wf zero_hash_chain.
Proof.
  split_and!.
  - by vm_compute.
  - intros [|[|h]] node v Hh; cbv [zero_hash_chain sample_stored] in Hh;
      cbn [lookup list_lookup] in Hh; [injection Hh as <- <-..|done];
      (split_and!; [vm_compute; reflexivity|done|left; by vm_compute]).
  - intros [|[|h]] node v node' v' Hh Hh'; cbv [zero_hash_chain sample_stored] in Hh, Hh';
      cbn [lookup list_lookup] in Hh, Hh'; try done;
      injection Hh as <- <-; injection Hh' as <- <-; done.
Qed.

Lemma sample_hash_neq (a b : byte) : a ≠ b → Sample.hash a ≠ Sample.hash b.
Proof.
  intros Hab Heq. apply Hab.
  apply (f_equal (λ h : BlockHash, head (bytes_of h))) in Heq. by simplify_eq/=.
Qed.

Lemma sample_hash_zero : Sample.hash x00 = BlockHash_zero.
Proof. by apply bytesN_eq. Qed.

Lemma chain_reconstruction_witness :
  let db := MkDB (list_to_map (chain_entries false good_chain)) 100 in
  ∃ heap blockIndex,
    GetBlockIndex db false = Ok (heap, blockIndex)
    ∧ size blockIndex = 3%nat
    ∧ GetBestChain 5 heap (blockIndex !! Sample.hash x03) blockIndex
      = Some (Ok [0; 1; 2]%nat).
Proof.
  intros db.
  destruct (chain_reconstruction db false good_chain)
    as (heap & blockIndex & Hget & Hsize & _ & Hbest).
  - apply good_chain_wf.
  - apply block_index_holds_entries, good_chain_wf.
  - cbv [good_chain sample_stored]. cbn [fmap list_fmap fst Hash sample_node].
    repeat constructor; rewrite ?elem_of_cons, ?elem_of_nil;
      intros Hin; repeat destruct Hin as [Hin|Hin]; try done;
      by apply sample_hash_neq in Hin.
  - intros [|[|h]] node v Hh; cbv [good_chain sample_stored] in Hh;
      cbn [lookup list_lookup] in Hh; try done; injection Hh as <- <-;
      cbn [Header sample_node PrevBlockHash Sample.externals fst];
      rewrite <- sample_hash_zero; by apply sample_hash_neq.
  - exists heap, blockIndex. split_and!; [done..|].
    by apply (Hbest 2%nat (sample_node (Sample.hash x03) 2 (Sample.hash x01))
                (Sample.node_bytes (Sample.hash x03) 2 (Sample.hash x01) 32) 5%nat);
      [|..|lia].
Defined.

(** C5 fails on the code when a node below the tip has the all-zero hash:
    the store holds a chain of heights 0 and 1 as the claim asks, the node
    of height 1 is not linked to its parent, and [GetBestChain] from it
    returns one node, not two. *)
Lemma zero_hash_chain_counterexample :
  let db := MkDB (list_to_map (chain_entries false zero_hash_chain)) 100 in
  chain_wf zero_hash_chain
  ∧ block_index_holds db false zero_hash_chain
  ∧ match GetBlockIndex db false with
    | Ok (heap, blockIndex) =>
        GetBestChain 5 heap (blockIndex !! Sample.hash x01) blockIndex
        = Some (Ok [1%nat])
    | Err _ => False
    end.
Proof.
  intros db. split_and!.
  - apply zero_hash_chain_wf.
  - apply block_index_holds_entries, zero_hash_chain_wf.
  - vm_compute. reflexivity.
Qed.

Lemma orphan_node_aborts_witness :
  GetBlockIndex orphan_db false
  = Err (Wrapf (Errorf "GetBlockIndex: Could not find parent for blockNode")
           "GetBlockIndex: Problem reading block index from db").
Proof.
  destruct (orphan_node_aborts orphan_db false
              [(_heightHashToNodeIndexKey 0 (Sample.hash x02) false,
                Sample.node_bytes (Sample.hash x02) 0 (Sample.hash x00) 32)]
              []
              (_heightHashToNodeIndexKey 2 (Sample.hash x03) false)
              (Sample.node_bytes (Sample.hash x03) 2 (Sample.hash x01) 32)
              (sample_node (Sample.hash x03) 2 (Sample.hash x01))
              ([] ++ [sample_node (Sample.hash x02) 0 (Sample.hash x00)])
              (<[Sample.hash x02 := 0%nat]> ∅))
    as [Habort _].
  - vm_compute. reflexivity.
  - by repeat constructor.
  - rewrite (GetBlockIndex_loop_step _ _ _ _ _ _
               (sample_node (Sample.hash x02) 0 (Sample.hash x00)));
      [reflexivity|reflexivity|vm_compute; reflexivity].
  - reflexivity.
  - vm_compute. reflexivity.
  - apply Habort.
    + done.
    + cbn [Header sample_node PrevBlockHash Sample.externals fst].
      rewrite <- sample_hash_zero. by apply sample_hash_neq.
    + vm_compute. reflexivity.
Defined.

End concrete.

(** * Further properties *)

(** * Further properties *)

(** ** Big-endian integers *)

Lemma DecodeUint64_EncodeUint64 n rest :
  DecodeUint64 (EncodeUint64 n ++ rest) = Some (n mod 2 ^ 64).
Proof.
  unfold DecodeUint64, EncodeUint64. rewrite <- app_assoc.
  rewrite DecodeUint32_EncodeUint32.
  rewrite drop_app_length' by done. rewrite DecodeUint32_EncodeUint32.
  f_equal. change (2 ^ 32) with 4294967296. change (2 ^ 64) with 18446744073709551616.
  zify. Z.to_euclidean_division_equations. lia.
Qed.

Lemma length_EncodeUint64 n : length (EncodeUint64 n) = 8%nat.
Proof. done. Qed.

(** X1.  [DecodeUint64] reads back what [EncodeUint64] wrote, whatever follows
    the eight bytes, and panics on fewer than eight bytes. *)
Theorem uint64_round_trip (n : N) (rest bs : list byte) :
  DecodeUint64 (EncodeUint64 n ++ rest) = Some (n mod 2 ^ 64)
  ∧ length (EncodeUint64 n) = 8%nat
  ∧ ((length bs < 8)%nat → DecodeUint64 bs = None)
  ∧ ((8 ≤ length bs)%nat → is_Some (DecodeUint64 bs)).
Proof.
  split_and!; [apply DecodeUint64_EncodeUint64|done|..].
  - intros Hl. unfold DecodeUint64, DecodeUint32.
    destruct bs as [|b0 [|b1 [|b2 [|b3 [|b4 [|b5 [|b6 [|b7 bs]]]]]]]];
      simpl in *; try done; lia.
  - intros Hl.
    destruct bs as [|b0 [|b1 [|b2 [|b3 [|b4 [|b5 [|b6 [|b7 bs]]]]]]]];
      simpl in *; try lia. by eexists.
Qed.

Lemma bytes_compare_app_same_length a a' b b' :
  length a = length a' →
  bytes_compare (a ++ b) (a' ++ b')
  = match bytes_compare a a' with Eq => bytes_compare b b' | c => c end.
Proof.
  revert a'. induction a as [|x a IH]; intros [|y a']; simpl; try done.
  intros [= Hl]. destruct (Byte.to_N x ?= Byte.to_N y); try done. by apply IH.
Qed.

Lemma EncodeUint64_compare i j :
  i < 2 ^ 64 → j < 2 ^ 64 →
  bytes_compare (EncodeUint64 i) (EncodeUint64 j) = (i ?= j).
Proof.
  intros Hi Hj. unfold EncodeUint64.
  assert (i / 4294967296 < 2 ^ 32) as Hhi.
  { change (2 ^ 32) with 4294967296.
    change (2 ^ 64) with 18446744073709551616 in Hi.
    zify. Z.to_euclidean_division_equations. lia. }
  assert (j / 4294967296 < 2 ^ 32) as Hhj.
  { change (2 ^ 32) with 4294967296.
    change (2 ^ 64) with 18446744073709551616 in Hj.
    zify. Z.to_euclidean_division_equations. lia. }
  rewrite bytes_compare_app_same_length by done.
  rewrite _EncodeUint32_compare by done.
  destruct (DecodeUint32_compare (_EncodeUint32 i) (_EncodeUint32 j))
    as (x & y & Hx & Hy & Hc); [done..|].
  rewrite <- (app_nil_r (_EncodeUint32 i)), DecodeUint32_EncodeUint32 in Hx.
  rewrite <- (app_nil_r (_EncodeUint32 j)), DecodeUint32_EncodeUint32 in Hy.
  simplify_eq. rewrite Hc. clear Hc.
  change (2 ^ 32) with 4294967296 in *.
  change (2 ^ 64) with 18446744073709551616 in *.
  destruct (N.compare_spec (i / 4294967296) (j / 4294967296)) as [E|E|E].
  - destruct (N.compare_spec (i mod 4294967296) (j mod 4294967296)) as [E'|E'|E'];
      symmetry.
    + apply N.compare_eq_iff. zify. Z.to_euclidean_division_equations. lia.
    + apply N.compare_lt_iff. zify. Z.to_euclidean_division_equations. lia.
    + apply N.compare_gt_iff. zify. Z.to_euclidean_division_equations. lia.
  - symmetry. apply N.compare_lt_iff. zify. Z.to_euclidean_division_equations. lia.
  - symmetry. apply N.compare_gt_iff. zify. Z.to_euclidean_division_equations. lia.
Qed.

(** X2.  Keys that embed a big-endian integer sort by its value: on [uint64]
    values (and on [uint32] values) the byte order of the encodings is the
    numeric order, and equal encodings come from equal values. *)
Theorem big_endian_order (i j : N) :
  i < 2 ^ 64 → j < 2 ^ 64 →
  bytes_compare (EncodeUint64 i) (EncodeUint64 j) = (i ?= j)
  ∧ (bytes_lt (EncodeUint64 i) (EncodeUint64 j) ↔ i < j)
  ∧ (EncodeUint64 i = EncodeUint64 j ↔ i = j)
  ∧ (i < 2 ^ 32 → j < 2 ^ 32 →
       bytes_compare (_EncodeUint32 i) (_EncodeUint32 j) = (i ?= j)).
Proof.
  intros Hi Hj. pose proof (EncodeUint64_compare i j Hi Hj) as Hc.
  split_and!; [done| | |apply _EncodeUint32_compare].
  - unfold bytes_lt. rewrite Hc. apply N.compare_lt_iff.
  - split; [|by intros ->]. intros Heq. apply N.compare_eq_iff.
    rewrite <- Hc, Heq. apply bytes_compare_refl.
Qed.

(** ** Keys of the UTXO table *)

Lemma _EncodeUint32_DecodeUint32 bs n :
  length bs = 4%nat → DecodeUint32 bs = Some n → _EncodeUint32 n = bs ∧ n < 2 ^ 32.
Proof.
  destruct bs as [|b0 [|b1 [|b2 [|b3 [|]]]]]; try done. intros _ [= <-].
  pose proof (Byte.to_N_bounded b0). pose proof (Byte.to_N_bounded b1).
  pose proof (Byte.to_N_bounded b2). pose proof (Byte.to_N_bounded b3).
  change (2 ^ 32) with 4294967296. split; [|lia].
  unfold _EncodeUint32.
  assert (∀ b x, x mod 256 = Byte.to_N b → byte_of_N x = b) as Hb.
  { intros b x Hx. apply to_N_inj. by rewrite to_N_byte_of_N. }
  f_equal; [|f_equal; [|f_equal; [|f_equal]]]; apply Hb;
    zify; Z.to_euclidean_division_equations; lia.
Qed.

Lemma _UtxoKeyFromDbKey_SerializeUtxoKey utxoKey :
  Index utxoKey < 2 ^ 32 →
  _UtxoKeyFromDbKey (_SerializeUtxoKey utxoKey) = Some utxoKey.
Proof.
  intros Hi. destruct utxoKey as [txID index]. simpl in *.
  unfold _UtxoKeyFromDbKey, _SerializeUtxoKey. simpl.
  rewrite length_app, bytes_len. simpl.
  rewrite drop_app_length' by (by rewrite bytes_len).
  rewrite <- (app_nil_r (_EncodeUint32 index)), DecodeUint32_EncodeUint32.
  rewrite N.mod_small by done.
  rewrite take_app_length' by (by rewrite bytes_len). by rewrite fit_bytes_of.
Qed.

Lemma _SerializeUtxoKey_UtxoKeyFromDbKey bs :
  length bs = 36%nat →
  ∃ utxoKey, _UtxoKeyFromDbKey bs = Some utxoKey
             ∧ _SerializeUtxoKey utxoKey = bs ∧ Index utxoKey < 2 ^ 32.
Proof.
  intros Hl. unfold _UtxoKeyFromDbKey, HashSizeBytes. rewrite Hl. simpl.
  destruct (DecodeUint32 (drop 32 bs)) as [n|] eqn:Hn.
  - apply _EncodeUint32_DecodeUint32 in Hn as [Hn Hlt];
      [|rewrite length_drop; lia].
    eexists. split; [done|]. split; [|done].
    unfold _SerializeUtxoKey. simpl. rewrite Hn.
    rewrite take_ge by (rewrite length_take; lia).
    rewrite length_take, Hl. simpl. rewrite app_nil_r.
    apply take_drop.
  - exfalso. assert (length (drop 32 bs) = 4%nat) as Hd by (rewrite length_drop; lia).
    destruct (drop 32 bs) as [|b0 [|b1 [|b2 [|b3 [|]]]]]; done.
Qed.

(** X3.  [_UtxoKeyFromDbKey] inverts [_SerializeUtxoKey] (the key without the
    table prefix): serialising a key whose index is a [uint32] and parsing
    it gives the key back, every slice of 36 bytes is the serialisation of
    the key parsed from it, and a shorter slice panics. *)
Theorem utxo_key_round_trip (utxoKey : UtxoKey) (bs : list byte) :
  Index utxoKey < 2 ^ 32 →
  _UtxoKeyFromDbKey (_SerializeUtxoKey utxoKey) = Some utxoKey
  ∧ length (_SerializeUtxoKey utxoKey) = 36%nat
  ∧ (length bs = 36%nat →
       ∃ k, _UtxoKeyFromDbKey bs = Some k ∧ _SerializeUtxoKey k = bs
            ∧ Index k < 2 ^ 32)
  ∧ ((length bs < 36)%nat → _UtxoKeyFromDbKey bs = None).
Proof.
  intros Hi. split_and!.
  - by apply _UtxoKeyFromDbKey_SerializeUtxoKey.
  - unfold _SerializeUtxoKey. by rewrite length_app, bytes_len.
  - apply _SerializeUtxoKey_UtxoKeyFromDbKey.
  - intros Hl. unfold _UtxoKeyFromDbKey.
    destruct (length bs <? HashSizeBytes)%nat eqn:E; [done|].
    apply Nat.ltb_ge in E. unfold HashSizeBytes in *.
    assert (length (drop 32 bs) < 4)%nat as Hd by (rewrite length_drop; lia).
    destruct (drop 32 bs) as [|b0 [|b1 [|b2 [|b3 ?]]]]; simpl in *; try done; lia.
Qed.

(** ** Enumerating a prefix *)

Lemma _enumerateKeysForPrefixWithTxn_spec txn p :
  _enumerateKeysForPrefixWithTxn txn p
  = Ok ((filter (λ kv, HasPrefix kv.1 p) (Items (view txn))).*1,
        (filter (λ kv, HasPrefix kv.1 p) (Items (view txn))).*2).
Proof.
  unfold _enumerateKeysForPrefixWithTxn.
  by rewrite _enumerateKeysForPrefix_loop_spec, Seek_forward_valid.
Qed.

Lemma _enumerateKeysForPrefix_spec db p :
  _enumerateKeysForPrefix db p
  = ((filter (λ kv, HasPrefix kv.1 p) (Items (contents db))).*1,
     (filter (λ kv, HasPrefix kv.1 p) (Items (contents db))).*2).
Proof.
  unfold _enumerateKeysForPrefix, View. by rewrite _enumerateKeysForPrefixWithTxn_spec.
Qed.

Lemma zip_fst_snd {A B} (l : list (A * B)) : zip l.*1 l.*2 = l.
Proof. induction l as [|[a b] l IH]; csimpl; [done|]. by rewrite IH. Qed.

(** What the enumeration through a handle finds. *)
Lemma _enumerateKeysForPrefix_found (db : DB) (p : list byte) :
  let keys := (_enumerateKeysForPrefix db p).1 in
  let vals := (_enumerateKeysForPrefix db p).2 in
  length keys = length vals
  ∧ (∀ k v, (k, v) ∈ zip keys vals ↔ contents db !! k = Some v ∧ HasPrefix k p = true)
  ∧ (∀ k, k ∈ keys ↔ is_Some (contents db !! k) ∧ HasPrefix k p = true)
  ∧ StronglySorted bytes_lt keys
  ∧ NoDup keys.
Proof.
  intros keys vals. unfold keys, vals.
  rewrite _enumerateKeysForPrefix_spec. cbn [fst snd].
  set (hits := filter _ _).
  assert (∀ k v, (k, v) ∈ hits ↔ contents db !! k = Some v ∧ HasPrefix k p = true)
    as Hhits.
  { intros k v. unfold hits. rewrite list_elem_of_filter, elem_of_Items. simpl.
    rewrite Is_true_true. tauto. }
  assert (StronglySorted bytes_lt hits.*1) as Hsorted.
  { apply keys_sorted_asc, StronglySorted_filter, Items_sorted. }
  split_and!.
  - by rewrite !length_fmap.
  - intros k v. by rewrite zip_fst_snd.
  - intros k. rewrite list_elem_of_fmap. split.
    + intros ([k' v] & -> & Hin). apply Hhits in Hin as [? ?]. eauto.
    + intros [[v Hv] Hk]. exists (k, v). split; [done|]. by apply Hhits.
  - done.
  - eapply StronglySorted_NoDup; [|done]. apply bytes_lt_irrefl.
Qed.

(** X4.  [EnumerateKeysForPrefix] returns every stored key that has the prefix
    exactly once, in ascending byte order, each with its stored value. *)
Theorem enumerate_keys_for_prefix (db : DB) (p : list byte) :
  let keys := (EnumerateKeysForPrefix db p).1 in
  let vals := (EnumerateKeysForPrefix db p).2 in
  length keys = length vals
  ∧ (∀ k v, (k, v) ∈ zip keys vals ↔ contents db !! k = Some v ∧ HasPrefix k p = true)
  ∧ (∀ k, k ∈ keys ↔ is_Some (contents db !! k) ∧ HasPrefix k p = true)
  ∧ StronglySorted bytes_lt keys
  ∧ NoDup keys.
Proof. unfold EnumerateKeysForPrefix. apply _enumerateKeysForPrefix_found. Qed.

(** ** Pages of a scan *)

(** A forward scan that seeks to a key [S] with the prefix [V] visits
    exactly the items with the prefix whose key is at least [S]. *)
Lemma Seek_forward_from m S V :
  HasPrefix S V = true →
  takeWhile (valid V) (Seek false m S)
  = filter (λ kv, bytes_le S kv.1 ∧ HasPrefix kv.1 V) (Items m).
Proof.
  intros HS. unfold Seek.
  rewrite (takeWhile_dropWhile_sorted key_lt) by
    first [ apply Items_sorted
          | intros x y Hxy Hy%bytes_ltb_lt; apply bytes_ltb_lt;
            by apply (bytes_lt_trans _ y.1)
          | intros x y Hxy Hx%bytes_ltb_ge Hy;
            apply (HasPrefix_convex S x.1 y.1 V);
            [done|done|done|apply bytes_le_lt_eq; by left] ].
  apply list_filter_iff. intros [k v]; simpl. unfold valid; simpl.
  rewrite <- bytes_ltb_ge.
  destruct (bytes_ltb k S), (HasPrefix k V); simpl; intuition congruence.
Qed.

(** The loop with a positive [numToFetch]: it stops after that many keys. *)
Lemma DBGetPaginatedKeysAndValuesForPrefix_loop_take vp numToFetch fetchValues it ks vs :
  (Z.of_nat (length ks) < numToFetch)%Z →
  DBGetPaginatedKeysAndValuesForPrefix_loop vp 0 numToFetch fetchValues it ks vs
  = Ok (ks ++ (take (Z.to_nat numToFetch - length ks) (takeWhile (valid vp) it)).*1,
        vs ++ ((λ kv, if fetchValues then kv.2 else [])
                 <$> take (Z.to_nat numToFetch - length ks) (takeWhile (valid vp) it))).
Proof.
  revert ks vs. induction it as [|[key val] it IH]; intros ks vs Hlen; simpl.
  { by rewrite take_nil, !app_nil_r. }
  unfold valid at 1 3; simpl. destruct (HasPrefix key vp) eqn:Hv; simpl.
  - rewrite length_app. simpl.
    replace (Z.to_nat numToFetch - length ks)%nat
      with (S (Z.to_nat numToFetch - (length ks + 1)))%nat by lia.
    cbn [take fmap list_fmap fst snd].
    destruct (negb (numToFetch =? 0)%Z
              && (Z.of_nat (length ks + 1) =? numToFetch)%Z) eqn:E.
    + apply andb_true_iff in E as [_ E%Z.eqb_eq].
      replace (Z.to_nat numToFetch - (length ks + 1))%nat with 0%nat by lia.
      by rewrite !take_0.
    + rewrite IH; [|rewrite length_app; simpl].
      * rewrite length_app. simpl. by rewrite <- !app_assoc.
      * apply andb_false_iff in E as [E|E%Z.eqb_neq]; [|lia].
        apply negb_false_iff, Z.eqb_eq in E. lia.
  - by rewrite take_nil, !app_nil_r.
Qed.

(** The loop with [numToFetch] zero or negative: it runs to the end. *)
Lemma DBGetPaginatedKeysAndValuesForPrefix_loop_unbounded vp numToFetch fetchValues
    it ks vs :
  (numToFetch ≤ 0)%Z →
  DBGetPaginatedKeysAndValuesForPrefix_loop vp 0 numToFetch fetchValues it ks vs
  = Ok (ks ++ (takeWhile (valid vp) it).*1,
        vs ++ ((λ kv, if fetchValues then kv.2 else []) <$> takeWhile (valid vp) it)).
Proof.
  intros Hn. revert ks vs. induction it as [|[key val] it IH]; intros ks vs; simpl.
  { by rewrite !app_nil_r. }
  unfold valid at 1 3; simpl. destruct (HasPrefix key vp) eqn:Hv; simpl.
  - replace (negb (numToFetch =? 0)%Z
             && (Z.of_nat (length (ks ++ [key])) =? numToFetch)%Z) with false.
    + rewrite IH. by rewrite <- !app_assoc.
    + symmetry. apply andb_false_iff.
      destruct (Z.eqb_spec numToFetch 0) as [->|Hne]; [by left|right].
      apply Z.eqb_neq. lia.
  - by rewrite !app_nil_r.
Qed.

(** X5.  A forward page.  With [startPrefix] a key (or prefix) [S] inside the
    range of [validForPrefix = V] and no check of the key length, the
    forward scan returns the keys with prefix [V] that are at least [S], in
    ascending order: all of them when [numToFetch] is not positive, the
    first [numToFetch] of them otherwise. *)
Theorem forward_page (db : DB) (S V : list byte) (numToFetch : Z) (fetchValues : bool) :
  HasPrefix S V = true →
  let candidates :=
    filter (λ kv, bytes_le S kv.1 ∧ HasPrefix kv.1 V) (Items (contents db)) in
  let page :=
    if (0 <? numToFetch)%Z then take (Z.to_nat numToFetch) candidates
    else candidates in
  DBGetPaginatedKeysAndValuesForPrefix db S V 0 numToFetch false fetchValues
  = Ok (page.*1, (λ kv, if fetchValues then kv.2 else []) <$> page)
  ∧ StronglySorted bytes_lt page.*1.
Proof.
  intros HS candidates page.
  assert (StronglySorted key_lt page) as Hsorted.
  { unfold page. destruct (0 <? numToFetch)%Z; [apply StronglySorted_take|];
      apply StronglySorted_filter, Items_sorted. }
  split; [|by apply keys_sorted_asc].
  unfold DBGetPaginatedKeysAndValuesForPrefix, View,
    DBGetPaginatedKeysAndValuesForPrefixWithTxn.
  cbn [andb view NewTransaction]. unfold page.
  destruct (Z.ltb_spec 0 numToFetch) as [Hpos|Hneg].
  - rewrite DBGetPaginatedKeysAndValuesForPrefix_loop_take by (simpl; lia).
    rewrite Seek_forward_from by done. simpl. by rewrite Nat.sub_0_r.
  - rewrite DBGetPaginatedKeysAndValuesForPrefix_loop_unbounded by done.
    by rewrite Seek_forward_from by done.
Qed.

Lemma StronglySorted_dropWhile {A} (R : relation A) (f : A → bool) (l : list A) :
  StronglySorted R l → StronglySorted R (dropWhile f l).
Proof.
  induction 1 as [|x l Hs IH Hx]; simpl; [constructor|].
  destruct (f x); [done|]. by constructor.
Qed.

Lemma Seek_sorted (rev : bool) (m : gmap (list byte) (list byte)) (key : list byte) :
  StronglySorted (if rev then flip key_lt else key_lt) (Seek rev m key).
Proof.
  unfold Seek. destruct rev.
  - destruct key; [|apply StronglySorted_dropWhile]; apply Items_reverse_sorted.
  - apply StronglySorted_dropWhile, Items_sorted.
Qed.

Lemma elem_of_Seek (rev : bool) (m : gmap (list byte) (list byte)) key k v :
  (k, v) ∈ Seek rev m key → m !! k = Some v.
Proof.
  unfold Seek. destruct rev.
  - destruct key; [|intros ?%elem_of_dropWhile];
      intros; by apply elem_of_Items, elem_of_reverse_inv.
  - intros ?%elem_of_dropWhile. by apply elem_of_Items.
Qed.

(** Whatever the loop returns is an initial part of what the iterator
    visits. *)
Lemma DBGetPaginatedKeysAndValuesForPrefix_loop_inv vp maxKeyLen numToFetch fetchValues
    it ks vs keys vals :
  DBGetPaginatedKeysAndValuesForPrefix_loop vp maxKeyLen numToFetch fetchValues it ks vs
  = Ok (keys, vals) →
  ∃ m, keys = ks ++ (take m it).*1
       ∧ vals = vs ++ ((λ kv, if fetchValues then kv.2 else []) <$> take m it)
       ∧ Forall (λ kv, HasPrefix kv.1 vp = true) (take m it)
       ∧ (maxKeyLen ≠ 0%Z →
            Forall (λ kv, Z.of_nat (length kv.1) = maxKeyLen) (take m it))
       ∧ ((Z.of_nat (length ks) < numToFetch)%Z →
            (Z.of_nat (length ks + length (take m it)) ≤ numToFetch)%Z).
Proof.
  revert ks vs. induction it as [|[key val] it IH]; intros ks vs; simpl.
  { intros [= <- <-]. exists 0%nat. simpl. rewrite !app_nil_r.
    split_and!; try done. lia. }
  destruct (HasPrefix key vp) eqn:Hv; simpl.
  2:{ intros [= <- <-]. exists 0%nat. simpl. rewrite !app_nil_r.
      split_and!; try done. lia. }
  destruct (negb (maxKeyLen =? 0)%Z && negb (Z.of_nat (length key) =? maxKeyLen)%Z)
    eqn:Hlen; [done|].
  assert (maxKeyLen ≠ 0%Z → Z.of_nat (length key) = maxKeyLen) as Hkey.
  { intros Hne. apply andb_false_iff in Hlen as [E|E].
    - apply negb_false_iff, Z.eqb_eq in E. done.
    - by apply negb_false_iff, Z.eqb_eq in E. }
  destruct (negb (numToFetch =? 0)%Z
            && (Z.of_nat (length (ks ++ [key])) =? numToFetch)%Z) eqn:E.
  - intros [= <- <-]. exists 1%nat. simpl. rewrite take_0. simpl.
    split_and!; try done.
    + by repeat constructor.
    + intros Hne. repeat constructor. by apply Hkey.
    + rewrite length_app in E. simpl in *.
      apply andb_true_iff in E as [_ E%Z.eqb_eq]. lia.
  - intros (m & -> & -> & Hvalid & Hlens & Hcount)%IH. exists (S m). simpl.
    rewrite <- !app_assoc. simpl. split_and!; try done.
    + by constructor.
    + intros Hne. constructor; [by apply Hkey|by apply Hlens].
    + rewrite length_app in Hcount, E. simpl in *. intros Hlt.
      apply andb_false_iff in E as [E|E%Z.eqb_neq].
      * apply negb_false_iff, Z.eqb_eq in E. lia.
      * lia.
Qed.

(** X6.  What a page holds, for any arguments and either direction: as many
    values as keys; at most [numToFetch] keys when that is positive; only
    keys of length [maxKeyLen] when that is not zero; only stored keys
    with the prefix [validForPrefix], each with its stored value (or with
    nil when values are not fetched); keys in strictly ascending order,
    or strictly descending order for a reverse scan. *)
Theorem page_invariants (db : DB) (startPrefix validForPrefix : list byte)
    (maxKeyLen numToFetch : Z) (rev fetchValues : bool)
    (keys vals : list (list byte)) :
  DBGetPaginatedKeysAndValuesForPrefix db startPrefix validForPrefix
    maxKeyLen numToFetch rev fetchValues = Ok (keys, vals) →
  length vals = length keys
  ∧ ((0 < numToFetch)%Z → (Z.of_nat (length keys) ≤ numToFetch)%Z)
  ∧ (maxKeyLen ≠ 0%Z → ∀ k, k ∈ keys → Z.of_nat (length k) = maxKeyLen)
  ∧ (∀ i k v, keys !! i = Some k → vals !! i = Some v →
       HasPrefix k validForPrefix = true
       ∧ ∃ v0, contents db !! k = Some v0 ∧ v = if fetchValues then v0 else [])
  ∧ StronglySorted (if rev then flip bytes_lt else bytes_lt) keys.
Proof.
  unfold DBGetPaginatedKeysAndValuesForPrefix, View,
    DBGetPaginatedKeysAndValuesForPrefixWithTxn.
  cbn [view NewTransaction].
  destruct (rev && (maxKeyLen <? 0)%Z); [done|].
  set (it := Seek rev _ _).
  destruct (DBGetPaginatedKeysAndValuesForPrefix_loop _ _ _ _ it [] [])
    as [[keys' vals']|e] eqn:E; [|done].
  intros [= <- <-].
  apply DBGetPaginatedKeysAndValuesForPrefix_loop_inv in E
    as (m & -> & -> & Hvalid & Hlens & Hcount).
  cbn [app length] in *. rewrite Forall_forall in Hvalid.
  split_and!.
  - by rewrite !length_fmap.
  - intros Hpos. rewrite length_fmap. apply Hcount. lia.
  - intros Hne k ([k' v] & -> & Hin)%list_elem_of_fmap.
    specialize (Hlens Hne). rewrite Forall_forall in Hlens. by apply Hlens.
  - intros i k v Hk Hv. rewrite list_lookup_fmap in Hk, Hv.
    destruct (take m it !! i) as [[k0 v0]|] eqn:Hi; [|done].
    simpl in Hk, Hv. simplify_eq.
    apply list_elem_of_lookup_2 in Hi. split; [by apply (Hvalid (k, v0))|].
    exists v0. split; [|done].
    apply (subseteq_take m) in Hi. by apply elem_of_Seek in Hi.
  - pose proof (Seek_sorted rev (contents db)
                  (if rev then padded_prefix startPrefix (Z.to_nat maxKeyLen)
                   else startPrefix)) as Hs.
    fold it in Hs. apply (StronglySorted_take _ m) in Hs.
    destruct rev; [by apply keys_sorted_desc|by apply keys_sorted_asc].
Qed.

(** ** Stored counters and hashes *)

Lemma txn_Set_inv key val txn txn' :
  txn_Set key val txn = (txn', Ok tt) →
  key ≠ [] ∧ view txn' = <[key := val]> (view txn) ∧ update txn = true
  ∧ room txn = S (room txn').
Proof.
  intros [(_ & ? & ? & _ & ? & ?)|(e & [=] & _)]%txn_modify_inv. done.
Qed.

Lemma txn_Delete_inv key txn txn' :
  txn_Delete key txn = (txn', Ok tt) →
  key ≠ [] ∧ view txn' = delete key (view txn) ∧ update txn = true
  ∧ room txn = S (room txn').
Proof.
  intros [(_ & ? & ? & _ & ? & ?)|(e & [=] & _)]%txn_modify_inv. done.
Qed.

Lemma wrapf_inv {A} (m : M A) msg txn txn' a :
  wrapf m msg txn = (txn', Ok a) → m txn = (txn', Ok a).
Proof. unfold wrapf. destruct (m txn) as [? [?|?]]; by intros [= <- <-]. Qed.

Lemma Update_Ok db fn db' :
  Update db fn = (db', None) →
  ∃ txn, fn (NewTransaction db true) = (txn, Ok tt)
         ∧ db' = MkDB (view txn) (maxBatchCount db).
Proof. intros [(_ & ?)|(e & [=] & _)]%Update_inv. done. Qed.

(** X7.  The UTXO counter holds what [PutUtxoNumEntriesWithTxn] stored last:
    after a successful put of [n] (a [uint64]) the getter returns [n] and
    no other key has changed; without a stored counter the getter returns
    0, and it panics on a stored value of fewer than eight bytes. *)
Theorem utxo_counter_round_trip (txn txn' : Txn) (n : N) :
  PutUtxoNumEntriesWithTxn n txn = (txn', Ok tt) →
  GetUtxoNumEntriesWithTxn txn' = Some (n mod 2 ^ 64)
  ∧ (∀ k, k ≠ _KeyUtxoNumEntries → view txn' !! k = view txn !! k)
  ∧ (view txn !! _KeyUtxoNumEntries = None → GetUtxoNumEntriesWithTxn txn = Some 0)
  ∧ (∀ v, view txn !! _KeyUtxoNumEntries = Some v → (length v < 8)%nat →
          GetUtxoNumEntriesWithTxn txn = None).
Proof.
  intros (_ & Hv & _)%txn_Set_inv. unfold GetUtxoNumEntriesWithTxn.
  rewrite !txn_Get_lookup by done. rewrite Hv. split_and!.
  - rewrite lookup_insert_eq.
    rewrite <- (app_nil_r (EncodeUint64 n)). apply DecodeUint64_EncodeUint64.
  - intros k Hk. by rewrite lookup_insert_ne.
  - by intros ->.
  - intros v -> Hl.
    destruct v as [|b0 [|b1 [|b2 [|b3 [|b4 [|b5 [|b6 [|b7 bs]]]]]]]];
      simpl in *; try done; lia.
Qed.

(** X8.  The two values of the Bitcoin exchange: after [DbPutNanosPurchased]
    succeeds with [n], [DbGetNanosPurchased] returns [n] and the stored
    exchange rate is untouched; a handle without the keys gives 0 nanos
    and the initial exchange rate. *)
Theorem nanos_purchased_round_trip `{Constants} (db db' : DB) (n : N) :
  DbPutNanosPurchased db n = (db', None) →
  DbGetNanosPurchased db' = Some (n mod 2 ^ 64)
  ∧ DbGetUSDCentsPerBitcoinExchangeRate db' = DbGetUSDCentsPerBitcoinExchangeRate db
  ∧ (contents db !! _KeyNanosPurchased = None → DbGetNanosPurchased db = Some 0)
  ∧ (contents db !! _KeyUSDCentsPerBitcoinExchangeRate = None →
       DbGetUSDCentsPerBitcoinExchangeRate db
       = Some InitialUSDCentsPerBitcoinExchangeRate).
Proof.
  intros (txn & (_ & Hv & _)%txn_Set_inv & ->)%Update_Ok.
  unfold DbGetNanosPurchased, DbGetUSDCentsPerBitcoinExchangeRate, View,
    DbGetNanosPurchasedWithTxn, DbGetUSDCentsPerBitcoinExchangeRateWithTxn.
  rewrite !txn_Get_lookup by done. cbn [view NewTransaction contents] in *.
  rewrite Hv. split_and!.
  - rewrite lookup_insert_eq.
    rewrite <- (app_nil_r (EncodeUint64 n)). apply DecodeUint64_EncodeUint64.
  - by rewrite lookup_insert_ne.
  - by intros ->.
  - by intros ->.
Qed.

Lemma fit_short (bs : list byte) :
  length bs = 32%nat → bytes_of (fit 32 bs) = bs.
Proof.
  intros Hl. simpl. rewrite take_ge by lia. rewrite Hl. apply app_nil_r.
Qed.

Lemma _getBlockHashForPrefix_insert db key (bh : BlockHash) n :
  key ≠ [] →
  _getBlockHashForPrefix (MkDB (<[key := bytes_of bh]> (contents db)) n) key = Some bh.
Proof.
  intros Hk. unfold _getBlockHashForPrefix, View, _getBlockHashForPrefixWithTxn.
  rewrite txn_Get_lookup by done. cbn [view NewTransaction contents].
  rewrite lookup_insert_eq, bytes_len. simpl. by rewrite fit_bytes_of.
Qed.

Lemma _getBlockHashForPrefix_other db key val key' n :
  key ≠ key' →
  _getBlockHashForPrefix (MkDB (<[key := val]> (contents db)) n) key'
  = _getBlockHashForPrefix db key'.
Proof.
  intros Hk. unfold _getBlockHashForPrefix, View, _getBlockHashForPrefixWithTxn.
  unfold txn_Get. cbn [view NewTransaction contents].
  by rewrite lookup_insert_ne.
Qed.

(** X9.  The best hash is kept per chain.  For one of the two chain types
    [PutBestHash] returns nil whenever the handle lets a transaction write
    an entry, and after any put that returned nil [DbGetBestHash] returns
    the hash for that chain and what it returned before for the other; for
    any other [ChainType] the put returns nil without writing, and the
    getter returns nil. *)
Theorem best_hash_per_chain (bh : BlockHash) (db : DB) (chainType : N) :
  (chainType = ChainTypeBitCloutBlock ∨ chainType = ChainTypeBitcoinHeader →
     (maxBatchCount db ≠ 0%nat → (PutBestHash bh db chainType).2 = None)
     ∧ ∀ db', PutBestHash bh db chainType = (db', None) →
         DbGetBestHash db' chainType = Some bh
         ∧ ∀ other, other ≠ chainType →
             DbGetBestHash db' other = DbGetBestHash db other)
  ∧ (chainType ≠ ChainTypeBitCloutBlock → chainType ≠ ChainTypeBitcoinHeader →
       PutBestHash bh db chainType = (db, None)
       ∧ DbGetBestHash db chainType = None).
Proof.
  unfold PutBestHash, Update, PutBestHashWithTxn, DbGetBestHash, _prefixForChainType,
    ChainTypeBitCloutBlock, ChainTypeBitcoinHeader.
  destruct (N.eqb_spec chainType 0) as [->|H0]; simpl.
  - split; [|done]. intros _. split.
    + intros Hroom. unfold txn_Set.
      rewrite txn_modify_ok by done. done.
    + intros db'.
      destruct (txn_Set _ _ _) as [txn [[]|e]] eqn:Hset; intros [= <-].
      apply txn_Set_inv in Hset as (_ & -> & _).
      split; [by apply _getBlockHashForPrefix_insert|].
      intros other Hne. destruct (N.eqb_spec other 0) as [->|_]; [done|].
      destruct (other =? 1); simpl; [|done].
      by apply _getBlockHashForPrefix_other.
  - destruct (N.eqb_spec chainType 1) as [->|H1]; simpl.
    + split; [|done]. intros _. split.
      * intros Hroom. unfold txn_Set.
        rewrite txn_modify_ok by done. done.
      * intros db'.
        destruct (txn_Set _ _ _) as [txn [[]|e]] eqn:Hset; intros [= <-].
        apply txn_Set_inv in Hset as (_ & -> & _).
        split; [by apply _getBlockHashForPrefix_insert|].
        intros other Hne. destruct (N.eqb_spec other 0) as [->|_]; simpl.
        -- by apply _getBlockHashForPrefix_other.
        -- destruct (N.eqb_spec other 1) as [->|_]; simpl; done.
    + split; [by intros [|]|]. intros _ _.
      split; [|done]. unfold ret. simpl. f_equal. apply DB_eta.
Qed.

(** ** Listings: keys of a prefix with the prefix cut off *)

Lemma mapM_Ok {A B} (f : A → result B) (g : A → B) (l : list A) :
  (∀ x, x ∈ l → f x = Ok (g x)) → mapM f l = Ok (g <$> l).
Proof.
  induction l as [|x l IH]; intros Hl; simpl; [done|].
  rewrite (Hl x) by left. rewrite IH; [done|]. intros y Hy. apply Hl. by right.
Qed.

Lemma StronglySorted_fmap_elem {A B} (R : relation A) (R' : relation B)
    (f : A → B) (l : list A) :
  (∀ x y, x ∈ l → y ∈ l → R x y → R' (f x) (f y)) →
  StronglySorted R l → StronglySorted R' (f <$> l).
Proof.
  intros Hf Hs. induction Hs as [|x l Hs IH Hx]; csimpl; constructor.
  - apply IH. intros y z Hy Hz. apply Hf; by right.
  - rewrite Forall_forall in Hx. apply Forall_forall.
    intros ? (y & -> & Hy)%list_elem_of_fmap.
    apply Hf; [left|by right|by apply Hx].
Qed.

Lemma slice_from_Ok low s :
  (low ≤ length s)%nat → slice_from low s = Ok (drop low s).
Proof. intros Hl. unfold slice_from. by rewrite (proj2 (Nat.leb_le _ _)). Qed.

(** The keys found under a prefix, each without the prefix: the suffixes
    [t] for which [p ++ t] is stored, in ascending order. *)
Lemma enumerate_suffixes db p :
  let sufs := drop (length p) <$> (_enumerateKeysForPrefix db p).1 in
  (∀ t, t ∈ sufs ↔ is_Some (contents db !! (p ++ t)))
  ∧ StronglySorted bytes_lt sufs
  ∧ (∀ k, k ∈ (_enumerateKeysForPrefix db p).1 →
          is_Some (contents db !! k) ∧ HasPrefix k p = true).
Proof.
  pose proof (_enumerateKeysForPrefix_found db p) as (_ & _ & Hkeys & Hsorted & _).
  cbn zeta in *.
  set (keys := (_enumerateKeysForPrefix db p).1) in *.
  split_and!.
  - intros t. rewrite list_elem_of_fmap. split.
    + intros (k & -> & [Hk [t' ->]%HasPrefix_spec]%Hkeys).
      by rewrite drop_app_length.
    + intros Ht. exists (p ++ t). split; [by rewrite drop_app_length|].
      apply Hkeys. split; [done|apply HasPrefix_app].
  - eapply StronglySorted_fmap_elem; [|exact Hsorted].
    intros x y [_ [tx ->]%HasPrefix_spec]%Hkeys [_ [ty ->]%HasPrefix_spec]%Hkeys.
    rewrite !drop_app_length. unfold bytes_lt. by rewrite bytes_compare_app.
  - intros k. apply Hkeys.
Qed.

(** ** Likes *)

Lemma like_key_length pk h :
  length (_dbKeyForLikerPubKeyToLikedPostHashMapping pk h) = (1 + length pk + 32)%nat.
Proof.
  unfold _dbKeyForLikerPubKeyToLikedPostHashMapping.
  rewrite !length_app, bytes_len. done.
Qed.

Lemma DbPutLikeMappings_inv db pk h db' :
  DbPutLikeMappings db pk h = (db', None) →
  length pk = 33%nat
  ∧ contents db' =
      <[_dbKeyForLikedPostHashToLikerPubKeyMapping h pk := []]>
        (<[_dbKeyForLikerPubKeyToLikedPostHashMapping pk h := []]> (contents db)).
Proof.
  intros (txn & Hfn & ->)%Update_Ok. revert Hfn. unfold DbPutLikeMappingsWithTxn.
  destruct (Nat.eqb_spec (length pk) PubKeyBytesLenCompressed) as [Hl|Hl]; [|done].
  simpl. unfold txn_Set.
  intros [[_ Hv]|[e [=]]]%two_writes_inv. by split.
Qed.

(** X10.  A like that was put is found from both sides.  After
    [DbPutLikeMappings(user, post)] succeeds, the user's key has 33 bytes,
    the mapping is non-nil, [DbGetPostHashesYouLike(user)] succeeds and
    lists the post, and [DbGetLikerPubKeysLikingAPostHash(post)] succeeds
    and lists the user, in ascending byte order. *)
Theorem like_put_is_listed (db db' : DB) (userPubKey : list byte) (likedPostHash : BlockHash) :
  DbPutLikeMappings db userPubKey likedPostHash = (db', None) →
  length userPubKey = 33%nat
  ∧ DbGetLikerPubKeyToLikedPostHashMapping db' userPubKey likedPostHash = Some []
  ∧ (∃ posts, DbGetPostHashesYouLike db' userPubKey = Ok posts ∧ likedPostHash ∈ posts)
  ∧ (∃ users, DbGetLikerPubKeysLikingAPostHash db' likedPostHash = Ok users
              ∧ userPubKey ∈ users ∧ StronglySorted bytes_lt users).
Proof.
  intros [Hlen Hv]%DbPutLikeMappings_inv.
  assert (is_Some (contents db'
            !! _dbKeyForLikerPubKeyToLikedPostHashMapping userPubKey likedPostHash))
    as Hfwd.
  { rewrite Hv, lookup_insert_ne by done. rewrite lookup_insert_eq. by eexists. }
  assert (is_Some (contents db'
            !! _dbKeyForLikedPostHashToLikerPubKeyMapping likedPostHash userPubKey))
    as Hrev.
  { rewrite Hv, lookup_insert_eq. by eexists. }
  split_and!; [done| | |].
  - unfold DbGetLikerPubKeyToLikedPostHashMapping, View,
      DbGetLikerPubKeyToLikedPostHashMappingWithTxn.
    rewrite txn_Get_lookup by done. cbn [view NewTransaction].
    by destruct Hfwd as [v ->].
  - unfold DbGetPostHashesYouLike.
    pose proof (enumerate_suffixes db' (_dbSeekPrefixForPostHashesYouLike userPubKey))
      as (Hsufs & _ & Hkeys).
    destruct (_enumerateKeysForPrefix db' _) as [keys vals]. cbn [fst] in *.
    assert (length (_dbSeekPrefixForPostHashesYouLike userPubKey) = 34%nat) as Hp.
    { unfold _dbSeekPrefixForPostHashesYouLike. rewrite length_app, Hlen. done. }
    rewrite Hp in Hsufs.
    eexists. split.
    + apply (mapM_Ok _ (λ keyBytes, fit 32 (drop 34 keyBytes))).
      intros k [_ Hk%HasPrefix_length]%Hkeys. rewrite Hp in Hk.
      by rewrite slice_from_Ok.
    + apply list_elem_of_fmap. exists (_dbKeyForLikerPubKeyToLikedPostHashMapping
                                    userPubKey likedPostHash).
      split.
      * unfold _dbKeyForLikerPubKeyToLikedPostHashMapping.
        rewrite drop_app_length' by (rewrite length_app, Hlen; done).
        by rewrite fit_bytes_of.
      * assert (bytes_of likedPostHash ∈ drop 34 <$> keys) as Hin.
        { apply Hsufs. by unfold _dbSeekPrefixForPostHashesYouLike. }
        apply list_elem_of_fmap in Hin as (k & Hk & Hin).
        destruct (Hkeys k Hin) as [_ [t ->]%HasPrefix_spec].
        rewrite drop_app_length' in Hk by done. by subst t.
  - unfold DbGetLikerPubKeysLikingAPostHash.
    pose proof (enumerate_suffixes db'
                  (_dbSeekPrefixForLikerPubKeysLikingAPostHash likedPostHash))
      as (Hsufs & Hsorted & Hkeys).
    destruct (_enumerateKeysForPrefix db' _) as [keys vals]. cbn [fst] in *.
    assert (length (_dbSeekPrefixForLikerPubKeysLikingAPostHash likedPostHash)
            = 33%nat) as Hp.
    { unfold _dbSeekPrefixForLikerPubKeysLikingAPostHash.
      rewrite length_app, bytes_len. done. }
    rewrite Hp in Hsufs, Hsorted.
    exists (drop 33 <$> keys). split_and!; [|by apply Hsufs|done].
    apply (mapM_Ok _ (drop 33)).
    intros k [_ Hk%HasPrefix_length]%Hkeys. rewrite Hp in Hk.
    by rewrite slice_from_Ok.
Qed.

(** ** Follows: the listings *)

Lemma fit_exact (n : nat) (bs : list byte) (Hl : length bs = n) :
  bytes_of (fit n bs) = bs.
Proof.
  simpl. rewrite take_ge by lia. replace (n - length bs)%nat with 0%nat by lia.
  apply app_nil_r.
Qed.

(** The suffixes of length [n] under a prefix, as fixed-size arrays. *)
Lemma enumerate_fixed_suffixes db p n :
  (∀ k, is_Some (contents db !! k) → HasPrefix k p = true →
        length k = (length p + n)%nat) →
  let items := (λ k, fit n (drop (length p) k)) <$> (_enumerateKeysForPrefix db p).1 in
  (∀ a : bytesN n, a ∈ items ↔ is_Some (contents db !! (p ++ bytes_of a)))
  ∧ StronglySorted (λ a b : bytesN n, bytes_lt (bytes_of a) (bytes_of b)) items.
Proof.
  intros Hwf.
  pose proof (enumerate_suffixes db p) as (Hsufs & Hsorted & Hkeys). cbn zeta in *.
  set (keys := (_enumerateKeysForPrefix db p).1) in *.
  assert (∀ t, t ∈ drop (length p) <$> keys → length t = n) as Hlen.
  { intros t Ht%Hsufs. apply Hwf in Ht; [|apply HasPrefix_app].
    rewrite length_app in Ht. lia. }
  rewrite (list_fmap_compose (drop (length p)) (fit n)).
  split.
  - intros a. rewrite <- Hsufs. split.
    + intros (t & -> & Ht)%list_elem_of_fmap.
      rewrite fit_exact; [done|]. by apply Hlen.
    + intros Hin. apply list_elem_of_fmap. exists (bytes_of a).
      split; [by rewrite fit_bytes_of|done].
  - eapply StronglySorted_fmap_elem; [|exact Hsorted].
    intros x y Hx%Hlen Hy%Hlen Hxy. by rewrite !fit_exact.
Qed.

(** X11.  Who follows whom, read from either side.  On a store whose follow
    tables hold only keys of 67 bytes (a prefix byte and two PKIDs, as
    [DbPutFollowMappings] writes them), [DbGetPKIDsYouFollow(A)] returns
    exactly the [B] for which [DbGetFollowerToFollowedMapping(A, B)] is
    non-nil and [DbGetPKIDsFollowingYou(A)] exactly the [B] whose mirrored
    entry is stored, each once and in ascending byte order; when the two
    tables are paired, [B] is listed as following [A] exactly when [A] is
    listed among those [B] follows. *)
Theorem follow_listings (db : DB) (A : PKID) :
  (∀ k, is_Some (contents db !! k) →
        HasPrefix k _PrefixFollowerPKIDToFollowedPKID = true
        ∨ HasPrefix k _PrefixFollowedPKIDToFollowerPKID = true →
        length k = 67%nat) →
  ∃ youFollow followingYou,
    DbGetPKIDsYouFollow db A = Ok youFollow
    ∧ DbGetPKIDsFollowingYou db A = Ok followingYou
    ∧ (∀ B, B ∈ youFollow ↔ DbGetFollowerToFollowedMapping db A B ≠ None)
    ∧ (∀ B, B ∈ followingYou
            ↔ is_Some (contents db !! _dbKeyForFollowedToFollowerMapping A B))
    ∧ StronglySorted (λ a b : PKID, bytes_lt (bytes_of a) (bytes_of b)) youFollow
    ∧ StronglySorted (λ a b : PKID, bytes_lt (bytes_of a) (bytes_of b)) followingYou
    ∧ (follow_paired db →
       ∀ B youFollowB, DbGetPKIDsYouFollow db B = Ok youFollowB →
                       (B ∈ followingYou ↔ A ∈ youFollowB)).
Proof.
  intros Hwf.
  assert (∀ (p0 : list byte) (X : PKID),
            (p0 = _PrefixFollowerPKIDToFollowedPKID
             ∨ p0 = _PrefixFollowedPKIDToFollowerPKID) →
            let p := p0 ++ bytes_of X in
            let l := (λ k, fit 33 (drop 34 k)) <$> (_enumerateKeysForPrefix db p).1 in
            mapM (λ keyBytes,
                    match slice_from (1 + PubKeyBytesLenCompressed) keyBytes with
                    | Err e => Err e
                    | Ok bs => Ok (fit 33 bs)
                    end) (_enumerateKeysForPrefix db p).1 = Ok l
            ∧ (∀ B : PKID, B ∈ l ↔ is_Some (contents db !! (p ++ bytes_of B)))
            ∧ StronglySorted (λ a b : PKID, bytes_lt (bytes_of a) (bytes_of b)) l)
    as Hlist.
  { intros p0 X Hp0 p l.
    assert (length p = 34%nat) as Hp.
    { unfold p. rewrite length_app, bytes_len. by destruct Hp0 as [->| ->]. }
    pose proof (enumerate_fixed_suffixes db p 33) as Hfix. rewrite Hp in Hfix.
    destruct Hfix as [Hmem Hsorted].
    { intros k Hk Hkp. apply Hwf; [done|].
      destruct Hp0 as [->| ->]; [left|right];
        (eapply HasPrefix_trans; [exact Hkp|apply HasPrefix_app]). }
    split_and!; [|done..].
    apply mapM_Ok. intros k Hk.
    destruct (enumerate_suffixes db p) as (_ & _ & Hkeys).
    destruct (Hkeys k Hk) as [_ Hlen%HasPrefix_length]. rewrite Hp in Hlen.
    by rewrite slice_from_Ok. }
  destruct (Hlist _PrefixFollowerPKIDToFollowedPKID A) as (H1 & H2 & H3); [by left|].
  destruct (Hlist _PrefixFollowedPKIDToFollowerPKID A) as (H4 & H5 & H6); [by right|].
  assert (∀ X, DbGetPKIDsYouFollow db X
               = mapM (λ keyBytes,
                         match slice_from (1 + PubKeyBytesLenCompressed) keyBytes with
                         | Err e => Err e
                         | Ok bs => Ok (fit 33 bs)
                         end)
                   (_enumerateKeysForPrefix db
                      (_PrefixFollowerPKIDToFollowedPKID ++ bytes_of X)).1) as HyouFollow.
  { intros X. unfold DbGetPKIDsYouFollow, _dbSeekPrefixForPKIDsYouFollow.
    by destruct (_enumerateKeysForPrefix db (_ ++ bytes_of X)). }
  assert (DbGetPKIDsFollowingYou db A
          = mapM (λ keyBytes,
                    match slice_from (1 + PubKeyBytesLenCompressed) keyBytes with
                    | Err e => Err e
                    | Ok bs => Ok (fit 33 bs)
                    end)
              (_enumerateKeysForPrefix db
                 (_PrefixFollowedPKIDToFollowerPKID ++ bytes_of A)).1) as HfollowingYou.
  { unfold DbGetPKIDsFollowingYou, _dbSeekPrefixForPKIDsFollowingYou.
    by destruct (_enumerateKeysForPrefix db (_PrefixFollowedPKIDToFollowerPKID ++ _)). }
  eexists _, _. split_and!.
  - rewrite HyouFollow. exact H1.
  - rewrite HfollowingYou. exact H4.
  - intros B. rewrite H2.
    unfold DbGetFollowerToFollowedMapping, View.
    rewrite DbGetFollowerToFollowedMappingWithTxn_spec. cbn [view NewTransaction].
    unfold _dbKeyForFollowerToFollowedMapping.
    destruct (contents db !! _) as [v|]; split;
      first [done | by eexists | by intros [? [=]]].
  - intros B. by rewrite H5.
  - done.
  - done.
  - intros Hpaired B youFollowB HB.
    destruct (Hlist _PrefixFollowerPKIDToFollowedPKID B) as (H7 & H8 & _); [by left|].
    rewrite HyouFollow, H7 in HB. injection HB as <-.
    rewrite H5, H8. symmetry. apply (Hpaired B A).
Qed.

(** ** Bitcoin burn transaction ids *)

Lemma DbExistsBitcoinBurnTxID_spec db x :
  DbExistsBitcoinBurnTxID db x
  = bool_decide (is_Some (contents db !! _keyForBitcoinBurnTxID x)).
Proof.
  unfold DbExistsBitcoinBurnTxID, View, DbExistsBitcoinBurnTxIDWithTxn.
  rewrite txn_Get_lookup by done. cbn [view NewTransaction].
  destruct (contents db !! _) eqn:E.
  - by rewrite bool_decide_true.
  - rewrite bool_decide_false; [done|]. by intros [? [=]].
Qed.

Lemma DbGetAllBitcoinBurnTxIDs_spec db :
  (∀ k, is_Some (contents db !! k) → HasPrefix k _PrefixBitcoinBurnTxIDs = true →
        length k = 33%nat) →
  (∀ x, x ∈ DbGetAllBitcoinBurnTxIDs db ↔ DbExistsBitcoinBurnTxID db x = true)
  ∧ StronglySorted (λ a b : BlockHash, bytes_lt (bytes_of a) (bytes_of b))
      (DbGetAllBitcoinBurnTxIDs db).
Proof.
  intros Hwf.
  pose proof (enumerate_fixed_suffixes db _PrefixBitcoinBurnTxIDs 32 Hwf)
    as [Hmem Hsorted].
  unfold DbGetAllBitcoinBurnTxIDs.
  destruct (_enumerateKeysForPrefix db _PrefixBitcoinBurnTxIDs) as [keys vals].
  cbn [fst length] in *. split; [|done].
  intros x. change (map ?f keys) with (f <$> keys). rewrite Hmem.
  rewrite DbExistsBitcoinBurnTxID_spec. by rewrite bool_decide_eq_true.
Qed.

(** X12.  The set of burnt Bitcoin transaction ids.  On a store whose burn
    table holds only keys of 33 bytes, [DbGetAllBitcoinBurnTxIDs] lists
    exactly the ids for which [DbExistsBitcoinBurnTxID] holds, in
    ascending byte order.  Putting an id in a committed transaction makes
    it exist and be listed; deleting it afterwards makes it not exist and
    not be listed; neither changes whether another id exists. *)
Theorem burn_txids (db db1 db2 : DB) (id : BlockHash) :
  (∀ k, is_Some (contents db !! k) → HasPrefix k _PrefixBitcoinBurnTxIDs = true →
        length k = 33%nat) →
  Update db (DbPutBitcoinBurnTxIDWithTxn id) = (db1, None) →
  Update db1 (DbDeleteBitcoinBurnTxIDWithTxn id) = (db2, None) →
  (∀ x, x ∈ DbGetAllBitcoinBurnTxIDs db ↔ DbExistsBitcoinBurnTxID db x = true)
  ∧ StronglySorted (λ a b : BlockHash, bytes_lt (bytes_of a) (bytes_of b))
      (DbGetAllBitcoinBurnTxIDs db)
  ∧ DbExistsBitcoinBurnTxID db1 id = true
  ∧ (id ∈ DbGetAllBitcoinBurnTxIDs db1)
  ∧ DbExistsBitcoinBurnTxID db2 id = false
  ∧ (id ∉ DbGetAllBitcoinBurnTxIDs db2)
  ∧ (∀ other, other ≠ id →
       DbExistsBitcoinBurnTxID db1 other = DbExistsBitcoinBurnTxID db other
       ∧ DbExistsBitcoinBurnTxID db2 other = DbExistsBitcoinBurnTxID db other).
Proof.
  intros Hwf (txn1 & (_ & Hv1 & _)%txn_Set_inv & ->)%Update_Ok
    (txn2 & (_ & Hv2 & _)%txn_Delete_inv & ->)%Update_Ok.
  cbn [view NewTransaction contents] in *.
  assert (∀ a b : BlockHash, a ≠ b → _keyForBitcoinBurnTxID a ≠ _keyForBitcoinBurnTxID b)
    as Hinj.
  { intros a b Hne Heq%app_inv_head. by apply Hne, bytesN_eq. }
  assert (length (_keyForBitcoinBurnTxID id) = 33%nat) as Hlen.
  { unfold _keyForBitcoinBurnTxID. by rewrite length_app, bytes_len. }
  assert (∀ k, is_Some (view txn1 !! k) → HasPrefix k _PrefixBitcoinBurnTxIDs = true →
               length k = 33%nat) as Hwf1.
  { intros k Hk Hp. rewrite Hv1 in Hk.
    destruct (decide (k = _keyForBitcoinBurnTxID id)) as [->|Hne]; [done|].
    rewrite lookup_insert_ne in Hk by done. by apply Hwf. }
  assert (∀ k, is_Some (view txn2 !! k) → HasPrefix k _PrefixBitcoinBurnTxIDs = true →
               length k = 33%nat) as Hwf2.
  { intros k Hk Hp. rewrite Hv2 in Hk.
    destruct (decide (k = _keyForBitcoinBurnTxID id)) as [->|Hne].
    - rewrite lookup_delete_eq in Hk. by destruct Hk.
    - rewrite lookup_delete_ne in Hk by done. by apply Hwf1. }
  destruct (DbGetAllBitcoinBurnTxIDs_spec db Hwf) as [Hall Hsorted].
  destruct (DbGetAllBitcoinBurnTxIDs_spec (MkDB (view txn1) (maxBatchCount db)) Hwf1)
    as [Hall1 _].
  destruct (DbGetAllBitcoinBurnTxIDs_spec
              (MkDB (view txn2) (maxBatchCount (MkDB (view txn1) (maxBatchCount db))))
              Hwf2) as [Hall2 _].
  assert (DbExistsBitcoinBurnTxID (MkDB (view txn1) (maxBatchCount db)) id = true)
    as Hex1.
  { rewrite DbExistsBitcoinBurnTxID_spec. cbn [contents].
    rewrite Hv1, lookup_insert_eq. by apply bool_decide_true. }
  assert (DbExistsBitcoinBurnTxID
            (MkDB (view txn2) (maxBatchCount (MkDB (view txn1) (maxBatchCount db)))) id
          = false) as Hex2.
  { rewrite DbExistsBitcoinBurnTxID_spec. cbn [contents].
    rewrite Hv2, lookup_delete_eq. apply bool_decide_false. by intros [? [=]]. }
  split_and!; try done.
  - by apply Hall1.
  - rewrite Hall2, Hex2. done.
  - intros other Hne. rewrite !DbExistsBitcoinBurnTxID_spec. cbn [contents].
    rewrite Hv2, Hv1.
    rewrite lookup_delete_ne, !lookup_insert_ne by (by apply Hinj). done.
Qed.

(** ** Diamonds and UTXOs: what was put is read back *)

(** Lookups in a store after some inserts and deletes, the keys being
    known to be equal or different. *)
Ltac simpl_map_lookup :=
  repeat first
    [ rewrite lookup_delete_eq
    | rewrite lookup_insert_eq
    | rewrite lookup_delete_ne by (done || by apply not_eq_sym)
    | rewrite lookup_insert_ne by (done || by apply not_eq_sym) ].

Section round_trips.
Context `{Externals}.

Lemma DbPutDiamondMappings_inv db e db' :
  DbPutDiamondMappings db e = (db', None) →
  contents db' =
    <[_dbKeyForDiamondSenderToDiamondRecieverMapping
        (ReceiverPKID e) (SenderPKID e) (DiamondPostHash e) := _DbBufForDiamondEntry e]>
      (<[_dbKeyForDiamondReceiverToDiamondSenderMapping
           (ReceiverPKID e) (SenderPKID e) (DiamondPostHash e) := _DbBufForDiamondEntry e]>
         (contents db)).
Proof.
  intros (txn & Hfn & ->)%Update_Ok. revert Hfn. unfold DbPutDiamondMappingsWithTxn.
  rewrite !bytes_len. simpl. unfold txn_Set.
  by intros [[_ Hv]|[e' [=]]]%two_writes_inv.
Qed.

(** X13.  A diamond that was put is read back, and a delete takes out both of
    its entries.  When the gob codec reads the entry back from its
    non-empty encoding and [DbPutDiamondMappings] succeeds,
    [DbGetDiamondMappings] returns the entry and the sender-to-receiver
    key holds the same bytes; after [DbDeleteDiamondMappings] then
    succeeds the getter returns nil, both keys are gone and every other
    key is as it was before the put. *)
Theorem diamond_put_get_delete (db db1 db2 : DB) (diamondEntry : DiamondEntry) :
  let receiver := ReceiverPKID diamondEntry in
  let sender := SenderPKID diamondEntry in
  let post := DiamondPostHash diamondEntry in
  gobDecodeDiamondEntry (gobEncodeDiamondEntry diamondEntry) = Some diamondEntry →
  gobEncodeDiamondEntry diamondEntry ≠ [] →
  DbPutDiamondMappings db diamondEntry = (db1, None) →
  DbDeleteDiamondMappings db1 receiver sender post = (db2, None) →
  DbGetDiamondMappings db1 receiver sender post = Some diamondEntry
  ∧ contents db1 !! _dbKeyForDiamondSenderToDiamondRecieverMapping receiver sender post
    = Some (gobEncodeDiamondEntry diamondEntry)
  ∧ DbGetDiamondMappings db2 receiver sender post = None
  ∧ contents db2 =
      delete (_dbKeyForDiamondSenderToDiamondRecieverMapping receiver sender post)
        (delete (_dbKeyForDiamondReceiverToDiamondSenderMapping receiver sender post)
           (contents db)).
Proof.
  intros receiver sender post Hcodec Hne Hput Hdel.
  apply DbPutDiamondMappings_inv in Hput. fold receiver sender post in Hput.
  unfold _DbBufForDiamondEntry in Hput.
  assert (DbGetDiamondMappings db1 receiver sender post = Some diamondEntry) as Hget.
  { unfold DbGetDiamondMappings, View, DbGetDiamondMappingsWithTxn.
    rewrite txn_Get_lookup by done. cbn [view NewTransaction].
    rewrite Hput, lookup_insert_ne by (symmetry; apply diamond_keys_disjoint).
    rewrite lookup_insert_eq. unfold _DbDiamondEntryForDbBuf.
    destruct (gobEncodeDiamondEntry diamondEntry); done. }
  apply DbDeleteDiamondMappings_inv in Hdel
    as [(_ & _ & Hnone)|[(_ & Hdel & _)|(e & [=] & _)]].
  { unfold DbGetDiamondMappings, View in Hget.
    replace (DbGetDiamondMappingsWithTxn (NewTransaction db1 false) receiver sender post)
      with (DbGetDiamondMappingsWithTxn (NewTransaction db1 true) receiver sender post)
      in Hget by done.
    by rewrite Hnone in Hget. }
  split_and!.
  - done.
  - by rewrite Hput, lookup_insert_eq.
  - unfold DbGetDiamondMappings, View. apply DbGetDiamondMappingsWithTxn_absent.
    cbn [view NewTransaction]. rewrite Hdel.
    rewrite lookup_delete_ne by (symmetry; apply diamond_keys_disjoint).
    apply lookup_delete_eq.
  - rewrite Hdel, Hput. apply map_eq. intros k.
    destruct (decide (k = _dbKeyForDiamondSenderToDiamondRecieverMapping
                             receiver sender post)) as [->|?]; [by simpl_map_lookup|].
    destruct (decide (k = _dbKeyForDiamondReceiverToDiamondSenderMapping
                             receiver sender post)) as [->|?]; by simpl_map_lookup.
Qed.

Lemma utxo_keys_disjoint pk k k' :
  (_PrefixPubKeyUtxoKey ++ pk) ++ _SerializeUtxoKey k ≠ _DbKeyForUtxoKey k'.
Proof. done. Qed.

(** X14.  An unspent output that was put is read back, and the delete undoes
    the put.  In a read-write transaction with room for four writes, for
    an entry whose public key has 33 bytes and which the gob codec reads
    back: [PutMappingsForUtxoWithTxn] succeeds, after it
    [DbGetUtxoEntryForUtxoKeyWithTxn] returns the entry and the owner's
    index key is stored; [DeleteUnmodifiedMappingsForUtxoWithTxn] then
    succeeds, the entry is gone, and the store differs from the one before
    the put only by the absence of the two keys. *)
Theorem utxo_put_get_delete (txn : Txn) (utxoKey : UtxoKey) (utxoEntry : UtxoEntry) :
  update txn = true →
  (4 ≤ room txn)%nat →
  length (PublicKey utxoEntry) = 33%nat →
  gobDecodeUtxoEntry (gobEncodeUtxoEntry utxoEntry) = Some utxoEntry →
  let ownerKey :=
    (_PrefixPubKeyUtxoKey ++ PublicKey utxoEntry) ++ _SerializeUtxoKey utxoKey in
  ∃ txn1 txn2,
    PutMappingsForUtxoWithTxn utxoKey utxoEntry txn = (txn1, Ok tt)
    ∧ DbGetUtxoEntryForUtxoKeyWithTxn txn1 utxoKey = Some utxoEntry
    ∧ view txn1 !! ownerKey = Some []
    ∧ DeleteUnmodifiedMappingsForUtxoWithTxn utxoKey txn1 = (txn2, Ok tt)
    ∧ DbGetUtxoEntryForUtxoKeyWithTxn txn2 utxoKey = None
    ∧ view txn2 = delete ownerKey (delete (_DbKeyForUtxoKey utxoKey) (view txn)).
Proof.
  intros Hu Hroom Hpk Hcodec ownerKey.
  destruct txn as [m u r]. simpl in Hu, Hroom. subst u.
  destruct r as [|[|[|[|r]]]]; try lia.
  eexists _, _.
  assert (∀ m' r', DbGetUtxoEntryForUtxoKeyWithTxn (MkTxn m' true r') utxoKey
                   = m' !! _DbKeyForUtxoKey utxoKey ≫= gobDecodeUtxoEntry) as Hget.
  { intros m' r'. unfold DbGetUtxoEntryForUtxoKeyWithTxn.
    rewrite txn_Get_lookup by done. simpl. by destruct (m' !! _). }
  assert (PutMappingsForUtxoWithTxn utxoKey utxoEntry (MkTxn m true (S (S (S (S r)))))
          = (MkTxn (<[ownerKey := []]>
                      (<[_DbKeyForUtxoKey utxoKey := gobEncodeUtxoEntry utxoEntry]> m))
               true (S (S r)), Ok tt)) as Hput.
  { unfold PutMappingsForUtxoWithTxn, PutUtxoEntryForUtxoKeyWithTxn,
      PutPubKeyUtxoKeyWithTxn, txn_Set.
    rewrite txn_modify_ok by done. rewrite Hpk. simpl.
    by rewrite txn_modify_ok by done. }
  split_and!.
  - exact Hput.
  - rewrite Hget.
    rewrite lookup_insert_ne by apply utxo_keys_disjoint.
    by rewrite lookup_insert_eq.
  - simpl. by rewrite lookup_insert_eq.
  - unfold DeleteUnmodifiedMappingsForUtxoWithTxn. rewrite Hget.
    rewrite lookup_insert_ne by apply utxo_keys_disjoint.
    rewrite lookup_insert_eq. simpl. rewrite Hcodec.
    unfold bind, DeleteUtxoEntryForKeyWithTxn, DeletePubKeyUtxoKeyMappingWithTxn,
      txn_Delete.
    rewrite txn_modify_ok by done. rewrite Hpk. simpl.
    rewrite txn_modify_ok by done. simpl. reflexivity.
  - rewrite Hget. rewrite lookup_delete_ne by apply utxo_keys_disjoint.
    by rewrite lookup_delete_eq.
  - simpl. fold ownerKey. apply map_eq. intros k.
    destruct (decide (k = ownerKey)) as [->|?]; [by simpl_map_lookup|].
    destruct (decide (k = _DbKeyForUtxoKey utxoKey)) as [->|?]; by simpl_map_lookup.
Qed.

(** *** The outputs of an owner *)

Lemma DbGetUtxosForPubKey_keys_spec prefix it acc :
  (∀ kv, kv ∈ it → valid prefix kv = true → length kv.1 = (length prefix + 36)%nat) →
  DbGetUtxosForPubKey_keys prefix it acc
  = Ok (acc ++ (parse_owner_key prefix <$> takeWhile (valid prefix) it)).
Proof.
  revert acc. induction it as [|[k v] it IH]; intros acc Hlen; simpl.
  { by rewrite app_nil_r. }
  unfold valid at 1 2; simpl. destruct (HasPrefix k prefix) eqn:Hk; simpl.
  2:{ by rewrite app_nil_r. }
  assert (length (drop (length prefix) k) = 36%nat) as Hl.
  { rewrite length_drop. pose proof (Hlen (k, v)) as Hkv. simpl in Hkv.
    rewrite Hkv; [lia|left|done]. }
  rewrite Hl. simpl.
  destruct (_SerializeUtxoKey_UtxoKeyFromDbKey _ Hl) as (uk & Huk & _).
  rewrite Huk. rewrite IH by (intros kv Hkv; apply Hlen; by right).
  rewrite <- app_assoc. simpl. unfold parse_owner_key at 2. simpl. by rewrite Huk.
Qed.

Lemma DbGetUtxosForPubKey_entries_spec txn uks acc :
  (∀ uk, uk ∈ uks → is_Some (DbGetUtxoEntryForUtxoKeyWithTxn txn uk)) →
  DbGetUtxosForPubKey_entries txn uks acc
  = Ok (acc ++ ((λ uk, (default (MkUtxoEntry 0 [] 0 0)
                          (DbGetUtxoEntryForUtxoKeyWithTxn txn uk), uk)) <$> uks)).
Proof.
  revert acc. induction uks as [|uk uks IH]; intros acc Hall; simpl.
  { by rewrite app_nil_r. }
  destruct (Hall uk) as [e He]; [left|]. rewrite He.
  rewrite IH by (intros uk' Huk'; apply Hall; by right).
  by rewrite <- app_assoc.
Qed.

(** X15.  The outputs of an owner.  For a public key of 33 bytes whose index
    entries all have 70 bytes (prefix, owner, serialised key) and all
    point to a record that decodes, [DbGetUtxosForPubKey] succeeds and
    returns, in the byte order of the serialised keys, exactly the pairs
    of a key in the owner's index and the entry stored for that key. *)
Theorem utxos_for_pub_key (db : DB) (publicKey : list byte) :
  let prefix := _PrefixPubKeyUtxoKey ++ publicKey in
  length publicKey = 33%nat →
  (∀ k, is_Some (contents db !! k) → HasPrefix k prefix = true → length k = 70%nat) →
  (∀ utxoKey, is_Some (contents db !! (prefix ++ _SerializeUtxoKey utxoKey)) →
              is_Some (DbGetUtxoEntryForUtxoKey db utxoKey)) →
  ∃ found,
    DbGetUtxosForPubKey publicKey db = Ok found
    ∧ (∀ utxoEntry utxoKey,
         (utxoEntry, utxoKey) ∈ found
         ↔ Index utxoKey < 2 ^ 32
           ∧ is_Some (contents db !! (prefix ++ _SerializeUtxoKey utxoKey))
           ∧ DbGetUtxoEntryForUtxoKey db utxoKey = Some utxoEntry)
    ∧ StronglySorted
        (λ a b, bytes_lt (_SerializeUtxoKey a.2) (_SerializeUtxoKey b.2)) found.
Proof.
  intros prefix Hpk Hwf Hrec.
  assert (length prefix = 34%nat) as Hp by (unfold prefix; rewrite length_app, Hpk; done).
  assert (DbGetUtxosForPubKey publicKey db
          = match
              match DbGetUtxosForPubKey_keys prefix (Seek false (contents db) prefix) []
              with
              | Err e => Err e
              | Ok utxoKeysFound =>
                  DbGetUtxosForPubKey_entries (NewTransaction db false) utxoKeysFound []
              end
            with
            | Err e => Err (Wrapf e "DbGetUtxosForPubKey: ")
            | Ok utxoEntriesFound => Ok utxoEntriesFound
            end) as Hrun.
  { unfold DbGetUtxosForPubKey. by rewrite Hpk. }
  clearbody prefix.
  set (hits := filter (λ kv, HasPrefix kv.1 prefix) (Items (contents db))).
  assert (∀ kv, kv ∈ hits →
            ∃ uk, kv.1 = prefix ++ _SerializeUtxoKey uk ∧ Index uk < 2 ^ 32
                  ∧ parse_owner_key prefix kv = uk
                  ∧ is_Some (contents db !! kv.1)) as Hhits.
  { intros [k v] [Hk Hin%elem_of_Items]%list_elem_of_filter. cbn [fst] in Hk.
    apply Is_true_true in Hk. pose proof Hk as [t ->]%HasPrefix_spec.
    assert (length t = 36%nat) as Ht.
    { specialize (Hwf (prefix ++ t)). rewrite length_app in Hwf.
      rewrite Hp in Hwf. specialize (Hwf ltac:(eauto) Hk). lia. }
    destruct (_SerializeUtxoKey_UtxoKeyFromDbKey t Ht) as (uk & Huk & Hser & Hidx).
    exists uk. simpl. split_and!; [by rewrite Hser|done| |eauto].
    unfold parse_owner_key. simpl. by rewrite drop_app_length, Huk. }
  set (get := λ uk, default (MkUtxoEntry 0 [] 0 0)
                      (DbGetUtxoEntryForUtxoKeyWithTxn (NewTransaction db false) uk)).
  exists ((λ uk, (get uk, uk)) <$> (parse_owner_key prefix <$> hits)).
  split_and!.
  - rewrite Hrun.
    rewrite DbGetUtxosForPubKey_keys_spec.
    2:{ intros [k v] Hin Hv. simpl. rewrite Hp.
        apply (Hwf k); [|done]. apply elem_of_Seek in Hin. eauto. }
    rewrite Seek_forward_valid. fold hits. cbn [app].
    rewrite DbGetUtxosForPubKey_entries_spec; [done|].
    intros ? (kv & -> & Hkv)%list_elem_of_fmap.
    destruct (Hhits kv Hkv) as (uk & Hk & _ & -> & Hin).
    apply (Hrec uk). by rewrite <- Hk.
  - intros e uk. rewrite list_elem_of_fmap. split.
    + intros (uk' & [= -> <-] & (kv & -> & Hkv)%list_elem_of_fmap).
      destruct (Hhits kv Hkv) as (uk & Hk & Hidx & -> & Hin).
      rewrite Hk in Hin. split_and!; [done..|].
      destruct (Hrec uk Hin) as [e He]. unfold get.
      unfold DbGetUtxoEntryForUtxoKey, View in *. by rewrite He.
    + intros (Hidx & [v Hin] & He). exists uk. split.
      * unfold get. unfold DbGetUtxoEntryForUtxoKey, View in He. by rewrite He.
      * apply list_elem_of_fmap. exists (prefix ++ _SerializeUtxoKey uk, v). split.
        -- unfold parse_owner_key. simpl. rewrite drop_app_length.
           by rewrite _UtxoKeyFromDbKey_SerializeUtxoKey.
        -- apply list_elem_of_filter. split; [|by apply elem_of_Items].
           simpl. apply Is_true_true, HasPrefix_app.
  - rewrite <- list_fmap_compose.
    eapply (StronglySorted_fmap_elem key_lt);
      [|apply StronglySorted_filter, Items_sorted].
    intros x y Hx Hy Hxy. simpl.
    destruct (Hhits x Hx) as (ukx & Hkx & _ & -> & _).
    destruct (Hhits y Hy) as (uky & Hky & _ & -> & _).
    unfold key_lt, bytes_lt in Hxy. rewrite Hkx, Hky, bytes_compare_app in Hxy.
    exact Hxy.
Qed.

End round_trips.

(** ** Block nodes: writing and reading back *)

Lemma ReadFull_app n (a rest : list byte) :
  length a = n → ReadFull n (a ++ rest) = Ok (a, rest).
Proof.
  intros Hl. unfold ReadFull. rewrite length_app.
  rewrite (proj2 (Nat.leb_le _ _)) by lia.
  by rewrite take_app_length', drop_app_length'.
Qed.

Section node_round_trip.
Context `{NodeEncoders}.

Lemma DeserializeBlockNode_SerializeBlockNode node extra :
  encodes_back node →
  ∃ data, SerializeBlockNode node = Ok data
          ∧ DeserializeBlockNode (data ++ extra) = Ok (set_Parent None node).
Proof.
  intros (Hh & Hs & Hrh & Hrs & Hwork & hb & Htb & Hfb & Hlen).
  unfold SerializeBlockNode. rewrite Htb. eexists. split; [done|].
  unfold DeserializeBlockNode. cbn [app]. rewrite <- !app_assoc.
  rewrite ReadFull_app by apply bytes_len.
  rewrite Hrh.
  rewrite ReadFull_app by apply bytes_len.
  rewrite ReadFull_app by apply bytes_len.
  rewrite Hlen.
  replace (Z.of_nat (length hb) <? 0)%Z with false by (symmetry; apply Z.ltb_ge; lia).
  rewrite Nat2Z.id, ReadFull_app by done.
  rewrite Hfb, Hrs. rewrite !fit_bytes_of, Hwork, !N.mod_small by done.
  by destruct node.
Qed.

(** X16.  [DeserializeBlockNode] reads back what [SerializeBlockNode] wrote.
    For a node whose fields the codecs read back, serialising succeeds,
    and deserialising the bytes, whatever follows them, gives the node
    with a nil parent. *)
Theorem block_node_round_trip (node : BlockNode) (extra : list byte) :
  encodes_back node →
  ∃ data,
    SerializeBlockNode node = Ok data
    ∧ DeserializeBlockNode data = Ok (set_Parent None node)
    ∧ DeserializeBlockNode (data ++ extra) = Ok (set_Parent None node)
    ∧ (64 ≤ length data)%nat.
Proof.
  intros Hnode.
  destruct (DeserializeBlockNode_SerializeBlockNode node extra Hnode)
    as (data & Hser & Hextra).
  destruct (DeserializeBlockNode_SerializeBlockNode node [] Hnode)
    as (data' & Hser' & Hnil).
  rewrite Hser in Hser'. injection Hser' as <-. rewrite app_nil_r in Hnil.
  exists data. split_and!; [done..|].
  revert Hser. unfold SerializeBlockNode.
  destruct (Header_ToBytes _); [|done]. intros [= <-].
  rewrite !length_app, !bytes_len. lia.
Qed.

Lemma node_keys_inj h h' x x' b b' :
  h < 2 ^ 32 → h' < 2 ^ 32 →
  _heightHashToNodeIndexKey h x b = _heightHashToNodeIndexKey h' x' b' →
  h = h' ∧ x = x' ∧ b = b'.
Proof.
  intros Hh Hh'. unfold _heightHashToNodeIndexKey, _heightHashToNodeIndexPrefix.
  cbn zeta. rewrite <- !app_assoc.
  assert (b = b' → (_EncodeUint32 h ++ bytes_of x) = (_EncodeUint32 h' ++ bytes_of x') →
          h = h' ∧ x = x' ∧ b = b') as Hrest.
  { intros -> [He Hx]%app_inj_1; [|done].
    split_and!; [by apply _EncodeUint32_inj|by apply bytesN_eq|done]. }
  destruct b, b'; intros Heq.
  - apply Hrest; [done|]. by apply app_inv_head in Heq.
  - done.
  - done.
  - apply Hrest; [done|]. by apply app_inv_head in Heq.
Qed.

(** X17.  A stored node is read back under its height and hash.  For a node
    whose fields the codecs read back, after [PutHeightHashToNodeInfo]
    succeeds [GetHeightHashToNodeInfo] at the node's height and hash
    returns the node with a nil parent, and the lookup of any other
    height, hash or table (DeSo or Bitcoin nodes) gives what it gave
    before. *)
Theorem node_info_round_trip (node : BlockNode) (db db' : DB) (bitcoinNodes : bool) :
  encodes_back node →
  PutHeightHashToNodeInfo node db bitcoinNodes = (db', None) →
  GetHeightHashToNodeInfo db' (Height node) (Hash node) bitcoinNodes
  = Some (set_Parent None node)
  ∧ ∀ height hash b,
      height < 2 ^ 32 →
      (height, hash, b) ≠ (Height node, Hash node, bitcoinNodes) →
      GetHeightHashToNodeInfo db' height hash b = GetHeightHashToNodeInfo db height hash b.
Proof.
  intros Hnode (txn & Hfn & ->)%Update_Ok. revert Hfn.
  unfold PutHeightHashToNodeInfoWithTxn.
  destruct (DeserializeBlockNode_SerializeBlockNode node [] Hnode)
    as (data & -> & Hback).
  rewrite app_nil_r in Hback.
  intros (_ & Hv & _)%txn_Set_inv. cbn [view NewTransaction] in Hv.
  unfold GetHeightHashToNodeInfo, View, GetHeightHashToNodeInfoWithTxn.
  cbn [view NewTransaction contents]. split.
  - rewrite txn_Get_lookup by (by destruct bitcoinNodes).
    cbn [view NewTransaction contents].
    by rewrite Hv, lookup_insert_eq, Hback.
  - intros height hash b Hh Hne.
    rewrite !txn_Get_lookup by (by destruct b).
    cbn [view NewTransaction contents].
    rewrite Hv, lookup_insert_ne; [done|].
    intros (? & ? & ?)%node_keys_inj; [by simplify_eq|by destruct Hnode|done].
Qed.

End node_round_trip.

(** ** Deleting many keys in one transaction *)

Lemma forM_txn_Delete_spec {A} (g : A → list byte) (l : list A) txn :
  (∀ x, x ∈ l → g x ≠ []) →
  update txn = true →
  forM_ l (λ x, txn_Delete (g x)) txn
  = if (length l <=? room txn)%nat
    then (MkTxn (foldl (λ m x, delete (g x) m) (view txn) l) true
            (room txn - length l), Ok tt)
    else (MkTxn (foldl (λ m x, delete (g x) m) (view txn) (take (room txn) l)) true 0,
          Err ErrTxnTooBig).
Proof.
  revert txn. induction l as [|x l IH]; intros [m u r] Hg Hu; simpl in *; subst u.
  { by rewrite Nat.sub_0_r. }
  unfold bind, txn_Delete. destruct r as [|r].
  - unfold txn_modify. simpl. destruct (g x) eqn:E; [|done].
    by destruct (Hg x); [left|].
  - rewrite txn_modify_ok by (done || apply Hg; left). simpl.
    rewrite IH by (done || intros y Hy; apply Hg; by right). simpl.
    by destruct (length l <=? r)%nat.
Qed.

Lemma lookup_foldl_delete {A} (g : A → list byte) (l : list A)
    (m : gmap (list byte) (list byte)) k :
  foldl (λ m x, delete (g x) m) m l !! k
  = if decide (k ∈ g <$> l) then None else m !! k.
Proof.
  revert m. induction l as [|x l IH]; intros m; csimpl; [done|].
  rewrite IH. destruct (decide (k = g x)) as [->|Hne].
  - rewrite lookup_delete_eq. rewrite (decide_True (P := g x ∈ g x :: _)) by left.
    by destruct (decide _).
  - rewrite lookup_delete_ne by done.
    destruct (decide (k ∈ g <$> l)) as [Hin|Hnin].
    + by rewrite decide_True by (by right).
    + rewrite decide_False; [done|]. by intros [?|?]%elem_of_cons.
Qed.

Section bulk_delete.
Context `{NodeEncoders}.

(** X18.  [DbBulkDeleteHeightHashToNodeInfo] is all or nothing.  When the handle
    lets one transaction write as many entries as there are nodes, it
    returns nil, no key of a listed node remains, and every other key is
    unchanged; otherwise it returns [ErrTxnTooBig] and the store is
    unchanged. *)
Theorem bulk_delete_nodes (nodes : list BlockNode) (db : DB) (bitcoinNodes : bool) :
  let key node := _heightHashToNodeIndexKey (Height node) (Hash node) bitcoinNodes in
  let db' := (DbBulkDeleteHeightHashToNodeInfo nodes db bitcoinNodes).1 in
  let err := (DbBulkDeleteHeightHashToNodeInfo nodes db bitcoinNodes).2 in
  if (length nodes <=? maxBatchCount db)%nat then
    err = None
    ∧ (∀ node, node ∈ nodes →
         contents db' !! key node = None
         ∧ GetHeightHashToNodeInfo db' (Height node) (Hash node) bitcoinNodes = None)
    ∧ (∀ k, (∀ node, node ∈ nodes → k ≠ key node) →
            contents db' !! k = contents db !! k)
  else err = Some ErrTxnTooBig ∧ db' = db.
Proof.
  intros key db' err. unfold db', err, DbBulkDeleteHeightHashToNodeInfo, Update,
    DbDeleteHeightHashToNodeInfoWithTxn.
  rewrite (forM_txn_Delete_spec key) by (done || intros x _; by destruct bitcoinNodes).
  cbn [room view NewTransaction].
  destruct (length nodes <=? maxBatchCount db)%nat; [|done].
  cbn [fst snd contents]. split_and!; [done| |].
  - intros node Hin.
    assert (foldl (λ m x, delete (key x) m) (contents db) nodes !! key node = None)
      as Hnone.
    { rewrite lookup_foldl_delete. rewrite decide_True; [done|].
      apply list_elem_of_fmap. eauto. }
    split; [done|].
    unfold GetHeightHashToNodeInfo, View, GetHeightHashToNodeInfoWithTxn.
    rewrite txn_Get_lookup by (by destruct bitcoinNodes).
    cbn [view NewTransaction contents]. fold (key node). by rewrite Hnone.
  - intros k Hk. cbn [view]. rewrite lookup_foldl_delete.
    rewrite decide_False; [done|].
    intros (node & -> & Hin)%list_elem_of_fmap. by apply (Hk node).
Qed.

End bulk_delete.

(** ** The best chain of any tip *)

Section best_chain.
Context `{Externals}.

Lemma GetBestChain_loop_ancestry heap tip path fuel acc :
  ancestry heap tip path →
  (length path ≤ fuel)%nat →
  GetBestChain_loop fuel heap tip acc
  = Some (if forallb (is_validated heap) path then Ok (acc ++ path)
          else Err (Errorf "GetBestChain: Invalid node found in main chain")).
Proof.
  intros Hpath. revert fuel acc.
  induction Hpath as [|tip node path Hnode Hpath IH]; intros fuel acc Hfuel.
  { rewrite GetBestChain_loop_nil. simpl. by rewrite app_nil_r. }
  destruct fuel as [|fuel]; [simpl in Hfuel; lia|].
  cbn [GetBestChain_loop forallb]. unfold is_validated at 1. rewrite Hnode.
  destruct ((N.land (Status node) StatusBlockValidated =? 0)
            && (N.land (Status node) StatusBitcoinHeaderValidated =? 0)); [done|].
  cbn [negb andb]. rewrite IH by (simpl in Hfuel; lia).
  by rewrite <- app_assoc.
Qed.

(** X19.  What [GetBestChain] returns for any tip.  Let [path] be the pointers
    met when following parents from the tip until nil.  Then the function
    returns the path from its far end to the tip when every node on it
    carries a validated status bit, and the error "Invalid node found in
    main chain" otherwise; the block index that it is passed plays no
    part.  A nil tip gives the empty chain. *)
Theorem best_chain_of_path (heap : list BlockNode) (tip : option nat) (path : list nat)
    (blockIndex : gmap BlockHash nat) (fuel : nat) :
  ancestry heap tip path →
  (length path ≤ fuel)%nat →
  GetBestChain fuel heap tip blockIndex
  = Some (if forallb (is_validated heap) path then Ok (reverse path)
          else Err (Errorf "GetBestChain: Invalid node found in main chain")).
Proof.
  intros Hpath Hfuel. unfold GetBestChain.
  rewrite (GetBestChain_loop_ancestry _ _ path) by done.
  by destruct (forallb _ path).
Qed.

End best_chain.

(** ** Chains of writes *)

Lemma bind_Ok_inv {A B} (m : M A) (f : A → M B) txn txn' b :
  bind m f txn = (txn', Ok b) →
  ∃ txn1 a, m txn = (txn1, Ok a) ∧ f a txn1 = (txn', Ok b).
Proof. unfold bind. destruct (m txn) as [txn1 [a|e]]; [eauto|done]. Qed.

(** Takes a successful run of wrapped writes apart, one write at a time. *)
Ltac invert_writes H :=
  repeat first
    [ let Hv := fresh "Hv" in
      apply bind_Ok_inv in H as (? & [] & (_ & Hv & _)%wrapf_inv%txn_Set_inv & H)
    | let Hv := fresh "Hv" in
      apply bind_Ok_inv in H as (? & [] & (_ & Hv & _)%wrapf_inv%txn_Delete_inv & H)
    | let Hv := fresh "Hv" in
      apply wrapf_inv, txn_Set_inv in H as (_ & Hv & _)
    | let Hv := fresh "Hv" in
      apply wrapf_inv, txn_Delete_inv in H as (_ & Hv & _) ].

(** Rewrites the views of the intermediate transactions away. *)
Ltac chase_views :=
  repeat match goal with H : view _ = _ |- _ => rewrite H; clear H end.

(** Keys of different tables differ in their first byte. *)
Ltac other_table := intros [=].

(** ** Stake ids *)

(** X20.  The stake id of a post hash is the hash followed by one zero byte, and
    [StakeIDToHash] gives the hash back. *)
Theorem stake_id_round_trip (hash : BlockHash) :
  HashToStakeID hash = bytes_of hash ++ [x00]
  ∧ length (HashToStakeID hash) = PubKeyBytesLenCompressed
  ∧ StakeIDToHash (HashToStakeID hash) = Some hash.
Proof.
  assert (HashToStakeID hash = bytes_of hash ++ [x00]) as Heq.
  { unfold HashToStakeID, copy_into, PubKeyBytesLenCompressed.
    rewrite length_replicate, bytes_len.
    rewrite take_ge by (rewrite bytes_len; lia).
    change (drop 32 (replicate 33 x00)) with [x00].
    apply list_eq. intros i. destruct (decide (i = 32%nat)) as [->|Hne].
    - rewrite list_lookup_insert_eq by (rewrite length_app, bytes_len; simpl; lia).
      by rewrite lookup_app_r, bytes_len by (rewrite bytes_len; lia).
    - by rewrite list_lookup_insert_ne. }
  rewrite Heq. split_and!; [done|by rewrite length_app, bytes_len|].
  unfold StakeIDToHash, HashSizeBytes.
  rewrite length_app, bytes_len. simpl. f_equal. apply bytesN_eq.
  rewrite take_app_length' by (by rewrite bytes_len). by rewrite fit_bytes_of.
Qed.

(** ** Public keys and PKIDs *)

Section pkid_round_trip.
Context `{Gob PKIDEntry}.

(** X21.  The two PKID mappings of a public key.  After
    [DBPutPKIDMappingsWithTxn] succeeds for an entry that gob reads back,
    the entry is returned for the public key and the public key for the
    entry's PKID.  After [DBDeletePKIDMappingsWithTxn] then succeeds, the
    lookups fall back: the public key's entry carries the public key
    itself as PKID, and the PKID's public key is the PKID; no other key has
    changed. *)
Theorem pkid_mappings_round_trip (txn txn1 txn2 : Txn) (publicKey : list byte)
    (pkidEntry : PKIDEntry) (pkid : PKID) :
  publicKey ≠ [] →
  PKIDEntry_PKID pkidEntry = Some pkid →
  gobDecode (gobEncode pkidEntry) = Some pkidEntry →
  DBPutPKIDMappingsWithTxn publicKey pkidEntry txn = (txn1, Ok tt) →
  DBDeletePKIDMappingsWithTxn publicKey txn1 = (txn2, Ok tt) →
  DBGetPKIDEntryForPublicKeyWithTxn txn1 publicKey = Some pkidEntry
  ∧ DBGetPublicKeyForPKIDWithTxn txn1 pkid = publicKey
  ∧ DBGetPKIDEntryForPublicKeyWithTxn txn2 publicKey
    = Some (MkPKIDEntry (Some (fit 33 publicKey)) publicKey)
  ∧ DBGetPublicKeyForPKIDWithTxn txn2 pkid = bytes_of pkid
  ∧ (∀ k, k ≠ _PrefixPublicKeyToPKID ++ publicKey →
          k ≠ _PrefixPKIDToPublicKey ++ bytes_of pkid →
          view txn2 !! k = view txn !! k).
Proof.
  intros Hpk Hpkid Hgob Hput Hdel.
  assert ((length publicKey =? 0)%nat = false) as Hlen.
  { destruct publicKey; [done|]. done. }
  assert (view txn1 = <[_PrefixPKIDToPublicKey ++ bytes_of pkid := publicKey]>
                        (<[_PrefixPublicKeyToPKID ++ publicKey := gobEncode pkidEntry]>
                           (view txn))) as Hv1.
  { revert Hput. unfold DBPutPKIDMappingsWithTxn. rewrite Hpkid.
    destruct (txn_Set _ _ txn) as [txn0 [[]|e]] eqn:E; [|done].
    apply txn_Set_inv in E as (_ & Hv & _).
    intros (_ & Hv' & _)%wrapf_inv%txn_Set_inv. by rewrite Hv', Hv. }
  assert (DBGetPKIDEntryForPublicKeyWithTxn txn1 publicKey = Some pkidEntry) as Hget1.
  { unfold DBGetPKIDEntryForPublicKeyWithTxn. rewrite Hlen.
    rewrite txn_Get_lookup by done. rewrite Hv1.
    rewrite lookup_insert_ne by other_table. by rewrite lookup_insert_eq. }
  assert (view txn2 = delete (_PrefixPKIDToPublicKey ++ bytes_of pkid)
                        (delete (_PrefixPublicKeyToPKID ++ publicKey) (view txn1)))
    as Hv2.
  { revert Hdel. unfold DBDeletePKIDMappingsWithTxn. rewrite Hget1.
    destruct (wrapf _ _ txn1) as [txn0 [[]|e]] eqn:E; [|done].
    apply wrapf_inv, txn_Delete_inv in E as (_ & Hv & _). rewrite Hpkid.
    intros (_ & Hv' & _)%wrapf_inv%txn_Delete_inv. by rewrite Hv', Hv. }
  split_and!; [done| | | |].
  - unfold DBGetPublicKeyForPKIDWithTxn. rewrite txn_Get_lookup by done.
    by rewrite Hv1, lookup_insert_eq.
  - unfold DBGetPKIDEntryForPublicKeyWithTxn. rewrite Hlen.
    rewrite txn_Get_lookup by done. rewrite Hv2.
    rewrite lookup_delete_ne by other_table. rewrite lookup_delete_eq.
    unfold PublicKeyToPKID. by rewrite Hlen.
  - unfold DBGetPublicKeyForPKIDWithTxn. rewrite txn_Get_lookup by done.
    by rewrite Hv2, lookup_delete_eq.
  - intros k Hk1 Hk2. rewrite Hv2, Hv1.
    by rewrite !lookup_delete_ne, !lookup_insert_ne.
Qed.

End pkid_round_trip.

(** ** Private messages *)

Section message_round_trip.
Context `{Gob MessageEntry}.

(** X22.  A message is stored once for its sender and once for its recipient.
    After [DbPutMessageEntryWithTxn] succeeds for a message that gob reads
    back, both public keys have 33 bytes and each of them finds the message
    at its timestamp.  After [DbDeleteMessageEntryMappingsWithTxn] then
    succeeds for either of the two public keys, neither finds it, and no
    other key has changed. *)
Theorem message_put_get_delete (txn txn1 txn2 : Txn) (messageEntry : MessageEntry)
    (publicKey : list byte) :
  let sender := SenderPublicKey messageEntry in
  let recipient := RecipientPublicKey messageEntry in
  let tstampNanos := TstampNanos messageEntry in
  gobDecode (gobEncode messageEntry) = Some messageEntry →
  DbPutMessageEntryWithTxn messageEntry txn = (txn1, Ok tt) →
  publicKey = sender ∨ publicKey = recipient →
  DbDeleteMessageEntryMappingsWithTxn publicKey tstampNanos txn1 = (txn2, Ok tt) →
  length sender = PubKeyBytesLenCompressed
  ∧ length recipient = PubKeyBytesLenCompressed
  ∧ DbGetMessageEntryWithTxn txn1 sender tstampNanos = Some messageEntry
  ∧ DbGetMessageEntryWithTxn txn1 recipient tstampNanos = Some messageEntry
  ∧ DbGetMessageEntryWithTxn txn2 sender tstampNanos = None
  ∧ DbGetMessageEntryWithTxn txn2 recipient tstampNanos = None
  ∧ (∀ k, k ≠ _dbKeyForMessageEntry sender tstampNanos →
          k ≠ _dbKeyForMessageEntry recipient tstampNanos →
          view txn2 !! k = view txn !! k).
Proof.
  intros sender recipient tstampNanos Hgob Hput Hwho Hdel.
  revert Hput. unfold DbPutMessageEntryWithTxn.
  fold sender recipient tstampNanos.
  destruct (Nat.eqb_spec (length sender) PubKeyBytesLenCompressed) as [Hs|_];
    [|done].
  destruct (Nat.eqb_spec (length recipient) PubKeyBytesLenCompressed) as [Hr|_];
    [|done].
  cbn [negb].
  replace (MkMessageEntry sender recipient (EncryptedText messageEntry) tstampNanos)
    with messageEntry by (by destruct messageEntry).
  intros Hput. invert_writes Hput.
  assert (∀ pk, pk = sender ∨ pk = recipient →
                DbGetMessageEntryWithTxn txn1 pk tstampNanos = Some messageEntry)
    as Hget1.
  { intros pk Hpk. unfold DbGetMessageEntryWithTxn.
    rewrite txn_Get_lookup by done. rewrite Hv0, Hv.
    destruct Hpk as [->| ->].
    - destruct (decide (_dbKeyForMessageEntry sender tstampNanos
                        = _dbKeyForMessageEntry recipient tstampNanos)) as [->|Hne].
      + by rewrite lookup_insert_eq.
      + rewrite lookup_insert_ne by done. by rewrite lookup_insert_eq.
    - by rewrite lookup_insert_eq. }
  revert Hdel. unfold DbDeleteMessageEntryMappingsWithTxn.
  rewrite (Hget1 publicKey Hwho). fold sender recipient.
  intros Hdel. invert_writes Hdel.
  split_and!; [done|done|by apply Hget1; left|by apply Hget1; right| | |].
  - unfold DbGetMessageEntryWithTxn. rewrite txn_Get_lookup by done.
    rewrite Hv2, Hv1.
    destruct (decide (_dbKeyForMessageEntry sender tstampNanos
                      = _dbKeyForMessageEntry recipient tstampNanos)) as [->|Hne].
    + by rewrite lookup_delete_eq.
    + rewrite lookup_delete_ne by done. by rewrite lookup_delete_eq.
  - unfold DbGetMessageEntryWithTxn. rewrite txn_Get_lookup by done.
    by rewrite Hv2, lookup_delete_eq.
  - intros k Hk1 Hk2. rewrite Hv2, Hv1, Hv0, Hv.
    by rewrite !lookup_delete_ne, !lookup_insert_ne.
Qed.

End message_round_trip.

(** ** Stored mempool transactions *)

Lemma forM_DbDeleteMempoolTxnKey_spec (msg : string) (l : list (list byte)) txn :
  (∀ k, k ∈ l → k ≠ []) →
  update txn = true →
  let r := forM_ l (λ txnKey, wrapf (DbDeleteMempoolTxnKeyWithTxn txnKey) msg) txn in
  if (length l <=? room txn)%nat
  then r = (MkTxn (foldl (λ m k, delete k m) (view txn) l) true
              (room txn - length l), Ok tt)
  else is_Ok r.2 = false.
Proof.
  revert txn. induction l as [|k l IH]; intros txn Hl Hu r; unfold r;
    cbn [forM_ length foldl].
  { cbn. destruct txn; simpl in *. rewrite Hu. by rewrite Nat.sub_0_r. }
  assert (k ≠ []) as Hk by (apply Hl; left).
  unfold bind.
  destruct (wrapf (DbDeleteMempoolTxnKeyWithTxn k) msg txn) as [txn' r'] eqn:E.
  revert E. unfold wrapf, DbDeleteMempoolTxnKeyWithTxn, wrapf, txn_Delete, txn_modify.
  rewrite Hu. destruct k as [|k0 k]; [done|]. cbn [negb].
  destruct (room txn) as [|n] eqn:Hroom; intros [= <- <-]; [done|].
  specialize (IH (MkTxn (delete (k0 :: k) (view txn)) true n)).
  cbn [room view update] in IH.
  change (S (length l) <=? S n)%nat with (length l <=? n)%nat.
  change (S n - S (length l))%nat with (n - length l)%nat.
  apply IH; [|done]. intros k' Hk'. apply Hl. by right.
Qed.

(** X23.  [DbDeleteAllMempoolTxns] returns nil whatever happened.  When one
    transaction has room for a delete of every stored mempool key, no key
    with the mempool prefix remains and the other keys are unchanged;
    otherwise nothing is deleted, and nil is returned all the same. *)
Theorem mempool_delete_all (db : DB) :
  let keysFound := (_enumerateKeysForPrefix db _PrefixMempoolTxnHashToMsgBitCloutTxn).1 in
  let db' := (DbDeleteAllMempoolTxns db).1 in
  (DbDeleteAllMempoolTxns db).2 = None
  ∧ if (length keysFound <=? maxBatchCount db)%nat then
      ∀ k, contents db' !! k
           = if HasPrefix k _PrefixMempoolTxnHashToMsgBitCloutTxn then None
             else contents db !! k
    else db' = db.
Proof.
  intros keysFound db'. split; [done|].
  unfold db', keysFound, DbDeleteAllMempoolTxns, Update, DbDeleteAllMempoolTxnsWithTxn.
  rewrite _enumerateKeysForPrefix_spec, _enumerateKeysForPrefixWithTxn_spec.
  cbn [fst snd view NewTransaction].
  set (p := _PrefixMempoolTxnHashToMsgBitCloutTxn).
  set (l := (filter (λ kv, HasPrefix kv.1 p) (Items (contents db))).*1).
  assert (∀ k, k ∈ l ↔ HasPrefix k p = true ∧ is_Some (contents db !! k)) as Hl.
  { intros k. unfold l. rewrite list_elem_of_fmap. split.
    - intros ([k' v] & -> & [Hp Hin%elem_of_Items]%list_elem_of_filter).
      cbn [fst] in *. split; [by destruct (HasPrefix k' p)|eauto].
    - intros [Hp [v Hv]]. exists (k, v). split; [done|].
      apply list_elem_of_filter. split; [cbn [fst]; by rewrite Hp|by apply elem_of_Items]. }
  pose proof (forM_DbDeleteMempoolTxnKey_spec
                "DbDeleteAllMempoolTxMappings: Deleting mempool txnKey failed." l
                (MkTxn (contents db) true (maxBatchCount db))) as Hrun.
  cbn [room view update] in Hrun.
  destruct (length l <=? maxBatchCount db)%nat.
  - unfold NewTransaction. rewrite Hrun; [|by intros k [Hp _]%Hl; destruct k|done].
    cbn [fst contents view]. intros k.
    rewrite (lookup_foldl_delete id). rewrite list_fmap_id.
    destruct (decide (k ∈ l)) as [[Hp _]%Hl|Hnin]; [by rewrite Hp|].
    destruct (HasPrefix k p) eqn:Hp; [|done].
    destruct (contents db !! k) eqn:Hk; [|done].
    destruct Hnin. apply Hl. eauto.
  - unfold NewTransaction.
    destruct (forM_ l _ _) as [txn [[]|e]]; [|done].
    discriminate Hrun; [by intros k [Hp _]%Hl; destruct k|done].
Qed.

(** ** Posts and comments *)

Section post_mappings.
Context `{PostExternals} `{!Gob PostEntry} `{!Gob RecloutEntry}.
Context (IsVanillaReclout : PostEntry → bool).

(** The index keys of a top-level post. *)
Lemma DBPutPostEntryMappingsWithTxn_post postEntry txn txn1 :
  ParentStakeID postEntry = [] →
  DBPutPostEntryMappingsWithTxn IsVanillaReclout postEntry txn = (txn1, Ok tt) →
  ∃ m,
    view txn1 = (if IsVanillaReclout postEntry
                 then match RecloutedPostHash postEntry with
                      | Some h =>
                          <[_dbKeyForReclouterPubKeyRecloutedPostHashToRecloutPostHash
                              (PosterPublicKey postEntry) h
                            := gobEncode (MkRecloutEntry (PosterPublicKey postEntry)
                                            (PostHash postEntry) (Some h))]> m
                      | None => m
                      end
                 else m)
    ∧ (IsVanillaReclout postEntry = true → is_Some (RecloutedPostHash postEntry))
    ∧ m = <[_dbGetStakeIDPostDBKey (PostHash postEntry)
              (TotalStakeNanos (PostStakeEntry postEntry)) := []]>
          (<[_dbKeyForStakeMultipleBpsPostHash (StakeMultipleBasisPoints postEntry)
               (PostHash postEntry) := []]>
           (<[_dbKeyForCreatorBpsPostHash (CreatorBasisPoints postEntry)
                (PostHash postEntry) := []]>
            (<[_dbKeyForTstampPostHash (TimestampNanos postEntry)
                 (PostHash postEntry) := []]>
             (<[_dbKeyForPosterPublicKeyTimestampPostHash (PosterPublicKey postEntry)
                  (TimestampNanos postEntry) (PostHash postEntry) := []]>
              (<[_dbKeyForPostEntryHash (PostHash postEntry) := gobEncode postEntry]>
                 (view txn)))))).
Proof.
  intros Hparent. unfold DBPutPostEntryMappingsWithTxn. rewrite Hparent.
  cbn [length Nat.eqb negb]. intros Hput.
  apply bind_Ok_inv in Hput as (t1 & [] & (_ & Hv1 & _)%wrapf_inv%txn_Set_inv & Hput).
  apply bind_Ok_inv in Hput as (t2 & [] & Hidx & Hput).
  invert_writes Hidx.
  exists (view t2). split; [|split; [|by chase_views]].
  - destruct (IsVanillaReclout postEntry); [|by injection Hput as <-].
    unfold reclout_key in Hput.
    destruct (RecloutedPostHash postEntry) as [h|]; [|done].
    by invert_writes Hput.
  - intros Hvan. rewrite Hvan in Hput. unfold reclout_key in Hput.
    by destruct (RecloutedPostHash postEntry).
Qed.

(** The index key of a comment. *)
Lemma DBPutPostEntryMappingsWithTxn_comment postEntry txn txn1 :
  ParentStakeID postEntry ≠ [] →
  DBPutPostEntryMappingsWithTxn IsVanillaReclout postEntry txn = (txn1, Ok tt) →
  let extendedStakeID :=
    if (length (ParentStakeID postEntry) =? HashSizeBytes)%nat
    then ParentStakeID postEntry ++ [x00] else ParentStakeID postEntry in
  ∃ m,
    view txn1 = (if IsVanillaReclout postEntry
                 then match RecloutedPostHash postEntry with
                      | Some h =>
                          <[_dbKeyForReclouterPubKeyRecloutedPostHashToRecloutPostHash
                              (PosterPublicKey postEntry) h
                            := gobEncode (MkRecloutEntry (PosterPublicKey postEntry)
                                            (PostHash postEntry) (Some h))]> m
                      | None => m
                      end
                 else m)
    ∧ length extendedStakeID = PubKeyBytesLenCompressed
    ∧ m = <[_dbKeyForCommentParentStakeIDToPostHash extendedStakeID
              (TimestampNanos postEntry) (PostHash postEntry) := []]>
          (<[_dbKeyForPostEntryHash (PostHash postEntry) := gobEncode postEntry]>
             (view txn)).
Proof.
  intros Hparent Hput extendedStakeID. revert Hput.
  unfold DBPutPostEntryMappingsWithTxn.
  replace (length (ParentStakeID postEntry) =? 0)%nat with false
    by (by destruct (ParentStakeID postEntry)).
  intros Hput. cbn [negb] in Hput. fold extendedStakeID in Hput.
  apply bind_Ok_inv in Hput as (t1 & [] & (_ & Hv1 & _)%wrapf_inv%txn_Set_inv & Hput).
  apply bind_Ok_inv in Hput as (t2 & [] & Hidx & Hput).
  destruct (Nat.eqb_spec (length extendedStakeID) PubKeyBytesLenCompressed)
    as [Hext|_]; [|done].
  cbn [negb] in Hidx. invert_writes Hidx.
  exists (view t2). split; [|split; [done|by chase_views]].
  destruct (IsVanillaReclout postEntry); [|by injection Hput as <-].
  unfold reclout_key in Hput.
  destruct (RecloutedPostHash postEntry) as [h|]; [|done].
  by invert_writes Hput.
Qed.

(** What a successful delete removes: for a stored entry whose
    [ParentStakeID] has 32 bytes the post and its comment index key, and
    for any other stored entry the post and the keys of a top-level post. *)
Lemma DBDeletePostEntryMappingsWithTxn_inv postHash postEntry txn1 txn2 :
  DBGetPostEntryByPostHashWithTxn txn1 postHash = Some postEntry →
  DBDeletePostEntryMappingsWithTxn IsVanillaReclout postHash txn1 = (txn2, Ok tt) →
  if (length (ParentStakeID postEntry) =? HashSizeBytes)%nat then
    view txn2
    = delete (_dbKeyForCommentParentStakeIDToPostHash (ParentStakeID postEntry ++ [x00])
                (TimestampNanos postEntry) (PostHash postEntry))
        (delete (_dbKeyForPostEntryHash postHash) (view txn1))
  else
    ∃ m,
      view txn2 = (if IsVanillaReclout postEntry
                   then match RecloutedPostHash postEntry with
                        | Some h =>
                            delete
                              (_dbKeyForReclouterPubKeyRecloutedPostHashToRecloutPostHash
                                 (PosterPublicKey postEntry) h) m
                        | None => m
                        end
                   else m)
      ∧ m = delete (_dbGetStakeIDPostDBKey (PostHash postEntry)
                      (TotalStakeNanos (PostStakeEntry postEntry)))
              (delete (_dbKeyForStakeMultipleBpsPostHash
                         (StakeMultipleBasisPoints postEntry) (PostHash postEntry))
                 (delete (_dbKeyForCreatorBpsPostHash (CreatorBasisPoints postEntry)
                            (PostHash postEntry))
                    (delete (_dbKeyForTstampPostHash (TimestampNanos postEntry)
                               (PostHash postEntry))
                       (delete (_dbKeyForPosterPublicKeyTimestampPostHash
                                  (PosterPublicKey postEntry) (TimestampNanos postEntry)
                                  (PostHash postEntry))
                          (delete (_dbKeyForPostEntryHash postHash) (view txn1)))))).
Proof.
  intros Hget. unfold DBDeletePostEntryMappingsWithTxn. rewrite Hget. intros Hdel.
  apply bind_Ok_inv in Hdel as (t1 & [] & (_ & Hv1 & _)%wrapf_inv%txn_Delete_inv & Hdel).
  destruct (length (ParentStakeID postEntry) =? HashSizeBytes)%nat.
  - invert_writes Hdel. by chase_views.
  - apply bind_Ok_inv in Hdel as (t2 & [] & (_ & Hv2 & _)%wrapf_inv%txn_Delete_inv & Hdel).
    apply bind_Ok_inv in Hdel as (t3 & [] & (_ & Hv3 & _)%wrapf_inv%txn_Delete_inv & Hdel).
    apply bind_Ok_inv in Hdel as (t4 & [] & (_ & Hv4 & _)%wrapf_inv%txn_Delete_inv & Hdel).
    apply bind_Ok_inv in Hdel as (t5 & [] & (_ & Hv5 & _)%wrapf_inv%txn_Delete_inv & Hdel).
    apply bind_Ok_inv in Hdel as (t6 & [] & (_ & Hv6 & _)%wrapf_inv%txn_Delete_inv & Hdel).
    exists (view t6). split; [|by chase_views].
    destruct (IsVanillaReclout postEntry); [|by injection Hdel as <-].
    unfold reclout_key in Hdel.
    destruct (RecloutedPostHash postEntry) as [h|]; [|done].
    invert_writes Hdel. by chase_views.
Qed.

Lemma DBGetPostEntryByPostHashWithTxn_lookup txn postHash :
  DBGetPostEntryByPostHashWithTxn txn postHash
  = view txn !! _dbKeyForPostEntryHash postHash ≫= gobDecode.
Proof.
  unfold DBGetPostEntryByPostHashWithTxn. rewrite txn_Get_lookup by done.
  by destruct (view txn !! _).
Qed.

(** X24.  A top-level post, stored and deleted again.  After
    [DBPutPostEntryMappingsWithTxn] succeeds for an entry without a parent
    that gob reads back, the entry is found by its hash and each of its
    index keys is stored: poster and time, time, creator basis points,
    stake multiple, staked amount, and for a vanilla reclout the reclout
    key.  After [DBDeletePostEntryMappingsWithTxn] then succeeds, the entry
    is not found, none of the index keys is stored, and every other key is
    as it was before the put. *)
Theorem post_put_then_delete (txn txn1 txn2 : Txn) (postEntry : PostEntry) :
  let postHash := PostHash postEntry in
  let indexKeys :=
    [ _dbKeyForPosterPublicKeyTimestampPostHash (PosterPublicKey postEntry)
        (TimestampNanos postEntry) postHash;
      _dbKeyForTstampPostHash (TimestampNanos postEntry) postHash;
      _dbKeyForCreatorBpsPostHash (CreatorBasisPoints postEntry) postHash;
      _dbKeyForStakeMultipleBpsPostHash (StakeMultipleBasisPoints postEntry) postHash;
      _dbGetStakeIDPostDBKey postHash (TotalStakeNanos (PostStakeEntry postEntry)) ]
    ++ match RecloutedPostHash postEntry with
       | Some h =>
           if IsVanillaReclout postEntry
           then [_dbKeyForReclouterPubKeyRecloutedPostHashToRecloutPostHash
                   (PosterPublicKey postEntry) h]
           else []
       | None => []
       end in
  ParentStakeID postEntry = [] →
  gobDecode (gobEncode postEntry) = Some postEntry →
  DBPutPostEntryMappingsWithTxn IsVanillaReclout postEntry txn = (txn1, Ok tt) →
  DBDeletePostEntryMappingsWithTxn IsVanillaReclout postHash txn1 = (txn2, Ok tt) →
  DBGetPostEntryByPostHashWithTxn txn1 postHash = Some postEntry
  ∧ DBGetPostEntryByPostHashWithTxn txn2 postHash = None
  ∧ (∀ k, k ∈ indexKeys → is_Some (view txn1 !! k) ∧ view txn2 !! k = None)
  ∧ (∀ k, k ≠ _dbKeyForPostEntryHash postHash → k ∉ indexKeys →
          view txn2 !! k = view txn !! k).
Proof.
  intros postHash indexKeys Hparent Hgob Hput Hdel.
  apply DBPutPostEntryMappingsWithTxn_post in Hput as (m & Hv1 & Hsome & ->); [|done].
  assert (DBGetPostEntryByPostHashWithTxn txn1 postHash = Some postEntry) as Hget.
  { rewrite DBGetPostEntryByPostHashWithTxn_lookup, Hv1.
    destruct (IsVanillaReclout postEntry), (RecloutedPostHash postEntry);
      rewrite ?(lookup_insert_ne _ (_dbKeyForReclouterPubKeyRecloutedPostHashToRecloutPostHash _ _))
        by other_table;
      rewrite !lookup_insert_ne by other_table;
      by rewrite lookup_insert_eq. }
  apply (DBDeletePostEntryMappingsWithTxn_inv _ postEntry) in Hdel; [|done].
  rewrite Hparent in Hdel. cbn [length Nat.eqb HashSizeBytes] in Hdel.
  destruct Hdel as (m' & Hv2 & ->). fold postHash in Hv1, Hv2.
  split_and!; [done| | |].
  - rewrite DBGetPostEntryByPostHashWithTxn_lookup, Hv2.
    destruct (IsVanillaReclout postEntry), (RecloutedPostHash postEntry);
      rewrite ?(lookup_delete_ne _ (_dbKeyForReclouterPubKeyRecloutedPostHashToRecloutPostHash _ _))
        by other_table;
      rewrite !lookup_delete_ne by other_table;
      by rewrite lookup_delete_eq.
  - intros k Hk. rewrite Hv1, Hv2. unfold indexKeys in Hk.
    destruct (IsVanillaReclout postEntry), (RecloutedPostHash postEntry);
      rewrite ?elem_of_app, ?elem_of_cons, ?elem_of_nil in Hk;
      destruct_or?; try done; subst k;
      (split;
       [repeat first [rewrite lookup_insert_eq
                     |rewrite lookup_insert_ne by other_table]; by eauto
       |repeat first [rewrite lookup_delete_eq
                     |rewrite lookup_delete_ne by other_table]; done]).
  - intros k Hmain Hk. rewrite Hv2, Hv1. unfold indexKeys in Hk.
    destruct (IsVanillaReclout postEntry), (RecloutedPostHash postEntry);
      rewrite ?not_elem_of_app, ?not_elem_of_cons in Hk;
      destruct_and?;
      rewrite !lookup_delete_ne, !lookup_insert_ne by done; done.
Qed.

(** X25.  A comment, stored and deleted again.  The put accepts a parent stake
    id of 32 bytes, which it extends by a zero byte, or of 33 bytes, and
    stores the comment index key of the extended id.  The delete removes
    the comment index key only for a parent of 32 bytes: for a parent of 33
    bytes the entry is gone and the comment index key stays behind.
    Conversely the reclout key of a vanilla reclout is removed for a parent
    of 33 bytes and stays behind for one of 32 bytes. *)
Theorem comment_put_then_delete (txn txn1 txn2 : Txn) (postEntry : PostEntry) :
  let postHash := PostHash postEntry in
  let isHash := (length (ParentStakeID postEntry) =? HashSizeBytes)%nat in
  let extendedStakeID :=
    if isHash then ParentStakeID postEntry ++ [x00] else ParentStakeID postEntry in
  let commentKey :=
    _dbKeyForCommentParentStakeIDToPostHash extendedStakeID
      (TimestampNanos postEntry) postHash in
  ParentStakeID postEntry ≠ [] →
  gobDecode (gobEncode postEntry) = Some postEntry →
  DBPutPostEntryMappingsWithTxn IsVanillaReclout postEntry txn = (txn1, Ok tt) →
  DBDeletePostEntryMappingsWithTxn IsVanillaReclout postHash txn1 = (txn2, Ok tt) →
  length extendedStakeID = PubKeyBytesLenCompressed
  ∧ DBGetPostEntryByPostHashWithTxn txn1 postHash = Some postEntry
  ∧ view txn1 !! commentKey = Some []
  ∧ DBGetPostEntryByPostHashWithTxn txn2 postHash = None
  ∧ view txn2 !! commentKey = (if isHash then None else Some [])
  ∧ (IsVanillaReclout postEntry = true →
     ∃ h, RecloutedPostHash postEntry = Some h
          ∧ view txn2 !! _dbKeyForReclouterPubKeyRecloutedPostHashToRecloutPostHash
                           (PosterPublicKey postEntry) h
            = if isHash
              then Some (gobEncode (MkRecloutEntry (PosterPublicKey postEntry)
                                      postHash (Some h)))
              else None).
Proof.
  intros postHash isHash extendedStakeID commentKey Hparent Hgob Hput Hdel.
  assert (IsVanillaReclout postEntry = true → is_Some (RecloutedPostHash postEntry))
    as Hsome.
  { intros Hvan. revert Hput. unfold DBPutPostEntryMappingsWithTxn.
    intros (t1 & [] & _ & (t2 & [] & _ & Hput)%bind_Ok_inv)%bind_Ok_inv.
    rewrite Hvan in Hput. unfold reclout_key in Hput.
    by destruct (RecloutedPostHash postEntry). }
  apply DBPutPostEntryMappingsWithTxn_comment in Hput as (m & Hv1 & Hext & ->); [|done].
  fold isHash extendedStakeID postHash commentKey in Hv1, Hext.
  assert (DBGetPostEntryByPostHashWithTxn txn1 postHash = Some postEntry) as Hget.
  { rewrite DBGetPostEntryByPostHashWithTxn_lookup, Hv1.
    destruct (IsVanillaReclout postEntry), (RecloutedPostHash postEntry);
      rewrite ?(lookup_insert_ne _ (_dbKeyForReclouterPubKeyRecloutedPostHashToRecloutPostHash _ _))
        by other_table;
      rewrite !lookup_insert_ne by other_table;
      by rewrite lookup_insert_eq. }
  assert (view txn1 !! commentKey = Some []) as Hc1.
  { rewrite Hv1.
    destruct (IsVanillaReclout postEntry), (RecloutedPostHash postEntry);
      rewrite ?(lookup_insert_ne _ (_dbKeyForReclouterPubKeyRecloutedPostHashToRecloutPostHash _ _))
        by other_table;
      by rewrite lookup_insert_eq. }
  apply (DBDeletePostEntryMappingsWithTxn_inv _ postEntry) in Hdel; [|done].
  fold isHash postHash in Hdel. unfold commentKey, extendedStakeID in *.
  destruct isHash.
  - split_and!; [done|done|done| | |].
    + rewrite DBGetPostEntryByPostHashWithTxn_lookup, Hdel.
      rewrite lookup_delete_ne by other_table. by rewrite lookup_delete_eq.
    + by rewrite Hdel, lookup_delete_eq.
    + intros Hvan. destruct (Hsome Hvan) as [h Hh]. exists h. split; [done|].
      rewrite Hdel, Hv1, Hvan, Hh.
      rewrite !lookup_delete_ne by other_table. by rewrite lookup_insert_eq.
  - destruct Hdel as (m' & Hv2 & ->).
    split_and!; [done|done|done| | |].
    + rewrite DBGetPostEntryByPostHashWithTxn_lookup, Hv2.
      destruct (IsVanillaReclout postEntry), (RecloutedPostHash postEntry);
        rewrite ?(lookup_delete_ne _ (_dbKeyForReclouterPubKeyRecloutedPostHashToRecloutPostHash _ _))
          by other_table;
        rewrite !lookup_delete_ne by other_table;
        by rewrite lookup_delete_eq.
    + rewrite Hv2.
      destruct (IsVanillaReclout postEntry), (RecloutedPostHash postEntry);
        rewrite ?(lookup_delete_ne _ (_dbKeyForReclouterPubKeyRecloutedPostHashToRecloutPostHash _ _))
          by other_table;
        by rewrite !lookup_delete_ne by other_table.
    + intros Hvan. destruct (Hsome Hvan) as [h Hh]. exists h. split; [done|].
      by rewrite Hv2, Hvan, Hh, lookup_delete_eq.
Qed.

End post_mappings.

(** ** Appending to the transaction index *)

Section txindex_put.
Context `{Externals}.

(** X26.  [DbPutTxindexPublicKeyToTxnMappingSingleWithTxn] appends.  Let the
    owner's prefix hold only entries of the owner, let the entries be the
    list [txIDs] at the indices from 0, let the next-index query return the
    length of the list, and let the varint codec read back the new counter.
    When the put of [txID] succeeds, enumerating the owner's list yields
    [txIDs] followed by [txID], the next-index query returns the new
    length, and no key outside the owner's entries and counter has
    changed. *)
Theorem txindex_put_appends (txn txn' : Txn) (pk : list byte)
    (txIDs : list BlockHash) (txID : BlockHash) :
  txindex_wf txn pk →
  txindex_holds txn pk txIDs →
  N.of_nat (length txIDs) < 2 ^ 32 →
  _DbGetTxindexNextIndexForPublicKeyWithTxn txn pk = Some (N.of_nat (length txIDs)) →
  (∃ z, Uvarint (UintToBuf (N.of_nat (S (length txIDs))))
        = (N.of_nat (S (length txIDs)), z) ∧ (0 < z)%Z) →
  DbPutTxindexPublicKeyToTxnMappingSingleWithTxn pk txID txn = (txn', Ok tt) →
  DbGetTxindexTxnsForPublicKeyWithTxn txn' pk = txIDs ++ [txID]
  ∧ _DbGetTxindexNextIndexForPublicKeyWithTxn txn' pk
    = Some (N.of_nat (S (length txIDs)))
  ∧ (∀ k, k ≠ _DbTxindexPublicKeyNextIndexPrefix pk →
          k ≠ DbTxindexPublicKeyIndexToTxnKey pk (N.of_nat (length txIDs)) →
          view txn' !! k = view txn !! k).
Proof.
  intros Hwf Hh Hlen Hq Hvar Hput.
  destruct (txindex_append_loop pk [txID] txIDs txn txn') as (Hwf' & Hh' & Hq');
    try done.
  - simpl. lia.
  - intros j Hj. simpl in Hj. by replace j with (S (length txIDs)) by lia.
  - cbn [forM_]. unfold bind. by rewrite Hput.
  - split_and!.
    + apply DbGetTxindexTxnsForPublicKeyWithTxn_spec; [done|done|].
      rewrite length_app. simpl. lia.
    + rewrite Hq', length_app. simpl. do 2 f_equal. lia.
    + intros k Hk1 Hk2.
      rewrite (DbPutTxindexPublicKeyToTxnMappingSingleWithTxn_inv _ _ _ _ _ Hq Hput).
      rewrite N.mod_small by lia. by rewrite !lookup_insert_ne.
Qed.

End txindex_put.

(** ** The further properties on sample stores *)

Section further_samples.
#[local] Existing Instance Sample.externals.
#[local] Existing Instance SampleCodecs.nodeEncoders.
#[local] Existing Instance SampleCodecs.gobPKIDEntry.
#[local] Existing Instance SampleCodecs.gobMessageEntry.
#[local] Existing Instance SampleCodecs.constants.
#[local] Existing Instance SampleCodecs.postExternals.
#[local] Existing Instance SampleCodecs.gobPostEntry.
#[local] Existing Instance SampleCodecs.gobRecloutEntry.

(** Equality of evaluated sample values: arrays are compared by their
    bytes. *)
Ltac sample_eq := repeat first [reflexivity | apply bytesN_eq | progress f_equal].

(** *** Codecs of keys *)

Lemma big_endian_order_witness :
  bytes_compare (EncodeUint64 255) (EncodeUint64 256) = Lt
  ∧ (bytes_lt (EncodeUint64 255) (EncodeUint64 256) ↔ 255 < 256)
  ∧ (EncodeUint64 255 = EncodeUint64 256 ↔ 255 = 256).
Proof.
  destruct (big_endian_order 255 256) as (H1 & H2 & H3 & _); [done|done|].
  by rewrite H1.
Defined.

Lemma utxo_key_round_trip_witness :
  _UtxoKeyFromDbKey (_SerializeUtxoKey sample_utxoKey) = Some sample_utxoKey
  ∧ length (_SerializeUtxoKey sample_utxoKey) = 36%nat
  ∧ _UtxoKeyFromDbKey [x01; x02] = None.
Proof.
  destruct (utxo_key_round_trip sample_utxoKey [x01; x02]) as (H1 & H2 & _ & H4);
    [done|].
  split_and!; [exact H1|exact H2|]. apply H4. simpl. lia.
Defined.

(** *** Pages *)

Lemma forward_page_witness :
  DBGetPaginatedKeysAndValuesForPrefix page_db [x10; x01; x02] [x10] 0 2 false true
  = Ok ([[x10; x01; x02]; [x10; xff; xff]], [[x0b]; [x0c]]).
Proof.
  destruct (forward_page page_db [x10; x01; x02] [x10] 2 true) as [H _]; [done|].
  rewrite H. vm_compute. reflexivity.
Defined.

Lemma page_invariants_witness :
  let keys := [[x10; xff; xff]; [x10; x01; x02]] in
  let vals := [[x0c]; [x0b]] in
  DBGetPaginatedKeysAndValuesForPrefix page_db [x10] [x10] 3 2 true true
  = Ok (keys, vals)
  ∧ length vals = length keys
  ∧ (∀ k, k ∈ keys → Z.of_nat (length k) = 3%Z)
  ∧ StronglySorted (flip bytes_lt) keys.
Proof.
  intros keys vals.
  assert (DBGetPaginatedKeysAndValuesForPrefix page_db [x10] [x10] 3 2 true true
          = Ok (keys, vals)) as Hrun by (vm_compute; reflexivity).
  destruct (page_invariants _ _ _ _ _ _ _ _ _ Hrun) as (H1 & _ & H3 & _ & H5).
  split_and!; [exact Hrun|exact H1|by apply H3|exact H5].
Defined.

(** *** Stored counters and hashes *)

Lemma utxo_counter_round_trip_witness :
  let txn := NewTransaction Sample.emptyDB true in
  GetUtxoNumEntriesWithTxn txn = Some 0
  ∧ GetUtxoNumEntriesWithTxn (PutUtxoNumEntriesWithTxn 7 txn).1 = Some 7.
Proof.
  intros txn.
  destruct (utxo_counter_round_trip txn (PutUtxoNumEntriesWithTxn 7 txn).1 7)
    as (H1 & _ & H3 & _).
  { apply run_eq. vm_compute. reflexivity. }
  split; [by apply H3|exact H1].
Defined.

Lemma nanos_purchased_round_trip_witness :
  DbGetNanosPurchased (DbPutNanosPurchased Sample.emptyDB 5).1 = Some 5
  ∧ DbGetNanosPurchased Sample.emptyDB = Some 0
  ∧ DbGetUSDCentsPerBitcoinExchangeRate Sample.emptyDB = Some 1000000.
Proof.
  destruct (nanos_purchased_round_trip Sample.emptyDB
              (DbPutNanosPurchased Sample.emptyDB 5).1 5) as (H1 & _ & H3 & H4).
  { apply run_eq. vm_compute. reflexivity. }
  split_and!; [exact H1|by apply H3|by apply H4].
Defined.

Lemma best_hash_per_chain_witness :
  let put := PutBestHash (Sample.hash x01) Sample.emptyDB ChainTypeBitcoinHeader in
  put.2 = None
  ∧ DbGetBestHash put.1 ChainTypeBitcoinHeader = Some (Sample.hash x01)
  ∧ DbGetBestHash put.1 ChainTypeBitCloutBlock = None
  ∧ PutBestHash (Sample.hash x01) Sample.emptyDB 7 = (Sample.emptyDB, None)
  ∧ DbGetBestHash Sample.emptyDB 7 = None.
Proof.
  intros put.
  destruct (best_hash_per_chain (Sample.hash x01) Sample.emptyDB
              ChainTypeBitcoinHeader) as [Hknown _].
  destruct Hknown as [Hok Hget]; [by right|].
  assert (put.2 = None) as Hput by (apply Hok; vm_compute; lia).
  destruct (Hget put.1) as [Hbh Hother].
  { apply run_eq. exact Hput. }
  destruct (best_hash_per_chain (Sample.hash x01) Sample.emptyDB 7) as [_ Hunknown].
  destruct Hunknown as [Hnil Hnone]; [done..|].
  split_and!; [exact Hput|exact Hbh| |exact Hnil|exact Hnone].
  rewrite Hother by done. vm_compute. reflexivity.
Defined.

(** *** Likes, follows and burn transactions *)

Lemma like_put_is_listed_witness :
  let db' := (DbPutLikeMappings Sample.emptyDB sample_pk (Sample.hash x05)).1 in
  DbGetLikerPubKeyToLikedPostHashMapping db' sample_pk (Sample.hash x05) = Some []
  ∧ (∃ posts, DbGetPostHashesYouLike db' sample_pk = Ok posts
              ∧ Sample.hash x05 ∈ posts)
  ∧ (∃ users, DbGetLikerPubKeysLikingAPostHash db' (Sample.hash x05) = Ok users
              ∧ sample_pk ∈ users).
Proof.
  intros db'.
  destruct (like_put_is_listed Sample.emptyDB db' sample_pk (Sample.hash x05))
    as (_ & H2 & H3 & (users & Husers & Hin & _)).
  { apply run_eq. vm_compute. reflexivity. }
  split_and!; [exact H2|exact H3|]. exists users. by split.
Defined.

Lemma follow_listings_witness :
  let db := (DbPutFollowMappings Sample.emptyDB (Sample.pkid x01) (Sample.pkid x02)).1 in
  ∃ youFollow followingYou,
    DbGetPKIDsYouFollow db (Sample.pkid x01) = Ok youFollow
    ∧ DbGetPKIDsFollowingYou db (Sample.pkid x01) = Ok followingYou
    ∧ (Sample.pkid x02 ∈ youFollow)
    ∧ (Sample.pkid x02 ∉ followingYou).
Proof.
  intros db.
  destruct (follow_listings db (Sample.pkid x01))
    as (youFollow & followingYou & H1 & H2 & H3 & H4 & _).
  { intros k [v Hk] Hp.
    pose proof (store_keys_forallb (contents db)
      (λ kv, (length kv.1 =? 67)%nat) eq_refl k v Hk) as Hall.
    by apply Nat.eqb_eq in Hall. }
  exists youFollow, followingYou. split_and!; [exact H1|exact H2| |].
  - apply H3. vm_compute. discriminate.
  - intros [v Hv]%H4. vm_compute in Hv. discriminate Hv.
Defined.

Lemma burn_txids_witness :
  let id := Sample.hash x01 in
  let db1 := (Update Sample.emptyDB (DbPutBitcoinBurnTxIDWithTxn id)).1 in
  let db2 := (Update db1 (DbDeleteBitcoinBurnTxIDWithTxn id)).1 in
  DbExistsBitcoinBurnTxID db1 id = true
  ∧ (id ∈ DbGetAllBitcoinBurnTxIDs db1)
  ∧ DbExistsBitcoinBurnTxID db2 id = false
  ∧ (id ∉ DbGetAllBitcoinBurnTxIDs db2).
Proof.
  intros id db1 db2.
  destruct (burn_txids Sample.emptyDB db1 db2 id) as (_ & _ & H3 & H4 & H5 & H6 & _).
  - intros k [v Hk]. simpl in Hk. by rewrite lookup_empty in Hk.
  - apply run_eq. vm_compute. reflexivity.
  - apply run_eq. vm_compute. reflexivity.
  - done.
Defined.

(** *** Diamonds and UTXOs *)

Lemma diamond_put_get_delete_witness :
  let diamondEntry :=
    MkDiamondEntry (Sample.pkid x01) (Sample.pkid x02) (Sample.hash x03) 1 in
  let db1 := (DbPutDiamondMappings Sample.emptyDB diamondEntry).1 in
  let db2 := (DbDeleteDiamondMappings db1 (Sample.pkid x02) (Sample.pkid x01)
                (Sample.hash x03)).1 in
  DbGetDiamondMappings db1 (Sample.pkid x02) (Sample.pkid x01) (Sample.hash x03)
  = Some diamondEntry
  ∧ DbGetDiamondMappings db2 (Sample.pkid x02) (Sample.pkid x01) (Sample.hash x03) = None.
Proof.
  intros diamondEntry db1 db2.
  destruct (diamond_put_get_delete Sample.emptyDB db1 db2 diamondEntry)
    as (H1 & _ & H3 & _).
  - vm_compute. sample_eq.
  - vm_compute. discriminate.
  - apply run_eq. vm_compute. reflexivity.
  - apply run_eq. vm_compute. reflexivity.
  - split; [exact H1|exact H3].
Defined.

Lemma utxo_put_get_delete_witness :
  ∃ txn1 txn2,
    PutMappingsForUtxoWithTxn sample_utxoKey sample_utxoEntry
      (NewTransaction Sample.emptyDB true) = (txn1, Ok tt)
    ∧ DbGetUtxoEntryForUtxoKeyWithTxn txn1 sample_utxoKey = Some sample_utxoEntry
    ∧ DeleteUnmodifiedMappingsForUtxoWithTxn sample_utxoKey txn1 = (txn2, Ok tt)
    ∧ DbGetUtxoEntryForUtxoKeyWithTxn txn2 sample_utxoKey = None.
Proof.
  destruct (utxo_put_get_delete (NewTransaction Sample.emptyDB true)
              sample_utxoKey sample_utxoEntry)
    as (txn1 & txn2 & H1 & H2 & _ & H4 & H5 & _).
  - reflexivity.
  - simpl. lia.
  - reflexivity.
  - vm_compute. reflexivity.
  - by exists txn1, txn2.
Defined.

Lemma utxos_for_pub_key_witness :
  let db := (Update Sample.emptyDB
               (PutMappingsForUtxoWithTxn sample_utxoKey sample_utxoEntry)).1 in
  ∃ found,
    DbGetUtxosForPubKey (PublicKey sample_utxoEntry) db = Ok found
    ∧ ((sample_utxoEntry, sample_utxoKey) ∈ found).
Proof.
  intros db.
  set (prefix := _PrefixPubKeyUtxoKey ++ PublicKey sample_utxoEntry).
  assert (forallb (λ kv : list byte * list byte,
                     implb (HasPrefix kv.1 prefix) (length kv.1 =? 70)%nat)
            (map_to_list (contents db)) = true) as Hlen.
  { vm_compute. reflexivity. }
  assert (forallb (λ kv : list byte * list byte,
                     implb (HasPrefix kv.1 prefix)
                       (bool_decide (drop 34 kv.1 = _SerializeUtxoKey sample_utxoKey)))
            (map_to_list (contents db)) = true) as Hkey.
  { vm_compute. reflexivity. }
  destruct (utxos_for_pub_key db (PublicKey sample_utxoEntry)) as (found & H1 & H2 & _).
  - reflexivity.
  - intros k [v Hk] Hp.
    pose proof (store_keys_forallb _ _ Hlen k v Hk) as Hall.
    cbn [fst] in Hall. fold prefix in Hp. rewrite Hp in Hall.
    by apply Nat.eqb_eq in Hall.
  - intros utxoKey [v Hk].
    pose proof (store_keys_forallb _ _ Hkey _ v Hk) as Hall.
    cbn [fst] in Hall. fold prefix in Hall.
    rewrite HasPrefix_app in Hall. cbn [implb] in Hall.
    apply bool_decide_eq_true in Hall.
    rewrite drop_app_length' in Hall by reflexivity.
    unfold DbGetUtxoEntryForUtxoKey, View, DbGetUtxoEntryForUtxoKeyWithTxn,
      _DbKeyForUtxoKey.
    rewrite Hall. vm_compute. eauto.
  - exists found. split; [exact H1|]. apply H2. split_and!.
    + by vm_compute.
    + vm_compute. eauto.
    + vm_compute. reflexivity.
Defined.

(** *** Block nodes *)

Lemma sample_node_encodes_back :
  encodes_back (sample_node (Sample.hash x01) 1 (Sample.hash x02)).
Proof.
  split_and!; try (by vm_compute); try (intros rest; reflexivity).
  exists (bytes_of (Sample.hash x02)). split_and!.
  - reflexivity.
  - vm_compute. reflexivity.
  - intros rest. reflexivity.
Qed.

Lemma block_node_round_trip_witness :
  let node := sample_node (Sample.hash x01) 1 (Sample.hash x02) in
  ∃ data,
    SerializeBlockNode node = Ok data
    ∧ DeserializeBlockNode data = Ok node
    ∧ DeserializeBlockNode (data ++ [x2a]) = Ok node.
Proof.
  intros node.
  destruct (block_node_round_trip node [x2a] sample_node_encodes_back)
    as (data & H1 & H2 & H3 & _).
  by exists data.
Defined.

Lemma node_info_round_trip_witness :
  let node := sample_node (Sample.hash x01) 1 (Sample.hash x02) in
  let db' := (PutHeightHashToNodeInfo node Sample.emptyDB false).1 in
  GetHeightHashToNodeInfo db' 1 (Sample.hash x01) false = Some node
  ∧ GetHeightHashToNodeInfo db' 1 (Sample.hash x01) true = None.
Proof.
  intros node db'.
  destruct (node_info_round_trip node Sample.emptyDB db' false
              sample_node_encodes_back) as [H1 H2].
  { apply run_eq. vm_compute. reflexivity. }
  split; [exact H1|]. rewrite H2; [|by vm_compute|done].
  vm_compute. reflexivity.
Defined.

Lemma best_chain_of_path_witness :
  GetBestChain 2 SampleCodecs.heap (Some 1%nat) ∅ = Some (Ok [0%nat; 1%nat]).
Proof.
  rewrite (best_chain_of_path SampleCodecs.heap (Some 1%nat) [1%nat; 0%nat] ∅ 2).
  - reflexivity.
  - eapply ancestry_cons; [reflexivity|].
    eapply ancestry_cons; [reflexivity|]. apply ancestry_nil.
  - simpl. lia.
Defined.

(** *** PKIDs and messages *)

Lemma pkid_mappings_round_trip_witness :
  let publicKey := replicate 33 x07 in
  let txn := NewTransaction Sample.emptyDB true in
  let txn1 := (DBPutPKIDMappingsWithTxn publicKey SampleCodecs.pkidEntry txn).1 in
  let txn2 := (DBDeletePKIDMappingsWithTxn publicKey txn1).1 in
  DBGetPKIDEntryForPublicKeyWithTxn txn1 publicKey = Some SampleCodecs.pkidEntry
  ∧ DBGetPublicKeyForPKIDWithTxn txn1 (Sample.pkid x09) = publicKey
  ∧ DBGetPKIDEntryForPublicKeyWithTxn txn2 publicKey
    = Some (MkPKIDEntry (Some (fit 33 publicKey)) publicKey)
  ∧ DBGetPublicKeyForPKIDWithTxn txn2 (Sample.pkid x09) = replicate 33 x09.
Proof.
  intros publicKey txn txn1 txn2.
  destruct (pkid_mappings_round_trip txn txn1 txn2 publicKey SampleCodecs.pkidEntry
              (Sample.pkid x09)) as (H1 & H2 & H3 & H4 & _).
  - done.
  - reflexivity.
  - vm_compute. sample_eq.
  - apply run_eq. vm_compute. reflexivity.
  - apply run_eq. vm_compute. reflexivity.
  - split_and!; [exact H1|exact H2|exact H3|exact H4].
Defined.

Lemma message_put_get_delete_witness :
  let m := SampleCodecs.messageEntry in
  let txn := NewTransaction Sample.emptyDB true in
  let txn1 := (DbPutMessageEntryWithTxn m txn).1 in
  let txn2 := (DbDeleteMessageEntryMappingsWithTxn (RecipientPublicKey m) 1000 txn1).1 in
  DbGetMessageEntryWithTxn txn1 (SenderPublicKey m) 1000 = Some m
  ∧ DbGetMessageEntryWithTxn txn1 (RecipientPublicKey m) 1000 = Some m
  ∧ DbGetMessageEntryWithTxn txn2 (SenderPublicKey m) 1000 = None
  ∧ DbGetMessageEntryWithTxn txn2 (RecipientPublicKey m) 1000 = None.
Proof.
  intros m txn txn1 txn2.
  destruct (message_put_get_delete txn txn1 txn2 m (RecipientPublicKey m))
    as (_ & _ & H3 & H4 & H5 & H6 & _).
  - vm_compute. reflexivity.
  - apply run_eq. vm_compute. reflexivity.
  - by right.
  - apply run_eq. vm_compute. reflexivity.
  - split_and!; [exact H3|exact H4|exact H5|exact H6].
Defined.

(** *** Posts and comments *)

Lemma post_put_then_delete_witness :
  let post := SampleCodecs.post in
  let txn := NewTransaction Sample.emptyDB true in
  let txn1 := (DBPutPostEntryMappingsWithTxn SampleCodecs.isVanillaReclout post txn).1 in
  let txn2 := (DBDeletePostEntryMappingsWithTxn SampleCodecs.isVanillaReclout
                 (PostHash post) txn1).1 in
  DBGetPostEntryByPostHashWithTxn txn1 (PostHash post) = Some post
  ∧ DBGetPostEntryByPostHashWithTxn txn2 (PostHash post) = None
  ∧ (∀ k, view txn2 !! k = None).
Proof.
  intros post txn txn1 txn2.
  destruct (post_put_then_delete SampleCodecs.isVanillaReclout txn txn1 txn2 post)
    as (H1 & H2 & H3 & H4).
  - reflexivity.
  - vm_compute. sample_eq.
  - apply run_eq. vm_compute. reflexivity.
  - apply run_eq. vm_compute. reflexivity.
  - split_and!; [exact H1|exact H2|]. intros k.
    destruct (decide (k = _dbKeyForPostEntryHash (PostHash post))) as [->|Hmain].
    { revert H2. rewrite DBGetPostEntryByPostHashWithTxn_lookup.
      destruct (view txn2 !! _) as [v|] eqn:Hv; [|done].
      vm_compute in Hv. discriminate Hv. }
    match type of H3 with ∀ k, k ∈ ?l → _ => destruct (decide (k ∈ l)) as [Hin|Hnin] end.
    + by apply H3.
    + rewrite H4 by done. apply lookup_empty.
Defined.

Lemma comment_put_then_delete_witness :
  let comment := SampleCodecs.comment in
  let commentKey :=
    _dbKeyForCommentParentStakeIDToPostHash (replicate 33 x02) 2000 (PostHash comment) in
  let txn := NewTransaction Sample.emptyDB true in
  let txn1 := (DBPutPostEntryMappingsWithTxn SampleCodecs.isVanillaReclout
                 comment txn).1 in
  let txn2 := (DBDeletePostEntryMappingsWithTxn SampleCodecs.isVanillaReclout
                 (PostHash comment) txn1).1 in
  DBGetPostEntryByPostHashWithTxn txn1 (PostHash comment) = Some comment
  ∧ view txn1 !! commentKey = Some []
  ∧ DBGetPostEntryByPostHashWithTxn txn2 (PostHash comment) = None
  ∧ view txn2 !! commentKey = Some [].
Proof.
  intros comment commentKey txn txn1 txn2.
  destruct (comment_put_then_delete SampleCodecs.isVanillaReclout txn txn1 txn2 comment)
    as (_ & H2 & H3 & H4 & H5 & _).
  - done.
  - vm_compute. sample_eq.
  - apply run_eq. vm_compute. reflexivity.
  - apply run_eq. vm_compute. reflexivity.
  - split_and!; [exact H2|exact H3|exact H4|exact H5].
Defined.

(** *** Appending to the transaction index *)

Lemma txindex_put_appends_witness :
  let txn := NewTransaction Sample.emptyDB true in
  let txn' := (DbPutTxindexPublicKeyToTxnMappingSingleWithTxn sample_pk
                 (Sample.hash x0a) txn).1 in
  DbGetTxindexTxnsForPublicKeyWithTxn txn' sample_pk = [Sample.hash x0a]
  ∧ _DbGetTxindexNextIndexForPublicKeyWithTxn txn' sample_pk = Some 1.
Proof.
  intros txn txn'.
  destruct (txindex_put_appends txn txn' sample_pk [] (Sample.hash x0a))
    as (H1 & H2 & _).
  - intros k [v Hk]. simpl in Hk. by rewrite lookup_empty in Hk.
  - intros i Hi. simpl. by rewrite lookup_empty.
  - by vm_compute.
  - vm_compute. reflexivity.
  - apply sample_varint. simpl. lia.
  - apply run_eq. vm_compute. reflexivity.
  - split; [exact H1|exact H2].
Defined.
End further_samples.
